(** * Validation-guided repair engine: shallow embedding and checked properties

    The JavaScript sources embedded here are
    - [validator.js]            (email validator: [extract3Grams], [checkForbiddenWords],
                                 [checkCharLimit], [parseEmailOutput], [validateEmail], ...)
    - [validatorMultiformat.js] ([parseGeneratedContent], [checkLengthLimits], ...,
                                 [validateMultiformat])
    - [surgicalRepair.js]       ([determineRepairScope], [extractField], [replaceField],
                                 [buildSurgicalRepairPrompt], [surgicalRepair])
    - [generateEmail.js] and [generateMultiformat.js] (the two repair orchestrators)
    - [tieredKnowledge.js]      ([selectRelevantKnowledge], [estimateTokenCount])
    - [promptComposerMultiformat.js] ([determineRequiredFormats],
                                 [buildFormatInstructions]).

    JavaScript strings are sequences of UTF-16 code units; they are modelled as
    [list N].  Regular-expression literals are translated one by one into values of
    the type [Regex.regex] and run by a backtracking matcher that follows the
    ECMAScript matching order (ordered alternation, greedy quantifiers). *)

From Stdlib Require Import List NArith ZArith Bool Lia String Ascii Arith Permutation.
Import ListNotations.

Set Implicit Arguments.

(* ================================================================== *)
(** * JavaScript strings                                                *)
(* ================================================================== *)

Module JS.

Local Open Scope N_scope.

(** A string value: its UTF-16 code units. *)
Definition jsstring := list N.

Definition jsstring_eqb (a b : jsstring) : bool :=
  if list_eq_dec N.eq_dec a b then true else false.

(** ** Literals: the UTF-8 bytes of a Rocq string decoded to UTF-16 *)

Fixpoint bytes_of_string (s : string) : list N :=
  match s with
  | EmptyString => []
  | String a s' => N_of_ascii a :: bytes_of_string s'
  end.

Definition cont (b : N) : N := N.land b 63.

Fixpoint utf8_decode (bs : list N) : list N :=
  match bs with
  | [] => []
  | b :: rest =>
      if b <? 128 then b :: utf8_decode rest
      else if b <? 224 then
        match rest with
        | b1 :: rest1 => (N.land b 31 * 64 + cont b1) :: utf8_decode rest1
        | _ => []
        end
      else if b <? 240 then
        match rest with
        | b1 :: b2 :: rest2 =>
            (N.land b 15 * 4096 + cont b1 * 64 + cont b2) :: utf8_decode rest2
        | _ => []
        end
      else
        match rest with
        | b1 :: b2 :: b3 :: rest3 =>
            (N.land b 7 * 262144 + cont b1 * 4096 + cont b2 * 64 + cont b3)
              :: utf8_decode rest3
        | _ => []
        end
  end.

Definition utf16_of_codepoint (cp : N) : list N :=
  if cp <? 65536 then [cp]
  else let c := cp - 65536 in [55296 + N.shiftr c 10; 56320 + N.land c 1023].

Definition js (s : string) : jsstring :=
  flat_map utf16_of_codepoint (utf8_decode (bytes_of_string s)).

(** ** Character classification *)

(** WhiteSpace and LineTerminator code units: what [\s] matches and what
    [String.prototype.trim] strips. *)
Definition isWhiteSpace (c : N) : bool :=
  ((9 <=? c) && (c <=? 13)) || (c =? 32) || (c =? 160) || (c =? 5760)
  || ((8192 <=? c) && (c <=? 8202)) || (c =? 8232) || (c =? 8233)
  || (c =? 8239) || (c =? 8287) || (c =? 12288) || (c =? 65279).

Definition isLineTerminator (c : N) : bool :=
  (c =? 10) || (c =? 13) || (c =? 8232) || (c =? 8233).

Definition isDigit (c : N) : bool := (48 <=? c) && (c <=? 57).

(** [\w] without the [u] flag: ASCII letters, digits and underscore only. *)
Definition isWordChar (c : N) : bool :=
  ((97 <=? c) && (c <=? 122)) || ((65 <=? c) && (c <=? 90)) || isDigit c || (c =? 95).

Definition isHighSurrogate (c : N) : bool := (55296 <=? c) && (c <=? 56319).
Definition isLowSurrogate (c : N) : bool := (56320 <=? c) && (c <=? 57343).

(** ** Case mapping

    [toLowerCase]/[toUpperCase] and the case folding of the [i] flag are modelled
    on the letters the rule tables are written in: A-Z, the Latin-1 capitals
    U+00C0..U+00DE and the Cyrillic capitals U+0400..U+042F, each paired with its
    small letter.  Every other code unit is left unchanged, so on this
    repertoire [toLowerCase] keeps the length of a string. *)
Definition lowerUnit (c : N) : N :=
  if (65 <=? c) && (c <=? 90) then c + 32
  else if (192 <=? c) && (c <=? 222) && negb (c =? 215) then c + 32
  else if (1040 <=? c) && (c <=? 1071) then c + 32
  else if (1024 <=? c) && (c <=? 1039) then c + 80
  else c.

Definition upperUnit (c : N) : N :=
  if (97 <=? c) && (c <=? 122) then c - 32
  else if (224 <=? c) && (c <=? 254) && negb (c =? 247) then c - 32
  else if (1072 <=? c) && (c <=? 1103) then c - 32
  else if (1104 <=? c) && (c <=? 1119) then c - 80
  else c.

Definition toLowerCase (s : jsstring) : jsstring := map lowerUnit s.

(** ** String.prototype methods *)

Fixpoint trimStart (s : jsstring) : jsstring :=
  match s with
  | c :: s' => if isWhiteSpace c then trimStart s' else s
  | [] => []
  end.

Definition trimEnd (s : jsstring) : jsstring := rev (trimStart (rev s)).

Definition trim (s : jsstring) : jsstring := trimEnd (trimStart s).

(** [s.split(sep)] for a one-unit separator: always at least one piece. *)
Fixpoint splitOn (sep : N) (s : jsstring) : list jsstring :=
  match s with
  | [] => [[]]
  | c :: s' =>
      if c =? sep then [] :: splitOn sep s'
      else match splitOn sep s' with
           | l :: ls => (c :: l) :: ls
           | [] => [[c]]
           end
  end.

(** [arr.join(sep)]. *)
Fixpoint join (sep : jsstring) (ls : list jsstring) : jsstring :=
  match ls with
  | [] => []
  | [l] => l
  | l :: ls' => l ++ sep ++ join sep ls'
  end.

Definition lengthZ (s : jsstring) : Z := Z.of_nat (List.length s).

(** [s.substring(a, b)]: both indices clamped to [0, length], swapped if needed. *)
Definition substring (s : jsstring) (a b : Z) : jsstring :=
  let clamp i := Z.min (Z.max i 0) (lengthZ s) in
  let lo := Z.min (clamp a) (clamp b) in
  let hi := Z.max (clamp a) (clamp b) in
  firstn (Z.to_nat (hi - lo)) (skipn (Z.to_nat lo) s).

Fixpoint startsWith (s p : jsstring) : bool :=
  match p, s with
  | [], _ => true
  | x :: p', y :: s' => (x =? y) && startsWith s' p'
  | _ :: _, [] => false
  end.

(** [s.indexOf(p)] from position [i]; -1 when [p] does not occur. *)
Fixpoint indexOfFrom (i : Z) (s p : jsstring) : Z :=
  if startsWith s p then i
  else match s with
       | [] => (-1)%Z
       | _ :: s' => indexOfFrom (i + 1)%Z s' p
       end.

Definition indexOf (s p : jsstring) : Z := indexOfFrom 0%Z s p.

Definition includes (s p : jsstring) : bool := (0 <=? indexOf s p)%Z.

(** [Array.from(s).length]: iteration is by code point, so a well-formed
    surrogate pair is one element. *)
Fixpoint codePointLength (s : jsstring) : nat :=
  match s with
  | [] => O
  | c :: s' =>
      match s' with
      | d :: s'' =>
          if isHighSurrogate c && isLowSurrogate d
          then S (codePointLength s'')
          else S (codePointLength s')
      | [] => 1%nat
      end
  end.

(** Decimal rendering of a non-negative integer inside a template literal. *)
Fixpoint digitsFuel (fuel : nat) (n : N) (acc : jsstring) : jsstring :=
  match fuel with
  | O => acc
  | S f =>
      let acc' := (48 + n mod 10) :: acc in
      if n <? 10 then acc' else digitsFuel f (n / 10) acc'
  end.

Definition showN (n : N) : jsstring := digitsFuel (S (N.to_nat (N.log2 n))) n [].

Definition showNat (n : nat) : jsstring := showN (N.of_nat n).

(** A string is falsy exactly when it is empty. *)
Definition truthy (s : jsstring) : bool :=
  match s with [] => false | _ => true end.

End JS.

Import JS.

(* ================================================================== *)
(** * Regular expressions                                               *)
(* ================================================================== *)

Module Regex.

Local Open Scope N_scope.

(** The flags that change matching: [i] and [u].  ([g] only selects which
    string method iterates and is reflected in the function that is called.) *)
Record flags := { ignoreCase : bool; unicode : bool }.

Definition f_none := {| ignoreCase := false; unicode := false |}.
Definition f_i := {| ignoreCase := true; unicode := false |}.
Definition f_iu := {| ignoreCase := true; unicode := true |}.

(** Members of a character class. *)
Inductive citem :=
| CChar (c : N)
| CRange (lo hi : N)
| CSpace
| CDigit
| CWord.

Inductive regex :=
| Empty
| Chr (c : N)
| Any
| Class (neg : bool) (items : list citem)
| Seq (r1 r2 : regex)
| Alt (r1 r2 : regex)
| Star (r : regex)
| Bol
| WordBoundary
| NotAhead (r : regex)
| Group (n : nat) (r : regex).

(** Derived forms. *)
Fixpoint Str (s : jsstring) : regex :=
  match s with
  | [] => Empty
  | [c] => Chr c
  | c :: s' => Seq (Chr c) (Str s')
  end.

Definition Lit (s : string) : regex := Str (js s).
Definition Plus (r : regex) : regex := Seq r (Star r).
Definition Opt (r : regex) : regex := Alt r Empty.
Definition Space : regex := Class false [CSpace].
Definition Digit : regex := Class false [CDigit].
Definition OneOf (s : string) : regex := Class false (map CChar (js s)).

Fixpoint Seqs (rs : list regex) : regex :=
  match rs with
  | [] => Empty
  | [r] => r
  | r :: rs' => Seq r (Seqs rs')
  end.

Fixpoint Alts (rs : list regex) : regex :=
  match rs with
  | [] => Empty
  | [r] => r
  | r :: rs' => Alt r (Alts rs')
  end.

(** [r{n}], [r{n,}] and [r{lo,hi}] (greedy). *)
Fixpoint Times (n : nat) (r : regex) : regex :=
  match n with
  | O => Empty
  | S n' => Seq r (Times n' r)
  end.

Definition AtLeast (n : nat) (r : regex) : regex := Seq (Times n r) (Star r).

Fixpoint UpTo (n : nat) (r : regex) : regex :=
  match n with
  | O => Empty
  | S n' => Opt (Seq r (UpTo n' r))
  end.

Definition Between (lo hi : nat) (r : regex) : regex :=
  Seq (Times lo r) (UpTo (hi - lo) r).

(** Matcher state: position, the unit before it, the remaining input and the
    capture table (most recent entry first). *)
Record mstate := {
  pos : nat;
  prev : option N;
  rest : jsstring;
  caps : list (nat * (nat * nat))
}.

Definition initial (s : jsstring) : mstate :=
  {| pos := 0; prev := None; rest := s; caps := [] |}.

(** The next character and the state after it: a code unit, or under [u] a
    whole code point when a surrogate pair stands there. *)
Definition nextChar (fl : flags) (st : mstate) : option (N * mstate) :=
  match rest st with
  | [] => None
  | c :: tl =>
      match tl with
      | d :: tl' =>
          if unicode fl && isHighSurrogate c && isLowSurrogate d
          then Some (65536 + (c - 55296) * 1024 + (d - 56320),
                     {| pos := S (S (pos st)); prev := Some d; rest := tl'; caps := caps st |})
          else Some (c, {| pos := S (pos st); prev := Some c; rest := tl; caps := caps st |})
      | [] => Some (c, {| pos := S (pos st); prev := Some c; rest := tl; caps := caps st |})
      end
  end.

Definition canon (c : N) : N := upperUnit c.

Definition chrMatches (fl : flags) (c x : N) : bool :=
  if ignoreCase fl then canon c =? canon x else c =? x.

Definition itemHas (it : citem) (x : N) : bool :=
  match it with
  | CChar c => c =? x
  | CRange lo hi => (lo <=? x) && (x <=? hi)
  | CSpace => isWhiteSpace x
  | CDigit => isDigit x
  | CWord => isWordChar x
  end.

Definition itemMatches (fl : flags) (it : citem) (x : N) : bool :=
  if ignoreCase fl
  then itemHas it x || itemHas it (lowerUnit x) || itemHas it (upperUnit x)
  else itemHas it x.

Definition classMatches (fl : flags) (neg : bool) (items : list citem) (x : N) : bool :=
  xorb neg (existsb (fun it => itemMatches fl it x) items).

Definition isWordOpt (o : option N) : bool :=
  match o with Some c => isWordChar c | None => false end.

Definition setCap (n : nat) (a b : nat) (st : mstate) : mstate :=
  {| pos := pos st; prev := prev st; rest := rest st; caps := (n, (a, b)) :: caps st |}.

(** Backtracking matcher in continuation-passing style.  [k] is what has to
    match after [r]; alternatives are tried left to right and [Star] first tries
    one more iteration, as the ECMAScript semantics prescribes.  An iteration of
    [Star] that consumes nothing is rejected. *)
Fixpoint rmatch (fl : flags) (r : regex) (st : mstate)
         (k : mstate -> option mstate) {struct r} : option mstate :=
  match r with
  | Empty => k st
  | Chr c =>
      match nextChar fl st with
      | Some (x, st') => if chrMatches fl c x then k st' else None
      | None => None
      end
  | Any =>
      match nextChar fl st with
      | Some (x, st') => if isLineTerminator x then None else k st'
      | None => None
      end
  | Class neg items =>
      match nextChar fl st with
      | Some (x, st') => if classMatches fl neg items x then k st' else None
      | None => None
      end
  | Seq r1 r2 => rmatch fl r1 st (fun st' => rmatch fl r2 st' k)
  | Alt r1 r2 =>
      match rmatch fl r1 st k with
      | Some res => Some res
      | None => rmatch fl r2 st k
      end
  | Star r1 =>
      (fix loop (fuel : nat) (st0 : mstate) {struct fuel} : option mstate :=
         match fuel with
         | O => k st0
         | S fuel' =>
             match rmatch fl r1 st0
                     (fun st' => if Nat.ltb (pos st0) (pos st') then loop fuel' st' else None) with
             | Some res => Some res
             | None => k st0
             end
         end) (S (List.length (rest st))) st
  | Bol => match prev st with None => k st | Some _ => None end
  | WordBoundary =>
      if xorb (isWordOpt (prev st)) (isWordOpt (hd_error (rest st))) then k st else None
  | NotAhead r1 =>
      match rmatch fl r1 st (fun st' => Some st') with
      | Some _ => None
      | None => k st
      end
  | Group n r1 => rmatch fl r1 st (fun st' => k (setCap n (pos st) (pos st') st'))
  end.

(** A successful match: its span and its captures. *)
Record mresult := { mstart : nat; mend : nat; mcaps : list (nat * (nat * nat)) }.

Definition matchAt (fl : flags) (r : regex) (st : mstate) : option mresult :=
  match rmatch fl r {| pos := pos st; prev := prev st; rest := rest st; caps := [] |}
               (fun st' => Some st') with
  | Some st' => Some {| mstart := pos st; mend := pos st'; mcaps := caps st' |}
  | None => None
  end.

(** Leftmost match at or after the state's position. *)
Fixpoint searchFrom (fuel : nat) (fl : flags) (r : regex) (st : mstate) : option mresult :=
  match matchAt fl r st with
  | Some m => Some m
  | None =>
      match fuel with
      | O => None
      | S fuel' =>
          match nextChar fl st with
          | Some (_, st') => searchFrom fuel' fl r st'
          | None => None
          end
      end
  end.

Fixpoint stateAt (fuel : nat) (st : mstate) : mstate :=
  match fuel with
  | O => st
  | S fuel' =>
      match rest st with
      | [] => st
      | c :: tl => stateAt fuel' {| pos := S (pos st); prev := Some c; rest := tl; caps := [] |}
      end
  end.

(** [RegExp.prototype.exec] on a regex without [g]/[y]. *)
Definition exec (fl : flags) (r : regex) (s : jsstring) : option mresult :=
  searchFrom (List.length s) fl r (initial s).

(** [regex.test(s)]. *)
Definition test (fl : flags) (r : regex) (s : jsstring) : bool :=
  match exec fl r s with Some _ => true | None => false end.

Definition slice (s : jsstring) (a b : nat) : jsstring := firstn (b - a) (skipn a s).

(** [match[0]] and [match[n]]. *)
Definition matched (s : jsstring) (m : mresult) : jsstring := slice s (mstart m) (mend m).

Fixpoint lookupCap (n : nat) (cs : list (nat * (nat * nat))) : option (nat * nat) :=
  match cs with
  | [] => None
  | (i, span) :: cs' => if Nat.eqb i n then Some span else lookupCap n cs'
  end.

Definition group (s : jsstring) (m : mresult) (n : nat) : option jsstring :=
  match lookupCap n (mcaps m) with
  | Some (a, b) => Some (slice s a b)
  | None => None
  end.

(** All successive matches, as [s.match(/r/g)], [s.replace(/r/g, ..)] and
    [s.split(/r/)] enumerate them: after an empty match the search resumes one
    unit further. *)
Fixpoint allMatches (fuel : nat) (fl : flags) (r : regex) (s : jsstring) (from : nat)
  : list mresult :=
  match fuel with
  | O => []
  | S fuel' =>
      match searchFrom (List.length s) fl r (stateAt from (initial s)) with
      | None => []
      | Some m =>
          let next := if Nat.ltb (mstart m) (mend m) then mend m else S (mend m) in
          if Nat.ltb (List.length s) next then [m]
          else m :: allMatches fuel' fl r s next
      end
  end.

Definition matchesG (fl : flags) (r : regex) (s : jsstring) : list mresult :=
  allMatches (S (List.length s)) fl r s 0.

(** [s.match(/r/g)]: the matched strings, or [null] when there is none. *)
Definition matchG (fl : flags) (r : regex) (s : jsstring) : option (list jsstring) :=
  match matchesG fl r s with
  | [] => None
  | ms => Some (map (matched s) ms)
  end.

(** [s.replace(/r/, rep)]: first match only. *)
Definition replaceFirst (fl : flags) (r : regex) (s rep : jsstring) : jsstring :=
  match exec fl r s with
  | None => s
  | Some m => firstn (mstart m) s ++ rep ++ skipn (mend m) s
  end.

Fixpoint spliceAll (s : jsstring) (from : nat) (ms : list mresult) (rep : jsstring) : jsstring :=
  match ms with
  | [] => skipn from s
  | m :: ms' => slice s from (mstart m) ++ rep ++ spliceAll s (mend m) ms' rep
  end.

(** [s.replace(/r/g, rep)]. *)
Definition replaceAll (fl : flags) (r : regex) (s rep : jsstring) : jsstring :=
  spliceAll s 0 (matchesG fl r s) rep.

Fixpoint piecesBetween (s : jsstring) (from : nat) (ms : list mresult) : list jsstring :=
  match ms with
  | [] => [skipn from s]
  | m :: ms' => slice s from (mstart m) :: piecesBetween s (mend m) ms'
  end.

(** [s.split(/r/)] for a separator that has no capture groups and never
    matches the empty string. *)
Definition splitBy (fl : flags) (r : regex) (s : jsstring) : list jsstring :=
  piecesBetween s 0 (matchesG fl r s).

End Regex.

Import Regex.

(* ================================================================== *)
(** * validator.js: the email validator                                 *)
(* ================================================================== *)

Module Validator.

Inductive Severity := ERROR | WARNING | INFO.

Definition Severity_eqb (a b : Severity) : bool :=
  match a, b with
  | ERROR, ERROR | WARNING, WARNING | INFO, INFO => true
  | _, _ => false
  end.

(** The violation object.  [suggestedFix] is absent on some violations. *)
Record Violation := {
  code : jsstring;
  severity : Severity;
  message : jsstring;
  location : jsstring;
  evidence : jsstring;
  suggestedFix : option jsstring
}.

Definition isError (v : Violation) : bool := Severity_eqb (severity v) ERROR.

Definition hasCode (c : jsstring) (v : Violation) : bool := jsstring_eqb (code v) c.

(** The double-quote character, for messages that quote a word. *)
Definition dq : jsstring := [34%N].

Definition space : jsstring := [32%N].

(** ** extract3Grams *)

(** [Set.prototype.add] on an insertion-ordered set. *)
Definition setAdd (g : jsstring) (set : list jsstring) : list jsstring :=
  if existsb (jsstring_eqb g) set then set else set ++ [g].

Definition setHas (set : list jsstring) (g : jsstring) : bool :=
  existsb (jsstring_eqb g) set.

(** The punctuation class of [extract3Grams]: . , ! ? ; : em dash, en dash, hyphen,
    guillemets, the double quote (written three times), the apostrophe (twice),
    parentheses and square brackets. *)
Definition punctuation : regex :=
  Class false (map CChar (js ".,!?;:—–-«»" ++ dq ++ dq ++ dq ++ js "''()[]")).

(** The [for (i = 0; i <= words.length - 3; i++)] loop. *)
Fixpoint gramsOf (words : list jsstring) (grams : list jsstring) : list jsstring :=
  match words with
  | w0 :: ((w1 :: w2 :: _) as tl) =>
      gramsOf tl (setAdd (w0 ++ space ++ w1 ++ space ++ w2) grams)
  | _ => grams
  end.

Definition extract3Grams (text : jsstring) : list jsstring :=
  if negb (truthy text) then []
  else
    let normalized :=
      trim (replaceAll f_none (Plus Space)
              (replaceAll f_none punctuation (toLowerCase text) space) space) in
    let words := filter (fun w => Nat.ltb 0 (List.length w)) (splitOn 32 normalized) in
    gramsOf words [].

(** ** checkForbiddenWords *)

(** [/мероприятие\s+с\s+дегустацией\s+вин/i] *)
Definition allowedDegustatsiya : regex :=
  Seqs [Lit "мероприятие"; Plus Space; Lit "с"; Plus Space; Lit "дегустацией";
        Plus Space; Lit "вин"].

(** [/в\s+винотек/i] *)
Definition vVinotek : regex := Seqs [Lit "в"; Plus Space; Lit "винотек"].

(** [/покупк|покупа[тюе]/i] *)
Definition pokupkaPattern : regex :=
  Alt (Lit "покупк") (Seq (Lit "покупа") (OneOf "тюе")).

Definition notDot : regex := Class true [CChar 46%N].

(** [x || fallback] for a possibly-null match result. *)
Definition orElse (m : option jsstring) (fallback : jsstring) : jsstring :=
  match m with
  | Some s => if truthy s then s else fallback
  | None => fallback
  end.

Definition firstMatchText (fl : flags) (r : regex) (s : jsstring) : option jsstring :=
  option_map (matched s) (exec fl r s).

Definition degustatsiyaViolations (text location : jsstring) : list Violation :=
  let lowerText := toLowerCase text in
  if includes lowerText (js "дегустац") then
    if negb (test f_i allowedDegustatsiya text) then
      [ {| code := js "FORBIDDEN_DEGUSTATSIYA";
           severity := ERROR;
           message := js "Слово " ++ dq ++ js "дегустация" ++ dq ++ js " запрещено, кроме фразы "
                        ++ dq ++ js "мероприятие с дегустацией вин" ++ dq;
           location := location;
           evidence :=
             substring text (indexOf (toLowerCase text) (js "дегустац"))
               (Z.min (lengthZ text) (indexOf (toLowerCase text) (js "дегустац") + 50));
           suggestedFix :=
             Some (js "Используйте: " ++ dq ++ js "винный вечер" ++ dq ++ js ", " ++ dq
                     ++ js "вечер с винами" ++ dq ++ js ", " ++ dq ++ js "винное мероприятие" ++ dq) |} ]
    else []
  else [].

(** The window [text.substring(max(0, idx - 20), min(text.length, idx + 30))]
    around the first occurrence of [купи] in the lower-cased text. *)
Definition kupiContext (text : jsstring) : jsstring :=
  let lowerText := toLowerCase text in
  substring text
    (Z.max 0 (indexOf lowerText (js "купи") - 20))
    (Z.min (lengthZ text) (indexOf lowerText (js "купи") + 30)).

Definition kupitViolations (text location : jsstring) : list Violation :=
  let lowerText := toLowerCase text in
  if includes lowerText (js "купи") then
    let context := kupiContext text in
    if negb (test f_i vVinotek context) then
      [ {| code := js "FORBIDDEN_KUPIT";
           severity := ERROR;
           message := js "Слово " ++ dq ++ js "купить" ++ dq ++ js " запрещено, кроме "
                        ++ dq ++ js "купить в винотеке" ++ dq;
           location := location;
           evidence := context;
           suggestedFix :=
             Some (js "Используйте: " ++ dq ++ js "заказать" ++ dq ++ js ", " ++ dq
                     ++ js "выбрать" ++ dq ++ js ", " ++ dq ++ js "собрать корзину" ++ dq) |} ]
    else []
  else [].

Definition pokupkaViolations (text location : jsstring) : list Violation :=
  match exec f_i pokupkaPattern text with
  | Some m =>
      let startIdx := Z.of_nat (mstart m) in
      let context :=
        substring text (Z.max 0 (startIdx - 20)) (Z.min (lengthZ text) (startIdx + 40)) in
      if negb (test f_i vVinotek context) then
        [ {| code := js "FORBIDDEN_POKUPKA";
             severity := ERROR;
             message := js "Слова " ++ dq ++ js "покупка/покупать" ++ dq
                          ++ js " запрещены, кроме случаев с " ++ dq ++ js "в винотеке" ++ dq;
             location := location;
             evidence := context;
             suggestedFix := Some (js "Переформулируйте без использования слова "
                                     ++ dq ++ js "покупка" ++ dq) |} ]
      else []
  | None => []
  end.

Definition buketViolations (text location : jsstring) : list Violation :=
  if test f_i (Seq WordBoundary (Lit "букет")) text then
    [ {| code := js "FORBIDDEN_BUKET";
         severity := ERROR;
         message := js "Слово " ++ dq ++ js "букет" ++ dq ++ js " запрещено";
         location := location;
         evidence :=
           orElse (firstMatchText f_i (Seqs [Star notDot; Lit "букет"; Star notDot]) text)
                  (substring text 0 50);
         suggestedFix := Some (js "Замените на " ++ dq ++ js "профиль" ++ dq
                                 ++ js " или конкретные ароматы/вкусы") |} ]
  else [].

Definition poslevkusieViolations (text location : jsstring) : list Violation :=
  if test f_i (Lit "послевкус") text then
    [ {| code := js "FORBIDDEN_POSLEVKUSIE";
         severity := ERROR;
         message := js "Слово " ++ dq ++ js "послевкусие" ++ dq ++ js " запрещено";
         location := location;
         evidence :=
           orElse (firstMatchText f_i (Seqs [Star notDot; Lit "послевкус"; Star notDot]) text)
                  (substring text 0 50);
         suggestedFix := Some (js "Замените на " ++ dq ++ js "финиш" ++ dq) |} ]
  else [].

Definition checkForbiddenWords (text location : jsstring) : list Violation :=
  if negb (truthy text) then []
  else
    degustatsiyaViolations text location
    ++ kupitViolations text location
    ++ pokupkaViolations text location
    ++ buketViolations text location
    ++ poslevkusieViolations text location.

(** ** checkBannedCliches *)

(** Words separated by [\s+]. *)
Fixpoint Words (ws : list string) : regex :=
  match ws with
  | [] => Empty
  | [w] => Lit w
  | w :: ws' => Seq (Lit w) (Seq (Plus Space) (Words ws'))
  end.

Definition quoted (s : string) : jsstring := dq ++ js s ++ dq.

Definition stamp (s : string) : jsstring := js "Штамп: " ++ quoted s.

(** The table [bannedCliches]: pattern (all with the [i] flag) and message. *)
Definition bannedCliches : list (regex * jsstring) :=
  [ (Seq (Words ["с"; "характером"]%string)
         (NotAhead (Seqs [Plus Space; OneOf "—:"; AtLeast 3 Any])),
     quoted "с характером" ++ js " - запрещено без конкретного объяснения");
    (Words ["для"; "истинных"; "ценителей"; "и"; "особых"; "моментов"]%string,
     stamp "для истинных ценителей и особых моментов");
    (Words ["отличный"; "повод"]%string, stamp "отличный повод");
    (Words ["никого"; "не"; "оставит"; "равнодушным"]%string, stamp "Никого не оставит равнодушным");
    (Words ["икона"; "стиля"]%string, stamp "Икона стиля");
    (Seqs [Lit "лето"; Opt (Lit ","); Plus Space; Words ["которое"; "хочется"; "пить"]%string],
     stamp "Лето, которое хочется пить");
    (Words ["уютный"; "вечер"; "под"; "пледом"]%string, stamp "уютный вечер под пледом");
    (Words ["для"; "душевных"; "разговоров"]%string, stamp "Для душевных разговоров");
    (Words ["со"; "смыслом"]%string, stamp "со смыслом");
    (Seqs [Lit "больше"; Opt (Lit ","); Plus Space; Words ["чем"; "просто"; "вино"]%string],
     stamp "Больше, чем просто вино") ].

Definition clicheViolation (text location : jsstring) (cliche : regex * jsstring)
  : list Violation :=
  match exec f_i (fst cliche) text with
  | Some m =>
      [ {| code := js "BANNED_CLICHE";
           severity := ERROR;
           message := snd cliche;
           location := location;
           evidence := matched text m;
           suggestedFix := Some (js "Переформулируйте оригинально") |} ]
  | None => []
  end.

Definition checkBannedCliches (text location : jsstring) : list Violation :=
  if negb (truthy text) then []
  else flat_map (clicheViolation text location) bannedCliches.

(** ** checkGeographyLabels *)

Definition regions : list string :=
  [ "Пьемонт"; "Тоскан"; "Бордо"; "Бургунд"; "Испан"; "Италь"; "Франц";
    "Португал"; "Чили"; "Аргентин"; "Австрали"; "Новая Зеландия" ]%string.

(** The five [new RegExp(..., 'iu')] patterns built around a region name. *)
Definition forbiddenPatterns (region : string) : list regex :=
  [ Seqs [Group 1 (Alts [Seq (Lit "пробу") (OneOf "ем"); Seq (Lit "попробу") (OneOf "ем");
                         Seq (Lit "дегуст") (OneOf "ие")]);
          Plus Space; Lit region];
    Seqs [Lit "вечер"; Plus Space; Lit region];
    Seqs [Lit region; Plus Space; Lit "в"; Plus Space; Lit "бокале"];
    Seqs [Group 1 (Alts [Lit "немного"; Lit "глоток"; Lit "вкус"; Seq (Lit "капл") (OneOf "яа")]);
          Plus Space; Lit region];
    Seqs [Lit region;
          NotAhead (Seq (Between 0 40 Any) (Lit "вин"));
          NotAhead (Seqs [Between 0 10 Any; Group 1 (Alt (Lit "ск") (Lit "н")); OneOf "иоеа"]);
          Plus Space;
          Group 2 (Alts [Words ["на"; "столе"]%string; Words ["для"; "вас"]%string; Lit "ждет"])] ].

Definition geographyViolation (text location : jsstring) (region : string) (pattern : regex)
  : list Violation :=
  match exec f_iu pattern text with
  | Some m =>
      [ {| code := js "GEOGRAPHY_LABEL_MISUSE";
           severity := ERROR;
           message := js "Регион " ++ quoted region ++ js " используется как самостоятельный "
                        ++ quoted "ярлык" ++ js " без упоминания вина";
           location := location;
           evidence := matched text m;
           suggestedFix :=
             Some (js "Используйте: " ++ dq ++ js "вина " ++ js region ++ js "а" ++ dq
                     ++ js " или " ++ dq ++ toLowerCase (js region) ++ js "ские вина" ++ dq) |} ]
  | None => []
  end.

Definition checkGeographyLabels (text location : jsstring) : list Violation :=
  if negb (truthy text) then []
  else
    flat_map (fun region =>
                flat_map (geographyViolation text location region) (forbiddenPatterns region))
             regions.

(** ** checkCharLimit *)

Definition checkCharLimit (text : jsstring) (limit : nat) (location : jsstring)
  : list Violation :=
  if negb (truthy text) then []
  else
    let length := codePointLength text in
    if Nat.ltb limit length then
      [ {| code := js "CHAR_LIMIT_EXCEEDED";
           severity := ERROR;
           message := js "Превышен лимит символов: " ++ showNat length ++ js " > " ++ showNat limit;
           location := location;
           evidence := text;
           suggestedFix :=
             Some (js "Сократите на " ++ showNat (length - limit) ++ js " символов") |} ]
    else [].

(** ** checkEmojis *)

Definition f_u := {| ignoreCase := false; unicode := true |}.

Definition emojiPattern : regex :=
  Class false
    [ CRange 0x1F600 0x1F64F; CRange 0x1F300 0x1F5FF; CRange 0x1F680 0x1F6FF;
      CRange 0x1F700 0x1F77F; CRange 0x1F780 0x1F7FF; CRange 0x1F800 0x1F8FF;
      CRange 0x1F900 0x1F9FF; CRange 0x1FA00 0x1FA6F; CRange 0x1FA70 0x1FAFF;
      CRange 0x2600 0x26FF; CRange 0x2700 0x27BF ]%N.

Definition checkEmojis (text location : jsstring) : list Violation :=
  if negb (truthy text) then []
  else if test f_u emojiPattern text then
    [ {| code := js "EMOJI_FORBIDDEN";
         severity := ERROR;
         message := js "Эмодзи запрещены";
         location := location;
         evidence := text;
         suggestedFix := Some (js "Удалите все эмодзи") |} ]
  else [].

(** ** parseEmailOutput *)

Record Block := { title : list jsstring; text : jsstring; cta : list jsstring }.

Record Structure := {
  subject : list jsstring;
  preheader : list jsstring;
  bannerTitle : list jsstring;
  bannerSubtitle : list jsstring;
  introText : jsstring;
  introCTA : list jsstring;
  productHeading : list jsstring;
  blocks : list Block
}.

Definition emptyStructure : Structure :=
  {| subject := []; preheader := []; bannerTitle := []; bannerSubtitle := [];
     introText := []; introCTA := []; productHeading := []; blocks := [] |}.

(** The values [currentSection] takes. *)
Inductive Section :=
| SecSubject | SecPreheader | SecBanner | SecBannerTitle | SecBannerSubtitle
| SecIntro | SecIntroCTA | SecBlockTitle | SecBlockCTA.

Fixpoint updateNth {A} (n : nat) (f : A -> A) (l : list A) : list A :=
  match l, n with
  | [], _ => []
  | x :: l', O => f x :: l'
  | x :: l', S n' => x :: updateNth n' f l'
  end.

(** [pushVariants(structure, section, variants, currentBlock)].  [currentBlock]
    is a reference to an element of [structure.blocks]; it is modelled by that
    element's index, [None] standing for [null] or an omitted argument. *)
Definition pushVariants (structure : Structure) (section : option Section)
           (variants : list jsstring) (currentBlock : option nat) : Structure :=
  match section with
  | None => structure
  | Some SecSubject =>
      {| subject := subject structure ++ variants; preheader := preheader structure;
         bannerTitle := bannerTitle structure; bannerSubtitle := bannerSubtitle structure;
         introText := introText structure; introCTA := introCTA structure;
         productHeading := productHeading structure; blocks := blocks structure |}
  | Some SecPreheader =>
      {| subject := subject structure; preheader := preheader structure ++ variants;
         bannerTitle := bannerTitle structure; bannerSubtitle := bannerSubtitle structure;
         introText := introText structure; introCTA := introCTA structure;
         productHeading := productHeading structure; blocks := blocks structure |}
  | Some SecBannerTitle =>
      {| subject := subject structure; preheader := preheader structure;
         bannerTitle := bannerTitle structure ++ variants;
         bannerSubtitle := bannerSubtitle structure;
         introText := introText structure; introCTA := introCTA structure;
         productHeading := productHeading structure; blocks := blocks structure |}
  | Some SecBannerSubtitle =>
      {| subject := subject structure; preheader := preheader structure;
         bannerTitle := bannerTitle structure;
         bannerSubtitle := bannerSubtitle structure ++ variants;
         introText := introText structure; introCTA := introCTA structure;
         productHeading := productHeading structure; blocks := blocks structure |}
  | Some SecIntro =>
      {| subject := subject structure; preheader := preheader structure;
         bannerTitle := bannerTitle structure; bannerSubtitle := bannerSubtitle structure;
         introText := join space variants; introCTA := introCTA structure;
         productHeading := productHeading structure; blocks := blocks structure |}
  | Some SecIntroCTA =>
      {| subject := subject structure; preheader := preheader structure;
         bannerTitle := bannerTitle structure; bannerSubtitle := bannerSubtitle structure;
         introText := introText structure; introCTA := introCTA structure ++ variants;
         productHeading := productHeading structure; blocks := blocks structure |}
  | Some SecBlockTitle =>
      match currentBlock with
      | Some i =>
          {| subject := subject structure; preheader := preheader structure;
             bannerTitle := bannerTitle structure; bannerSubtitle := bannerSubtitle structure;
             introText := introText structure; introCTA := introCTA structure;
             productHeading := productHeading structure;
             blocks := updateNth i (fun b => {| title := title b ++ variants; text := text b;
                                                cta := cta b |}) (blocks structure) |}
      | None => structure
      end
  | Some SecBlockCTA =>
      match currentBlock with
      | Some i =>
          {| subject := subject structure; preheader := preheader structure;
             bannerTitle := bannerTitle structure; bannerSubtitle := bannerSubtitle structure;
             introText := introText structure; introCTA := introCTA structure;
             productHeading := productHeading structure;
             blocks := updateNth i (fun b => {| title := title b; text := text b;
                                                cta := cta b ++ variants |}) (blocks structure) |}
      | None => structure
      end
  | Some SecBanner => structure
  end.

(** The loop state of [parseEmailOutput]. *)
Record ParseState := {
  pStructure : Structure;
  currentSection : option Section;
  currentBlock : option nat;
  variantBuffer : list jsstring
}.

Definition nonEmpty {A} (l : list A) : bool := Nat.ltb 0 (List.length l).

(** The body shared by the header branches:
    [if (variantBuffer.length > 0) { pushVariants(...); variantBuffer = []; }
     currentSection = section; continue;]
    Only the block header and the final flush pass [currentBlock] on. *)
Definition enterSection (st : ParseState) (section : Section) (passBlock : bool) : ParseState :=
  {| pStructure :=
       if nonEmpty (variantBuffer st)
       then pushVariants (pStructure st) (currentSection st) (variantBuffer st)
                         (if passBlock then currentBlock st else None)
       else pStructure st;
     currentSection := Some section;
     currentBlock := currentBlock st;
     variantBuffer := [] |}.

(** [currentBlock = { title: [], text: '', cta: [] }; structure.blocks.push(currentBlock)] *)
Definition openBlock (st : ParseState) : ParseState :=
  let s := pStructure st in
  {| pStructure :=
       {| subject := subject s; preheader := preheader s; bannerTitle := bannerTitle s;
          bannerSubtitle := bannerSubtitle s; introText := introText s;
          introCTA := introCTA s; productHeading := productHeading s;
          blocks := blocks s ++ [ {| title := []; text := []; cta := [] |} ] |};
     currentSection := currentSection st;
     currentBlock := Some (List.length (blocks s));
     variantBuffer := variantBuffer st |}.

(** [/^\d+[.)\):]\s*/] *)
Definition numberedPrefix : regex := Seqs [Bol; Plus Digit; OneOf ".):"; Star Space].

(** The dash class written in the header patterns: em dash and hyphen. *)
Definition Dash : regex := OneOf "—-".

Definition headerSubject : regex := Seq Bol (Alts [Lit "ТЕМА"; Lit "Тема"; Lit "Subject"]).
Definition headerPreheader : regex :=
  Seq Bol (Alts [Lit "ПРЕХЕДЕР"; Lit "Прехедер"; Lit "Preheader"]).
Definition headerBanner : regex :=
  Seq Bol (Alts [Lit "ГЛАВНЫЙ БАННЕР"; Lit "Главный баннер"; Lit "Banner"]).
Definition headerBannerTitle : regex :=
  Seqs [Bol; Alts [Lit "Заголовок"; Lit "Title"; Lit "ЗАГОЛОВОК"];
        Opt (Seq (Plus Space) (Lit "баннера")); Star Space; Dash].
Definition headerBannerSubtitle : regex :=
  Seqs [Bol; Alts [Lit "Подзаголовок"; Lit "Subtitle"; Lit "ПОДЗАГОЛОВОК"];
        Opt (Seq (Plus Space) (Lit "баннера")); Star Space; Dash].
Definition headerIntro : regex :=
  Seq Bol (Alts [Lit "ВВОДНЫЙ ТЕКСТ"; Lit "Вводный текст"; Lit "Intro"]).
Definition headerCTA : regex :=
  Seqs [Bol; Alts [Lit "Кнопка"; Lit "CTA"; Lit "КТА"]; Star Space;
        Class false (map CChar (js ":" ++ [0xff1a%N] ++ js "—-"))].
Definition headerBlock : regex :=
  Seqs [Bol; Alts [Lit "БЛОК"; Lit "Блок"]; Plus Space; Plus Digit].

(** [/^(\d+[.)\-]|[-•*])\s+/] *)
Definition variantPrefix : regex :=
  Seqs [Bol; Alt (Seq (Plus Digit) (OneOf ".)-")) (OneOf "-•*"); Plus Space].

(** One iteration of the line loop. *)
Definition parseLine (st : ParseState) (rawLine : jsstring) : ParseState :=
  let line := trim rawLine in
  if negb (truthy line) then st
  else
    let lineNormalized := replaceFirst f_none numberedPrefix line [] in
    if test f_i headerSubject lineNormalized then enterSection st SecSubject false
    else if test f_i headerPreheader lineNormalized then enterSection st SecPreheader false
    else if test f_i headerBanner lineNormalized then enterSection st SecBanner false
    else if test f_i headerBannerTitle lineNormalized then enterSection st SecBannerTitle false
    else if test f_i headerBannerSubtitle lineNormalized
         then enterSection st SecBannerSubtitle false
    else if test f_i headerIntro lineNormalized then enterSection st SecIntro false
    else if test f_i headerCTA lineNormalized then enterSection st SecIntroCTA false
    else if test f_i headerBlock lineNormalized
         then openBlock (enterSection st SecBlockTitle true)
    else if test f_none variantPrefix line then
      {| pStructure := pStructure st;
         currentSection := currentSection st;
         currentBlock := currentBlock st;
         variantBuffer :=
           variantBuffer st ++ [trim (replaceFirst f_none variantPrefix line [])] |}
    else st.

Definition initialParseState : ParseState :=
  {| pStructure := emptyStructure; currentSection := None; currentBlock := None;
     variantBuffer := [] |}.

(** [parseEmailOutput]: [None] is the [null] returned for a falsy [output]. *)
Definition parseEmailOutput (output : jsstring) : option Structure :=
  if negb (truthy output) then None
  else
    let st := fold_left parseLine (splitOn 10 output) initialParseState in
    Some (if nonEmpty (variantBuffer st)
          then pushVariants (pStructure st) (currentSection st) (variantBuffer st)
                            (currentBlock st)
          else pStructure st).

(** ** validateEmail *)

Module VariantCounts.
Record t := {
  subject : nat; preheader : nat; bannerTitle : nat; bannerSubtitle : nat; introCTA : nat
}.
End VariantCounts.

(** The [spec] argument; only [spec.variantCounts] is read. *)
Record Spec := { variantCounts : option VariantCounts.t }.

Definition defaultVariantCounts : VariantCounts.t :=
  {| VariantCounts.subject := 3; VariantCounts.preheader := 3; VariantCounts.bannerTitle := 3;
     VariantCounts.bannerSubtitle := 3; VariantCounts.introCTA := 3 |}.

Record ValidationResult := {
  valid : bool;
  violations : list Violation;
  structure : option Structure
}.

Definition semi : jsstring := js "; ".

Definition variantCountViolation (what : string) (loc : string) (have : list jsstring)
           (required : nat) : list Violation :=
  if Nat.ltb (List.length have) required then
    [ {| code := js "VARIANT_COUNT_INSUFFICIENT";
         severity := ERROR;
         message := js "Недостаточно вариантов " ++ js what ++ js ": "
                      ++ showNat (List.length have) ++ js " < " ++ showNat required;
         location := js loc;
         evidence := join semi have;
         suggestedFix := None |} ]
  else [].

Definition variantCountViolations (s : Structure) (required : VariantCounts.t)
  : list Violation :=
  variantCountViolation "темы" "subject" (subject s) (VariantCounts.subject required)
  ++ variantCountViolation "прехедера" "preheader" (preheader s)
       (VariantCounts.preheader required)
  ++ variantCountViolation "заголовка баннера" "bannerTitle" (bannerTitle s)
       (VariantCounts.bannerTitle required).

(** The per-variant loops over subject, preheader, banner title and subtitle,
    then the intro text and its CTAs. *)
Definition fieldViolations (s : Structure) : list Violation :=
  flat_map (fun x =>
              checkCharLimit x 30 (js "subject") ++ checkEmojis x (js "subject")
              ++ checkForbiddenWords x (js "subject") ++ checkBannedCliches x (js "subject")
              ++ checkGeographyLabels x (js "subject")) (subject s)
  ++ flat_map (fun x =>
              checkCharLimit x 75 (js "preheader") ++ checkEmojis x (js "preheader")
              ++ checkForbiddenWords x (js "preheader") ++ checkBannedCliches x (js "preheader")
              ++ checkGeographyLabels x (js "preheader")) (preheader s)
  ++ flat_map (fun x =>
              checkEmojis x (js "bannerTitle") ++ checkForbiddenWords x (js "bannerTitle")
              ++ checkBannedCliches x (js "bannerTitle")
              ++ checkGeographyLabels x (js "bannerTitle")) (bannerTitle s)
  ++ flat_map (fun x =>
              checkEmojis x (js "bannerSubtitle") ++ checkForbiddenWords x (js "bannerSubtitle")
              ++ checkBannedCliches x (js "bannerSubtitle")
              ++ checkGeographyLabels x (js "bannerSubtitle")) (bannerSubtitle s)
  ++ checkForbiddenWords (introText s) (js "intro")
  ++ checkBannedCliches (introText s) (js "intro")
  ++ checkGeographyLabels (introText s) (js "intro")
  ++ flat_map (fun x => checkForbiddenWords x (js "introCTA")) (introCTA s).

(** [keyParts], in key order. *)
Definition keyParts (s : Structure) : list (jsstring * jsstring) :=
  [ (js "subject", join space (subject s));
    (js "preheader", join space (preheader s));
    (js "bannerTitle", join space (bannerTitle s));
    (js "bannerSubtitle", join space (bannerSubtitle s));
    (js "intro", introText s) ].

(** The index pairs [i < j] in the order the two nested loops visit them. *)
Fixpoint orderedPairs {A} (l : list A) : list (A * A) :=
  match l with
  | [] => []
  | x :: l' => map (pair x) l' ++ orderedPairs l'
  end.

Definition trigramViolation (p : (jsstring * jsstring) * (jsstring * jsstring))
  : list Violation :=
  let '((name1, text1), (name2, text2)) := p in
  let grams1 := extract3Grams text1 in
  let grams2 := extract3Grams text2 in
  let intersection := filter (setHas grams2) grams1 in
  if nonEmpty intersection then
    [ {| code := js "TRIGRAM_DUPLICATION";
         severity := ERROR;
         message := js "Дублирование 3+ слов между " ++ name1 ++ js " и " ++ name2;
         location := name1 ++ js " <-> " ++ name2;
         evidence := join semi (firstn 3 intersection);
         suggestedFix := Some (js "Переформулируйте один из фрагментов") |} ]
  else [].

Definition trigramViolations (s : Structure) : list Violation :=
  flat_map trigramViolation (orderedPairs (keyParts s)).

Definition exactEquality (xs ys : list jsstring) (msg loc : string) : list Violation :=
  flat_map (fun x =>
    flat_map (fun y =>
      if jsstring_eqb (trim x) (trim y) then
        [ {| code := js "EXACT_EQUALITY"; severity := ERROR; message := js msg;
             location := js loc; evidence := x; suggestedFix := None |} ]
      else []) ys) xs.

Definition exactEqualityViolations (s : Structure) : list Violation :=
  exactEquality (subject s) (bannerTitle s)
    "Тема не должна точно совпадать с заголовком баннера" "subject == bannerTitle"
  ++ exactEquality (preheader s) (bannerSubtitle s)
    "Прехедер не должен точно совпадать с подзаголовком баннера" "preheader == bannerSubtitle".

(** [/\n\n+|<br\s*\/?>/gi] *)
Definition paragraphBreak : regex :=
  Alt (Seqs [Chr 10; Chr 10; Star (Chr 10)])
      (Seqs [Lit "<br"; Star Space; Opt (Lit "/"); Lit ">"]).

Definition blockViolation (index : nat) (block : Block) : list Violation :=
  let blockNum := S index in
  let blockText := text block in
  let paragraphs :=
    filter (fun p => Nat.ltb 0 (List.length (trim p))) (splitBy f_i paragraphBreak blockText) in
  if Nat.ltb 2 (List.length paragraphs) then
    [ {| code := js "BLOCK_TOO_LONG";
         severity := WARNING;
         message := js "В блоке " ++ showNat blockNum ++ js " больше 2 абзацев (найдено: "
                      ++ showNat (List.length paragraphs) ++ js ")";
         location := js "blocks[" ++ showNat index ++ js "]";
         evidence := substring blockText 0 100
                       ++ (if Nat.ltb 100 (List.length blockText) then js "..." else []);
         suggestedFix :=
           Some (js "Сократите до 1-2 абзацев, сохранив только ключевые факты из FACTS/KEY_POINTS") |} ]
  else [].

Fixpoint forEachIndexed {A B} (f : nat -> A -> list B) (i : nat) (l : list A) : list B :=
  match l with
  | [] => []
  | x :: l' => f i x ++ forEachIndexed f (S i) l'
  end.

Definition blockViolations (s : Structure) : list Violation :=
  forEachIndexed blockViolation 0 (blocks s).

Definition servicePatterns : list regex :=
  [ Seq (Opt (Lit "[")) (Lit "CHECK");
    Seq (Opt (Lit "[")) (Lit "VALID");
    Lit "PREFLIGHT";
    Lit "violation";
    Lit "все правила соблюдены";
    Lit "проверка пройдена" ].

(** [/SWChecks_bot|@SWChecks_bot/i] *)
Definition botName : regex := Alt (Lit "SWChecks_bot") (Lit "@SWChecks_bot").

Definition serviceViolation (output : jsstring) (pattern : regex) : list Violation :=
  match exec f_i pattern output with
  | Some m =>
      let matchedText := matched output m in
      let matchIndex := Z.of_nat (mstart m) in
      let contextBefore := substring output (Z.max 0 (matchIndex - 10)) matchIndex in
      let contextAfter :=
        substring output matchIndex
          (Z.min (lengthZ output) (matchIndex + lengthZ matchedText + 10)) in
      let fullContext := contextBefore ++ contextAfter in
      if test f_i botName fullContext then []
      else
        [ {| code := js "SERVICE_PHRASE_DETECTED";
             severity := ERROR;
             message := js "Обнаружены служебные фразы или чеклисты в выводе";
             location := js "output";
             evidence := matchedText;
             suggestedFix :=
               Some (js "Удалите все служебные фразы, показывайте только контент") |} ]
  | None => []
  end.

Definition serviceViolations (output : jsstring) : list Violation :=
  flat_map (serviceViolation output) servicePatterns.

Definition parseFailed (output : jsstring) : Violation :=
  {| code := js "PARSE_FAILED";
     severity := ERROR;
     message := js "Не удалось распарсить структуру email";
     location := js "output";
     evidence := substring output 0 100;
     suggestedFix := None |}.

(** Everything [validateEmail] pushes once a structure has been parsed, in
    the order of the pushes. *)
Definition collectViolations (output : jsstring) (s : Structure) (spec : Spec)
  : list Violation :=
  let requiredVariants :=
    match variantCounts spec with Some vc => vc | None => defaultVariantCounts end in
  variantCountViolations s requiredVariants
  ++ fieldViolations s
  ++ trigramViolations s
  ++ exactEqualityViolations s
  ++ blockViolations s
  ++ serviceViolations output.

(** [validateEmail(output, parsedBrief, spec)]; [parsedBrief] is not read. *)
Definition validateEmail (output parsedBrief : jsstring) (spec : Spec) : ValidationResult :=
  match parseEmailOutput output with
  | None => {| valid := false; violations := [parseFailed output]; structure := None |}
  | Some s =>
      let violations := collectViolations output s spec in
      {| valid := Nat.eqb (List.length (filter isError violations)) 0;
         violations := violations;
         structure := Some s |}
  end.

End Validator.

(* ================================================================== *)
(** * validatorMultiformat.js                                           *)
(* ================================================================== *)

Module ValidatorMultiformat.

Import Validator.

(** [LIMITS] *)
Module LIMITS.
Definition push_title := 32%nat.
Definition push_subtitle := 60%nat.
Definition sms_text := 78%nat.
Definition yandex_maps_text_min := 150%nat.
Definition yandex_maps_text_max := 300%nat.
Definition onboarding_title := 40%nat.
Definition onboarding_subtitle := 60%nat.
Definition landing_page_title := 47%nat.
Definition landing_page_description := 428%nat.
Definition landing_page_description_recommended := 375%nat.
Definition tabs_text_min := 250%nat.
Definition tabs_text_max := 500%nat.
Definition tabs_text_optimal_min := 350%nat.
Definition tabs_text_optimal_max := 400%nat.
Definition sticky_banner_text := 50%nat.
Definition sticky_banner_timer_text := 58%nat.
Definition ticker_text := 40%nat.
End LIMITS.

Definition SMS_FORBIDDEN_ALCOHOL : list jsstring :=
  map js [ "вино"; "вина"; "вином"; "вину"; "алкогол"; "игрист"; "крепк"; "шампан";
           "коньяк"; "виски"; "водк"; "текил"; "ром"; "красн"; "бел"; "просекко"; "кава" ]%string.

(** A parsed variant object: [number] is always set, the other properties are
    [undefined] until a matching line is seen. *)
Record Variant := {
  number : N;
  title : option jsstring;
  subtitle : option jsstring;
  text : option jsstring;
  description : option jsstring;
  button : option jsstring
}.

(** The keys of [sections]. *)
Inductive SectionName :=
| push_announce | push_reminder | push_last_call
| sms_announce | sms_reminder | sms_last_call
| yandex_maps | onboarding | landing_page | tabs
| sticky_banner | sticky_banner_timer | ticker.

Definition SectionName_eqb (a b : SectionName) : bool :=
  match a, b with
  | push_announce, push_announce | push_reminder, push_reminder
  | push_last_call, push_last_call | sms_announce, sms_announce
  | sms_reminder, sms_reminder | sms_last_call, sms_last_call
  | yandex_maps, yandex_maps | onboarding, onboarding | landing_page, landing_page
  | tabs, tabs | sticky_banner, sticky_banner
  | sticky_banner_timer, sticky_banner_timer | ticker, ticker => true
  | _, _ => false
  end.

Definition sectionKey (s : SectionName) : jsstring :=
  match s with
  | push_announce => js "push_announce" | push_reminder => js "push_reminder"
  | push_last_call => js "push_last_call" | sms_announce => js "sms_announce"
  | sms_reminder => js "sms_reminder" | sms_last_call => js "sms_last_call"
  | yandex_maps => js "yandex_maps" | onboarding => js "onboarding"
  | landing_page => js "landing_page" | tabs => js "tabs"
  | sticky_banner => js "sticky_banner" | sticky_banner_timer => js "sticky_banner_timer"
  | ticker => js "ticker"
  end.

(** The [sections] object: one array of variants per key. *)
Definition Sections := SectionName -> list Variant.

Definition emptySections : Sections := fun _ => [].

Definition setSection (sections : Sections) (k : SectionName) (vs : list Variant) : Sections :=
  fun k' => if SectionName_eqb k' k then vs else sections k'.

(** ** parseGeneratedContent *)

(** [[—–-]] *)
Definition AnyDash : regex := OneOf "—–-".

Definition S0 : regex := Star Space.

(** The section-header patterns, in the order of the [if / else if] chain. *)
Definition sectionHeaders : list (regex * SectionName) :=
  [ (Seqs [Lit "1.1."; S0; Lit "ПУШ"; S0; AnyDash; S0; Lit "АНОНС"], push_announce);
    (Seqs [Lit "1.2."; S0; Lit "ПУШ"; S0; AnyDash; S0; Lit "НАПОМИНАНИЕ"], push_reminder);
    (Seqs [Lit "1.3."; S0; Lit "ПУШ"; S0; AnyDash; S0; Lit "ПОСЛЕДНИЙ"; S0; Lit "ЗВОНОК"],
     push_last_call);
    (Seqs [Lit "2.1."; S0; Lit "СМС"; S0; AnyDash; S0; Lit "АНОНС"], sms_announce);
    (Seqs [Lit "2.2."; S0; Lit "СМС"; S0; AnyDash; S0; Lit "НАПОМИНАНИЕ"], sms_reminder);
    (Seqs [Lit "2.3."; S0; Lit "СМС"; S0; AnyDash; S0; Lit "ПОСЛЕДНИЙ"; S0; Lit "ЗВОНОК"],
     sms_last_call);
    (Seqs [Lit "3.1."; S0; Lit "ЯНДЕКС"; S0; Lit "КАРТЫ"], yandex_maps);
    (Seqs [Lit "3.2."; S0; Lit "ОНБОРДИНГ"], onboarding);
    (Seqs [Lit "3.3."; S0; Lit "ТЕКСТ"; S0; Lit "НА"; S0; Lit "LP"], landing_page);
    (Seqs [Lit "3.4."; S0; Lit "ТАБЫ"], tabs);
    (Seqs [Lit "3.5."; S0; Lit "СТИКИ-БАННЕР"; S0; Lit "БЕЗ"; S0; Lit "ТАЙМЕРА"], sticky_banner);
    (Seqs [Lit "3.6."; S0; Lit "СТИКИ-БАННЕР"; S0; Lit "С"; S0; Lit "ТАЙМЕРОМ"],
     sticky_banner_timer);
    (Seqs [Lit "3.7."; S0; Lit "БЕГУЩАЯ"; S0; Lit "СТРОКА"], ticker) ].

Definition detectSection (trimmed : jsstring) : option SectionName :=
  option_map snd (find (fun h => test f_i (fst h) trimmed) sectionHeaders).

(** [/^-?\s*Вариант\s*(\d+)/i] *)
Definition variantStart : regex :=
  Seqs [Bol; Opt (Lit "-"); S0; Lit "Вариант"; S0; Group 1 (Plus Digit)].

(** [/^-?\s*Вариант\s*\d+:\s*(.+)/i] *)
Definition variantSingleLine : regex :=
  Seqs [Bol; Opt (Lit "-"); S0; Lit "Вариант"; S0; Plus Digit; Lit ":"; S0;
        Group 1 (Plus Any)].

(** [/label:\s*(.+)/i] *)
Definition fieldLine (label : string) : regex :=
  Seqs [Lit label; Lit ":"; S0; Group 1 (Plus Any)].

(** [match[1].trim()] of a pattern with one group, when it matches. *)
Definition capture1 (r : regex) (s : jsstring) : option jsstring :=
  match exec f_i r s with
  | Some m => option_map trim (group s m 1)
  | None => None
  end.

(** [parseInt] of a run of decimal digits. *)
Definition parseInt (digits : jsstring) : N :=
  fold_left (fun acc d => acc * 10 + (d - 48))%N digits 0%N.

Definition orKeep (new old : option jsstring) : option jsstring :=
  match new with Some _ => new | None => old end.

(** The assignments made on [currentVariant] for one line. *)
Definition updateVariant (section : SectionName) (trimmed : jsstring) (v : Variant) : Variant :=
  let titleMatch := capture1 (fieldLine "Заголовок") trimmed in
  let subtitleMatch := capture1 (fieldLine "Подзаголовок") trimmed in
  let textMatch := capture1 (fieldLine "Текст") trimmed in
  let descMatch := capture1 (fieldLine "Описание") trimmed in
  let buttonMatch := capture1 (fieldLine "Кнопка") trimmed in
  let text1 := orKeep textMatch (text v) in
  let isSms :=
    match section with sms_announce | sms_reminder | sms_last_call => true | _ => false end in
  let noText := match textMatch with None => true | Some _ => false end in
  let text2 :=
    if isSms && noText then orKeep (capture1 variantSingleLine trimmed) text1 else text1 in
  let isSingle :=
    match section with ticker | sticky_banner | sticky_banner_timer => true | _ => false end in
  let text3 :=
    if isSingle && noText then orKeep (capture1 variantSingleLine trimmed) text2 else text2 in
  {| number := number v;
     title := orKeep titleMatch (title v);
     subtitle := orKeep subtitleMatch (subtitle v);
     text := text3;
     description := orKeep descMatch (description v);
     button := orKeep buttonMatch (button v) |}.

(** Loop state.  [currentVariant] is a reference to an object stored in one of
    the arrays of [sections]; it is modelled by the key and index of that
    element, so that a later assignment updates the stored object. *)
Record ParseState := {
  sections : Sections;
  currentSection : option SectionName;
  currentVariant : option (SectionName * nat)
}.

Definition parseLine (st : ParseState) (line : jsstring) : ParseState :=
  let trimmed := trim line in
  let currentSection' :=
    match detectSection trimmed with
    | Some s => Some s
    | None => currentSection st
    end in
  match currentSection' with
  | Some section =>
      if truthy trimmed then
        let '(sections1, currentVariant1) :=
          match exec f_i variantStart trimmed with
          | Some m =>
              let v := {| number := parseInt (match group trimmed m 1 with
                                              | Some d => d | None => [] end);
                          title := None; subtitle := None; text := None;
                          description := None; button := None |} in
              (setSection (sections st) section (sections st section ++ [v]),
               Some (section, List.length (sections st section)))
          | None => (sections st, currentVariant st)
          end in
        match currentVariant1 with
        | Some (owner, idx) =>
            {| sections :=
                 setSection sections1 owner
                   (updateNth idx (updateVariant section trimmed) (sections1 owner));
               currentSection := currentSection';
               currentVariant := currentVariant1 |}
        | None =>
            {| sections := sections1; currentSection := currentSection';
               currentVariant := currentVariant1 |}
        end
      else {| sections := sections st; currentSection := currentSection';
              currentVariant := currentVariant st |}
  | None => {| sections := sections st; currentSection := currentSection';
               currentVariant := currentVariant st |}
  end.

Definition parseGeneratedContent (content : jsstring) : Sections :=
  sections (fold_left parseLine (splitOn 10 content)
              {| sections := emptySections; currentSection := None; currentVariant := None |}).

(** ** The checks

    Every check receives the [violations] array and the [stats] object and
    mutates both; here they are threaded through as one accumulator. *)

Record Stats := { totalChecks : nat; errors : nat; warnings : nat }.

Record Acc := { violations : list Violation; stats : Stats }.

(** [violations.push(v)] *)
Definition push (v : Violation) (a : Acc) : Acc :=
  {| violations := violations a ++ [v]; stats := stats a |}.

(** [stats.totalChecks++], [stats.errors++], [stats.warnings++] *)
Definition incChecks (a : Acc) : Acc :=
  {| violations := violations a;
     stats := {| totalChecks := S (totalChecks (stats a)); errors := errors (stats a);
                 warnings := warnings (stats a) |} |}.
Definition incErrors (a : Acc) : Acc :=
  {| violations := violations a;
     stats := {| totalChecks := totalChecks (stats a); errors := S (errors (stats a));
                 warnings := warnings (stats a) |} |}.
Definition incWarnings (a : Acc) : Acc :=
  {| violations := violations a;
     stats := {| totalChecks := totalChecks (stats a); errors := errors (stats a);
                 warnings := S (warnings (stats a)) |} |}.

(** [arr.forEach((variant, idx) => ...)] acting on the accumulator. *)
Fixpoint forEach {A} (f : A -> nat -> Acc -> Acc) (idx : nat) (l : list A) (a : Acc) : Acc :=
  match l with
  | [] => a
  | x :: l' => forEach f (S idx) l' (f x idx a)
  end.

Definition mk (c : string) (sev : Severity) (msg loc ev : jsstring) (fix_ : option jsstring)
  : Violation :=
  {| code := js c; severity := sev; message := msg; location := loc; evidence := ev;
     suggestedFix := fix_ |}.

(** [`${section} вариант ${variant.number || idx + 1}`] *)
Definition variantLocation (section : jsstring) (variant : Variant) (idx : nat) : jsstring :=
  section ++ js " вариант "
  ++ showN (if N.eqb (number variant) 0 then N.of_nat (idx + 1) else number variant).

(** [`"${s}" (${s.length} символов)`] *)
Definition quotedLength (s : jsstring) : jsstring :=
  dq ++ s ++ dq ++ js " (" ++ showNat (List.length s) ++ js " символов)".

(** [x && x.length > limit]; [.length] counts UTF-16 code units. *)
Definition overLimit (x : option jsstring) (limit : nat) : option jsstring :=
  match x with
  | Some s => if truthy s && Nat.ltb limit (List.length s) then Some s else None
  | None => None
  end.

(** [variant.text || ''] *)
Definition orEmpty (x : option jsstring) : jsstring :=
  match x with Some s => s | None => [] end.

Definition when (c : bool) (f : Acc -> Acc) (a : Acc) : Acc := if c then f a else a.

Definition checkPush (section : SectionName) (variant : Variant) (idx : nat) (a : Acc) : Acc :=
  let a1 := incChecks a in
  let a2 :=
    match overLimit (title variant) LIMITS.push_title with
    | Some t =>
        incErrors (push (mk "PUSH_TITLE_OVERLIMIT" ERROR
          (js "Пуш заголовок превышает лимит " ++ showNat LIMITS.push_title ++ js " символов")
          (variantLocation (sectionKey section) variant idx)
          (quotedLength t)
          (Some (js "Сократите до " ++ showNat LIMITS.push_title ++ js " символов"))) a1)
    | None => a1
    end in
  let a3 := incChecks a2 in
  match overLimit (subtitle variant) LIMITS.push_subtitle with
  | Some t =>
      incErrors (push (mk "PUSH_SUBTITLE_OVERLIMIT" ERROR
        (js "Пуш подзаголовок превышает лимит " ++ showNat LIMITS.push_subtitle ++ js " символов")
        (variantLocation (sectionKey section) variant idx)
        (quotedLength t)
        (Some (js "Сократите до " ++ showNat LIMITS.push_subtitle ++ js " символов"))) a3)
  | None => a3
  end.

Definition checkSms (section : SectionName) (variant : Variant) (idx : nat) (a : Acc) : Acc :=
  let a1 := incChecks a in
  match overLimit (text variant) LIMITS.sms_text with
  | Some t =>
      incErrors (push (mk "SMS_TEXT_OVERLIMIT" ERROR
        (js "SMS текст превышает лимит " ++ showNat LIMITS.sms_text
           ++ js " символов (без учёта " ++ quoted "по карте №12345" ++ js ")")
        (variantLocation (sectionKey section) variant idx)
        (quotedLength t)
        (Some (js "Сократите до " ++ showNat LIMITS.sms_text ++ js " символов"))) a1)
  | None => a1
  end.

Definition checkYandex (variant : Variant) (idx : nat) (a : Acc) : Acc :=
  let a1 := incChecks a in
  let t := orEmpty (text variant) in
  let a2 :=
    when (Nat.ltb (List.length t) LIMITS.yandex_maps_text_min)
      (fun a => incWarnings (push (mk "YANDEX_TEXT_UNDERLIMIT" WARNING
         (js "Яндекс Карты текст меньше минимума " ++ showNat LIMITS.yandex_maps_text_min
            ++ js " символов")
         (variantLocation (js "yandex_maps") variant idx)
         (quotedLength t) None) a)) a1 in
  when (Nat.ltb LIMITS.yandex_maps_text_max (List.length t))
    (fun a => incErrors (push (mk "YANDEX_TEXT_OVERLIMIT" ERROR
       (js "Яндекс Карты текст превышает лимит " ++ showNat LIMITS.yandex_maps_text_max
          ++ js " символов")
       (variantLocation (js "yandex_maps") variant idx)
       (quotedLength t) None) a)) a2.

Definition checkOnboarding (variant : Variant) (idx : nat) (a : Acc) : Acc :=
  let a1 := incChecks a in
  let a2 :=
    match overLimit (title variant) LIMITS.onboarding_title with
    | Some t =>
        incErrors (push (mk "ONBOARDING_TITLE_OVERLIMIT" ERROR
          (js "Онбординг заголовок превышает лимит " ++ showNat LIMITS.onboarding_title
             ++ js " символов")
          (variantLocation (js "onboarding") variant idx)
          (quotedLength t) None) a1)
    | None => a1
    end in
  match overLimit (subtitle variant) LIMITS.onboarding_subtitle with
  | Some t =>
      incErrors (push (mk "ONBOARDING_SUBTITLE_OVERLIMIT" ERROR
        (js "Онбординг подзаголовок превышает лимит " ++ showNat LIMITS.onboarding_subtitle
           ++ js " символов")
        (variantLocation (js "onboarding") variant idx)
        (quotedLength t) None) a2)
  | None => a2
  end.

Definition lengthOnly (s : jsstring) : jsstring :=
  js "(" ++ showNat (List.length s) ++ js " символов)".

Definition checkLanding (variant : Variant) (idx : nat) (a : Acc) : Acc :=
  let a1 := incChecks a in
  let a2 :=
    match overLimit (title variant) LIMITS.landing_page_title with
    | Some t =>
        incErrors (push (mk "LP_TITLE_OVERLIMIT" ERROR
          (js "LP заголовок превышает лимит " ++ showNat LIMITS.landing_page_title
             ++ js " символов")
          (variantLocation (js "landing_page") variant idx)
          (quotedLength t) None) a1)
    | None => a1
    end in
  match overLimit (description variant) LIMITS.landing_page_description with
  | Some d =>
      incErrors (push (mk "LP_DESC_OVERLIMIT" ERROR
        (js "LP описание превышает лимит " ++ showNat LIMITS.landing_page_description
           ++ js " символов")
        (variantLocation (js "landing_page") variant idx)
        (lengthOnly d) None) a2)
  | None =>
      match overLimit (description variant) LIMITS.landing_page_description_recommended with
      | Some d =>
          incWarnings (push (mk "LP_DESC_OVER_RECOMMENDED" WARNING
            (js "LP описание превышает рекомендуемые "
               ++ showNat LIMITS.landing_page_description_recommended ++ js " символов")
            (variantLocation (js "landing_page") variant idx)
            (lengthOnly d) None) a2)
      | None => a2
      end
  end.

(** The three loops over sticky banners and the ticker have one shape. *)
Definition checkTextMax (c : string) (msg : jsstring) (key : string) (limit : nat)
           (variant : Variant) (idx : nat) (a : Acc) : Acc :=
  let a1 := incChecks a in
  let t := orEmpty (text variant) in
  when (Nat.ltb limit (List.length t))
    (fun a => incErrors (push (mk c ERROR msg (variantLocation (js key) variant idx)
                                  (quotedLength t) None) a)) a1.

Definition pushSections : list SectionName := [push_announce; push_reminder; push_last_call].
Definition smsSections : list SectionName := [sms_announce; sms_reminder; sms_last_call].

Definition checkLengthLimits (sections : Sections) (a : Acc) : Acc :=
  let a1 := fold_left (fun a section => forEach (checkPush section) 0 (sections section) a)
                      pushSections a in
  let a2 := fold_left (fun a section => forEach (checkSms section) 0 (sections section) a)
                      smsSections a1 in
  let a3 := forEach checkYandex 0 (sections yandex_maps) a2 in
  let a4 := forEach checkOnboarding 0 (sections onboarding) a3 in
  let a5 := forEach checkLanding 0 (sections landing_page) a4 in
  let a6 := forEach (checkTextMax "STICKY_TEXT_OVERLIMIT"
                       (js "Стики-баннер текст превышает лимит "
                          ++ showNat LIMITS.sticky_banner_text ++ js " символов")
                       "sticky_banner" LIMITS.sticky_banner_text)
                    0 (sections sticky_banner) a5 in
  let a7 := forEach (checkTextMax "STICKY_TIMER_TEXT_OVERLIMIT"
                       (js "Стики-баннер с таймером превышает лимит "
                          ++ showNat LIMITS.sticky_banner_timer_text ++ js " символов")
                       "sticky_banner_timer" LIMITS.sticky_banner_timer_text)
                    0 (sections sticky_banner_timer) a6 in
  forEach (checkTextMax "TICKER_TEXT_OVERLIMIT"
             (js "Бегущая строка превышает лимит " ++ showNat LIMITS.ticker_text
                ++ js " символов")
             "ticker" LIMITS.ticker_text)
          0 (sections ticker) a7.

(** ** checkSMSAlcoholRestrictions *)

Definition checkSmsAlcohol (section : SectionName) (variant : Variant) (idx : nat) (a : Acc)
  : Acc :=
  let a1 := incChecks a in
  let t := toLowerCase (orEmpty (text variant)) in
  match find (fun word => includes t word) SMS_FORBIDDEN_ALCOHOL with
  | Some word =>
      incErrors (push (mk "SMS_ALCOHOL_MENTION" ERROR
        (js "SMS содержит упоминание алкоголя (" ++ dq ++ word ++ dq ++ js ")")
        (variantLocation (sectionKey section) variant idx)
        (orEmpty (text variant))
        (Some (js "Используйте: " ++ quoted "коллекция" ++ js ", " ++ quoted "ассортимент"
                 ++ js ", " ++ quoted "хиты" ++ js ", " ++ quoted "подборка" ++ js ", "
                 ++ quoted "выгода"))) a1)
  | None => a1
  end.

Definition checkSMSAlcoholRestrictions (sections : Sections) (a : Acc) : Acc :=
  fold_left (fun a section => forEach (checkSmsAlcohol section) 0 (sections section) a)
            smsSections a.

(** ** checkStickyTimerFormat *)

Definition checkStickyTimer (variant : Variant) (idx : nat) (a : Acc) : Acc :=
  let a1 := incChecks a in
  let t := orEmpty (text variant) in
  when (negb (includes t (js "[таймер]")) && negb (includes t (js "[timer]")))
    (fun a => incErrors (push (mk "STICKY_TIMER_MISSING_TAG" ERROR
       (js "Стики-баннер с таймером должен заканчиваться на [таймер]")
       (variantLocation (js "sticky_banner_timer") variant idx)
       t
       (Some (js "Добавьте [таймер] в конец текста"))) a)) a1.

Definition checkStickyTimerFormat (sections : Sections) (a : Acc) : Acc :=
  forEach checkStickyTimer 0 (sections sticky_banner_timer) a.

(** ** checkAbbreviations *)

(** [abbreviationPatterns]; every pattern starts with [\b]. *)
Definition abbreviationPatterns : list regex :=
  map (fun s => Seq WordBoundary (Lit s))
      [ "т.к."; "т.е."; "и т.д."; "и т.п."; "др."; "г."; "руб."; "тыс."; "млн." ]%string.

Definition checkAbbreviation (content : jsstring) (a : Acc) (pattern : regex) : Acc :=
  match matchG f_i pattern content with
  | Some (m0 :: _) =>
      incWarnings (push (mk "ABBREVIATED_WORD" WARNING
        (js "Найдено сокращённое слово: " ++ dq ++ m0 ++ dq)
        (js "Общий текст")
        m0
        (Some (js "Запрещено сокращать слова"))) a)
  | _ => a
  end.

Definition checkAbbreviations (content : jsstring) (a : Acc) : Acc :=
  fold_left (checkAbbreviation content) abbreviationPatterns (incChecks a).

(** ** checkForbiddenNapitok *)

Definition checkForbiddenNapitok (content : jsstring) (a : Acc) : Acc :=
  let a1 := incChecks a in
  when (test f_i (Seqs [Lit "напит"; OneOf "оа"; Lit "к"]) content)
    (fun a => incErrors (push (mk "FORBIDDEN_NAPITOK" ERROR
       (js "Слово " ++ quoted "напиток" ++ js " запрещено")
       (js "Общий текст")
       (orElse (firstMatchText f_i
                  (Seqs [Lit "напит"; OneOf "оа"; Lit "к";
                         Star (Class false [CRange 1072 1103; CChar 1105]%N)]) content)
               (js "напиток"))
       (Some (js "Используйте конкретные названия: вино, игристое, коньяк"))) a)) a1.

(** ** checkCTARules *)

Definition checkCTARules (content : jsstring) (a : Acc) : Acc :=
  let a1 := incChecks a in
  let lowerContent := toLowerCase content in
  if test f_none (Seq WordBoundary (Lit "купи")) lowerContent then
    when (negb (test f_i (Seqs [Lit "купит"; Opt (Lit "ь"); Plus Space; Lit "в"; Plus Space;
                                Lit "винотек"]) content))
      (fun a => incErrors (push (mk "FORBIDDEN_KUPIT_CTA" ERROR
         (js "CTA " ++ quoted "купить" ++ js " запрещён (кроме " ++ quoted "купить в винотеке"
            ++ js ")")
         (js "Общий текст")
         (orElse (firstMatchText f_i
                    (Seqs [Lit "купи"; Opt (OneOf "тьа"); Star (Class true [CSpace])]) content)
                 (js "купить"))
         (Some (js "Используйте: " ++ quoted "Заказать" ++ js ", " ++ quoted "Выбрать"
                  ++ js ", " ++ quoted "Открыть"))) a)) a1
  else a1.

(** ** checkMessageConsistency *)

(** [/-?\d{1,2}%/g] *)
Definition discountPattern : regex := Seqs [Opt (Lit "-"); Between 1 2 Digit; Lit "%"].

(** [[a, b, c, d].filter(Boolean)] *)
Definition filterBoolean (l : list (option jsstring)) : list jsstring :=
  flat_map (fun x => match x with Some s => if truthy s then [s] else [] | None => [] end) l.

(** [m.replace('-', '')]: the first hyphen only. *)
Fixpoint dropFirstHyphen (s : jsstring) : jsstring :=
  match s with
  | [] => []
  | c :: s' => if N.eqb c 45 then s' else c :: dropFirstHyphen s'
  end.

Definition collectDiscounts (found : list jsstring) (variant : Variant) : list jsstring :=
  let t := join space (filterBoolean [title variant; subtitle variant; text variant;
                                      description variant]) in
  match matchG f_none discountPattern t with
  | Some matches => fold_left (fun set m => setAdd (dropFirstHyphen m) set) matches found
  | None => found
  end.

Definition comma : jsstring := js ", ".

Definition checkMessageConsistency (sections : Sections) (a : Acc) : Acc :=
  let a1 := incChecks a in
  let allVariants :=
    sections push_announce ++ sections push_reminder ++ sections push_last_call
    ++ sections sms_announce ++ sections sms_reminder ++ sections sms_last_call
    ++ sections onboarding ++ sections landing_page ++ sections ticker
    ++ sections sticky_banner ++ sections sticky_banner_timer in
  let foundDiscounts := fold_left collectDiscounts allVariants [] in
  when (Nat.ltb 2 (List.length foundDiscounts))
    (fun a => incWarnings (push (mk "INCONSISTENT_DISCOUNTS" WARNING
       (js "Найдены разные значения скидок: " ++ join comma foundDiscounts)
       (js "Все форматы")
       (join comma foundDiscounts)
       (Some (js "Убедитесь, что цифры скидок идентичны во всех форматах"))) a)) a1.

(** ** validateMultiformat *)

Record Result := {
  isValid : bool;
  resultViolations : list Violation;
  resultStats : Stats
}.

Definition runChecks (generatedContent : jsstring) : Acc :=
  let sections := parseGeneratedContent generatedContent in
  let a0 := {| violations := [];
               stats := {| totalChecks := 0; errors := 0; warnings := 0 |} |} in
  let a1 := checkLengthLimits sections a0 in
  let a2 := checkSMSAlcoholRestrictions sections a1 in
  let a3 := checkStickyTimerFormat sections a2 in
  let a4 := checkAbbreviations generatedContent a3 in
  let a5 := checkForbiddenNapitok generatedContent a4 in
  let a6 := checkCTARules generatedContent a5 in
  checkMessageConsistency sections a6.

(** [validateMultiformat(generatedContent, parsedBrief)]; the brief is handed to
    [checkMessageConsistency], which does not read it. *)
Definition validateMultiformat {Brief : Type} (generatedContent : jsstring)
           (parsedBrief : Brief) : Result :=
  let a := runChecks generatedContent in
  {| isValid := Nat.eqb (errors (stats a)) 0;
     resultViolations := violations a;
     resultStats := stats a |}.

End ValidatorMultiformat.

(* ================================================================== *)
(** * surgicalRepair.js                                                 *)
(* ================================================================== *)

Module SurgicalRepair.

Import Validator.

Record RepairScope := { field : jsstring; requiresFullContext : bool }.

Definition fullContextCodes : list jsstring :=
  [ js "EXACT_EQUALITY"; js "TRIGRAM_DUPLICATION"; js "CROSS_FIELD_SIMILARITY" ].

Definition validLocations : list jsstring :=
  [ js "subject"; js "preheader"; js "bannerTitle"; js "bannerSubtitle"; js "body"; js "cta" ].

(** [arr.includes(x)] on an array of strings. *)
Definition arrayIncludes (arr : list jsstring) (x : jsstring) : bool :=
  existsb (jsstring_eqb x) arr.

Definition determineRepairScope (violation : Violation) : RepairScope :=
  if arrayIncludes fullContextCodes (code violation) then
    {| field := js "all"; requiresFullContext := true |}
  else if arrayIncludes validLocations (location violation) then
    {| field := location violation; requiresFullContext := false |}
  else
    {| field := js "all"; requiresFullContext := true |}.

(** [/NAME\s*[—\-—]\s*\d+\s*вариант[аов]?/i] *)
Definition variantsHeader (name : string) : regex :=
  Seqs [Lit name; Star Space; Dash; Star Space; Plus Digit; Star Space; Lit "вариант";
        Opt (OneOf "аов")].

(** The object [sectionPatterns], as its own keys in order.  A lookup of any
    other name is taken to give [undefined]. *)
Definition sectionPatterns : list (jsstring * regex) :=
  [ (js "subject", variantsHeader "ТЕМА");
    (js "preheader", variantsHeader "ПРЕХЕДЕР");
    (js "bannerTitle",
     Seqs [Alts [Lit "ЗАГОЛОВОК"; Lit "Title"; Lit "ЗАГОЛОВОК БАННЕРА"]; Star Space; Dash]);
    (js "bannerSubtitle",
     Seqs [Alts [Lit "ПОДЗАГОЛОВОК"; Lit "Subtitle"; Lit "ПОДЗАГОЛОВОК БАННЕРА"];
           Star Space; Dash]);
    (js "body", Seqs [Lit "ТЕЛО"; Star Space; Lit "ПИСЬМА"]);
    (js "cta", Lit "CTA") ].

Definition lookupPattern (fieldName : jsstring) : option regex :=
  option_map snd (find (fun kv => jsstring_eqb (fst kv) fieldName) sectionPatterns).

(** [/^(ТЕМА|ПРЕХЕДЕР|ЗАГОЛОВОК|ПОДЗАГОЛОВОК|ТЕЛО|CTA)\s*[—\-—]/i] *)
Definition newSectionPattern : regex :=
  Seqs [Bol;
        Alts [Lit "ТЕМА"; Lit "ПРЕХЕДЕР"; Lit "ЗАГОЛОВОК"; Lit "ПОДЗАГОЛОВОК"; Lit "ТЕЛО";
              Lit "CTA"];
        Star Space; Dash].

Definition isNewSection (line : jsstring) : bool := test f_i newSectionPattern line.

Definition newline : jsstring := [10%N].

(** ** extractField *)

(** The [for] loop of [extractField]: [inSection] and the lines collected so far. *)
Fixpoint extractLoop (pattern : regex) (lines : list jsstring) (inSection : bool)
         (extractedLines : list jsstring) : list jsstring :=
  match lines with
  | [] => extractedLines
  | l :: rest =>
      let line := trim l in
      if negb inSection && test f_i pattern line
      then extractLoop pattern rest true (extractedLines ++ [line])
      else if inSection then
        if isNewSection line then extractedLines
        else extractLoop pattern rest inSection (extractedLines ++ [line])
      else extractLoop pattern rest inSection extractedLines
  end.

Definition extractField (output fieldName : jsstring) : option jsstring :=
  match lookupPattern fieldName with
  | None => None
  | Some pattern =>
      let extractedLines := extractLoop pattern (splitOn 10 output) false [] in
      if Nat.eqb (List.length extractedLines) 0 then None
      else Some (trim (join newline extractedLines))
  end.

(** ** replaceField *)

(** The variables of the boundary search; -1 is "not found". *)
Record Bounds := { inSection : bool; sectionStart : Z; sectionEnd : Z }.

(** The [for] loop that finds the section boundaries; [i] is the index of the
    head of [lines]. *)
Fixpoint findBounds (pattern : regex) (lines : list jsstring) (i : Z) (b : Bounds) : Bounds :=
  match lines with
  | [] => b
  | l :: rest =>
      let line := trim l in
      if negb (inSection b) && test f_i pattern line
      then findBounds pattern rest (i + 1)
             {| inSection := true; sectionStart := i; sectionEnd := sectionEnd b |}
      else if inSection b then
        if isNewSection line
        then {| inSection := inSection b; sectionStart := sectionStart b; sectionEnd := i |}
        else findBounds pattern rest (i + 1) b
      else findBounds pattern rest (i + 1) b
  end.

Definition noBounds : Bounds := {| inSection := false; sectionStart := -1; sectionEnd := -1 |}.

(** [lines.slice(a)] and [lines.slice(0, a)] for [0 <= a]. *)
Definition sliceFrom {A} (l : list A) (a : Z) : list A := skipn (Z.to_nat a) l.
Definition sliceTo {A} (l : list A) (a : Z) : list A := firstn (Z.to_nat a) l.

Definition replaceField (output fieldName newContent : jsstring) : jsstring :=
  match lookupPattern fieldName with
  | None => output
  | Some pattern =>
      let lines := splitOn 10 output in
      let b := findBounds pattern lines 0 noBounds in
      if (sectionStart b =? -1)%Z then output
      else
        let sectionEnd' :=
          if (sectionEnd b =? -1)%Z then Z.of_nat (List.length lines) else sectionEnd b in
        let beforeSection := sliceTo lines (sectionStart b) in
        let afterSection := sliceFrom lines sectionEnd' in
        join newline (beforeSection ++ [newContent; []] ++ afterSection)
  end.

End SurgicalRepair.

(* ================================================================== *)
(** * generateEmail.js and generateMultiformat.js: the repair loops     *)
(* ================================================================== *)

Module Orchestrator.

Import Validator.

(** The progress callback [onProgress] only observes the session and is left
    out (its default is [null]); the calls to the rule loader and the prompt
    composers are functions of the brief, the previous draft and its violations. *)

(** What [await callLLM(...)] does: resolve with the content or throw. *)
Inductive LLMResult :=
| Content (content : jsstring)
| Failure (message : jsstring).

(** The completion of an [async] function: a value or a thrown error. *)
Inductive Outcome (R : Type) :=
| Return (r : R)
| Throw (message : jsstring).
Arguments Return {R} r.
Arguments Throw {R} message.

Record Settings := { apiKey : jsstring; enableRepairLoop : bool }.

Definition DEFAULT_MAX_REPAIR_ATTEMPTS : nat := 3.

(** An entry of [attemptHistory]. *)
Record Attempt (V : Type) := { attempt : nat; draft : jsstring; validation : V }.
Arguments attempt {V} _.
Arguments draft {V} _.
Arguments validation {V} _.

(** The variables of the session that the loop updates. *)
Record LoopState (V : Type) := {
  lastDraft : jsstring;
  lastValidation : V;
  attemptHistory : list (Attempt V)
}.
Arguments lastDraft {V} _.
Arguments lastValidation {V} _.
Arguments attemptHistory {V} _.

(** How a [for] loop with [return] and [break] in its body ends. *)
Inductive LoopExit (V R : Type) :=
| Returned (r : R)
| Finished (st : LoopState V).
Arguments Returned {V R} r.
Arguments Finished {V R} st.

(** ** generateViolationSignature *)

(** Code-unit order on strings, the default order of [Array.prototype.sort]. *)
Fixpoint strLeb (a b : jsstring) : bool :=
  match a, b with
  | [], _ => true
  | _ :: _, [] => false
  | x :: a', y :: b' => if (x <? y)%N then true else if (y <? x)%N then false else strLeb a' b'
  end.

Fixpoint insertSorted (x : jsstring) (l : list jsstring) : list jsstring :=
  match l with
  | [] => [x]
  | y :: l' => if strLeb x y then x :: l else y :: insertSorted x l'
  end.

Definition sortStrings (l : list jsstring) : list jsstring := fold_right insertSorted [] l.

Definition generateViolationSignature (violations : list Violation) : jsstring :=
  join (js "|") (sortStrings (map (fun v => code v ++ js ":" ++ location v) violations)).

Definition errorCount (violations : list Violation) : nat :=
  List.length (filter isError violations).

Section Session.

(** The collaborators of a session.  The generator is an oracle: its answer
    may depend on the attempt it is called in and on the prompt. *)
Variable Brief : Type.
Variable Prompt : Type.
Variable briefMissing : Brief -> bool.
Variable callLLM : nat -> Prompt -> LLMResult.

(** *** generateEmail *)
Section Email.

Variable composeGenerationPrompt : Brief -> Prompt.
Variable composeRepairPrompt : Brief -> jsstring -> list Violation -> Prompt.
(** [window.EmailValidator.validateEmail(draft, parsedBrief, requirements)] *)
Variable validate : Brief -> jsstring -> ValidationResult.

Record EmailResult := {
  success : bool;
  content : jsstring;
  resultViolations : list Violation;
  attempts : nat;
  resultStructure : option Structure;
  warning : option jsstring
}.

(** [attemptHistory[attemptHistory.length - 2]].  The history holds attempt 1
    before the loop starts, so inside the loop the index is never negative. *)
Definition secondToLast (h : list (Attempt ValidationResult))
  : option (Attempt ValidationResult) :=
  if Nat.ltb (List.length h) 2 then None else nth_error h (List.length h - 2).

Definition signatureRepeats (h : list (Attempt ValidationResult))
           (current : ValidationResult) : bool :=
  match secondToLast h with
  | Some prev =>
      jsstring_eqb (generateViolationSignature (violations (validation prev)))
                   (generateViolationSignature (violations current))
  | None => false
  end.

(** The repair loop [for (attempt = 2; attempt <= MAX; attempt++)], entered
    with [remaining] iterations left to run from index [attempt]. *)
Fixpoint emailRepairLoop (parsedBrief : Brief) (remaining attempt : nat)
         (st : LoopState ValidationResult) : LoopExit ValidationResult EmailResult :=
  match remaining with
  | O => Finished st
  | S remaining' =>
      match callLLM attempt
              (composeRepairPrompt parsedBrief (lastDraft st)
                 (violations (lastValidation st))) with
      | Failure _ =>
          (* catch: logged, the loop goes on *)
          emailRepairLoop parsedBrief remaining' (S attempt) st
      | Content d =>
          let v := validate parsedBrief d in
          let st' :=
            {| lastDraft := d; lastValidation := v;
               attemptHistory :=
                 attemptHistory st ++ [ {| attempt := attempt; draft := d; validation := v |} ] |} in
          if valid v then
            Returned {| success := true; content := d; resultViolations := [];
                        attempts := attempt; resultStructure := structure v;
                        warning := None |}
          else if Nat.ltb 2 attempt && signatureRepeats (attemptHistory st') v
          then Finished st'     (* break *)
          else emailRepairLoop parsedBrief remaining' (S attempt) st'
      end
  end.

(** [attemptHistory.reduce((best, current) => ..., attemptHistory[0])] *)
Definition pickBetter (best current : Attempt ValidationResult)
  : Attempt ValidationResult :=
  if Nat.ltb (errorCount (violations (validation current)))
             (errorCount (violations (validation best)))
  then current else best.

Definition bestAttempt (first : Attempt ValidationResult)
           (h : list (Attempt ValidationResult)) : Attempt ValidationResult :=
  fold_left pickBetter h first.

(** The code after the loop. *)
Definition emailBestEffort (first : Attempt ValidationResult)
           (st : LoopState ValidationResult) : EmailResult :=
  let best := bestAttempt first (attemptHistory st) in
  let n := errorCount (violations (validation best)) in
  {| success := false;
     content := draft best;
     resultViolations := violations (validation best);
     attempts := List.length (attemptHistory st);
     resultStructure := structure (validation best);
     warning := Some (js "Generated email has " ++ showNat n
                        ++ js " validation error(s). Manual review required.") |}.

(** Everything that follows a first draft [d]; [MAX] is [MAX_REPAIR_ATTEMPTS]. *)
Definition emailAfterFirstDraft (parsedBrief : Brief) (MAX : nat) (d : jsstring)
  : EmailResult :=
  let v := validate parsedBrief d in
  let first := {| attempt := 1; draft := d; validation := v |} in
  if valid v then
    {| success := true; content := d; resultViolations := []; attempts := 1;
       resultStructure := structure v; warning := None |}
  else
    match emailRepairLoop parsedBrief (MAX - 1) 2
            {| lastDraft := d; lastValidation := v; attemptHistory := [first] |} with
    | Returned r => r
    | Finished st => emailBestEffort first st
    end.

Definition generateEmail (parsedBrief : Brief) (settings : Settings)
  : Outcome EmailResult :=
  if briefMissing parsedBrief then Throw (js "No parsed brief provided")
  else if negb (truthy (apiKey settings)) then Throw (js "No API key configured")
  else
    let MAX_REPAIR_ATTEMPTS :=
      if enableRepairLoop settings then DEFAULT_MAX_REPAIR_ATTEMPTS else 1 in
    match callLLM 1 (composeGenerationPrompt parsedBrief) with
    | Failure m => Throw (js "Initial generation failed: " ++ m)
    | Content d => Return (emailAfterFirstDraft parsedBrief MAX_REPAIR_ATTEMPTS d)
    end.

End Email.

(** *** generateMultiformat *)
Section Multiformat.

Variable composeMultiformatGenerationPrompt : Brief -> Prompt.
Variable composeMultiformatRepairPrompt : jsstring -> list Violation -> Brief -> Prompt.
(** [window.ValidatorMultiformat.validateMultiformat(draft, parsedBrief)] *)
Variable validateMultiformat : jsstring -> Brief -> ValidatorMultiformat.Result.

Record MultiformatResult := {
  mfSuccess : bool;
  mfContent : jsstring;
  mfViolations : list Violation;
  mfAttempts : nat;
  mfAttemptHistory : list (Attempt ValidatorMultiformat.Result)
}.

Fixpoint multiformatRepairLoop (parsedBrief : Brief) (remaining attempt : nat)
         (st : LoopState ValidatorMultiformat.Result)
  : LoopExit ValidatorMultiformat.Result MultiformatResult :=
  match remaining with
  | O => Finished st
  | S remaining' =>
      match callLLM attempt
              (composeMultiformatRepairPrompt (lastDraft st)
                 (ValidatorMultiformat.resultViolations (lastValidation st))
                 parsedBrief) with
      | Failure _ =>
          (* catch: logged, the loop goes on *)
          multiformatRepairLoop parsedBrief remaining' (S attempt) st
      | Content d =>
          let v := validateMultiformat d parsedBrief in
          let st' :=
            {| lastDraft := d; lastValidation := v;
               attemptHistory :=
                 attemptHistory st ++ [ {| attempt := attempt; draft := d; validation := v |} ] |} in
          if ValidatorMultiformat.isValid v then
            Returned {| mfSuccess := true; mfContent := d; mfViolations := [];
                        mfAttempts := attempt; mfAttemptHistory := attemptHistory st' |}
          else multiformatRepairLoop parsedBrief remaining' (S attempt) st'
      end
  end.

(** Everything that follows a first draft [d]. *)
Definition multiformatAfterFirstDraft (parsedBrief : Brief) (settings : Settings)
           (MAX : nat) (d : jsstring) : MultiformatResult :=
  let v := validateMultiformat d parsedBrief in
  let first := {| attempt := 1; draft := d; validation := v |} in
  if ValidatorMultiformat.isValid v || negb (enableRepairLoop settings) then
    {| mfSuccess := ValidatorMultiformat.isValid v; mfContent := d;
       mfViolations := ValidatorMultiformat.resultViolations v;
       mfAttempts := 1; mfAttemptHistory := [first] |}
  else
    match multiformatRepairLoop parsedBrief (MAX - 1) 2
            {| lastDraft := d; lastValidation := v; attemptHistory := [first] |} with
    | Returned r => r
    | Finished st =>
        {| mfSuccess := false;
           mfContent := lastDraft st;
           mfViolations := ValidatorMultiformat.resultViolations (lastValidation st);
           mfAttempts := MAX;
           mfAttemptHistory := attemptHistory st |}
    end.

Definition generateMultiformat (parsedBrief : Brief) (settings : Settings)
  : Outcome MultiformatResult :=
  if briefMissing parsedBrief then Throw (js "No parsed brief provided")
  else if negb (truthy (apiKey settings)) then Throw (js "No API key configured")
  else
    let MAX_REPAIR_ATTEMPTS :=
      if enableRepairLoop settings then DEFAULT_MAX_REPAIR_ATTEMPTS else 1 in
    match callLLM 1 (composeMultiformatGenerationPrompt parsedBrief) with
    | Failure m => Throw (js "Ошибка генерации: " ++ m)
    | Content d =>
        Return (multiformatAfterFirstDraft parsedBrief settings MAX_REPAIR_ATTEMPTS d)
    end.

End Multiformat.

End Session.

End Orchestrator.

(* ================================================================== *)
(** * surgicalRepair.js: the repair of one field                        *)
(* ================================================================== *)

Module FieldRepair.

Import Validator.
Import SurgicalRepair.
Import Orchestrator.

(** The object [fieldLabels], as its own keys in order. *)
Definition fieldLabels : list (jsstring * jsstring) :=
  [ (js "subject", js "темы письма");
    (js "preheader", js "прехедера");
    (js "bannerTitle", js "заголовка баннера");
    (js "bannerSubtitle", js "подзаголовка баннера");
    (js "body", js "тела письма");
    (js "cta", js "CTA") ].

(** [fieldLabels[fieldName] || fieldName] *)
Definition labelOf (fieldName : jsstring) : jsstring :=
  match find (fun kv => jsstring_eqb (fst kv) fieldName) fieldLabels with
  | Some kv => if truthy (snd kv) then snd kv else fieldName
  | None => fieldName
  end.

(** The template literal of [buildSurgicalRepairPrompt]; [parsedBrief] is the
    brief text, of which the first 500 units are quoted. *)
Definition buildSurgicalRepairPrompt (fieldName currentContent : jsstring)
           (violation : Violation) (parsedBrief : jsstring) : jsstring :=
  let label := labelOf fieldName in
  js "Ты — email-маркетолог. Нужно исправить " ++ label ++ js "." ++ newline
  ++ newline
  ++ js "**ТЕКУЩИЙ ВАРИАНТ:**" ++ newline
  ++ currentContent ++ newline
  ++ newline
  ++ js "**ПРОБЛЕМА:**" ++ newline
  ++ message violation ++ newline
  ++ newline
  ++ js "**КОНТЕКСТ ИЗ БРИФА:**" ++ newline
  ++ substring parsedBrief 0 500 ++ js "..." ++ newline
  ++ newline
  ++ js "**ЗАДАЧА:**" ++ newline
  ++ js "Перепиши ТОЛЬКО варианты " ++ label ++ js ", исправив проблему." ++ newline
  ++ js "Сохрани тот же стиль и креативное направление, но:" ++ newline
  ++ orElse (suggestedFix violation) (js "Устрани указанную проблему") ++ newline
  ++ newline
  ++ js "**ФОРМАТ ВЫВОДА:**" ++ newline
  ++ js "Выведи только секцию " ++ label
  ++ js " с исправленными вариантами в том же формате.".

(** [surgicalRepair(violation, currentOutput, parsedBrief, knowledge, callLLM)].
    [knowledge] is not read.  The generator is called with one user message
    holding the prompt and fixed options, so it is an oracle on the prompt;
    [None] is the [null] that tells the caller to regenerate everything, and a
    rejected call rejects the whole function. *)
Definition surgicalRepair (callLLM : jsstring -> LLMResult) (violation : Violation)
           (currentOutput parsedBrief : jsstring) : Outcome (option jsstring) :=
  let scope := determineRepairScope violation in
  if requiresFullContext scope then Return None
  else
    match extractField currentOutput (field scope) with
    | None => Return None
    | Some currentFieldContent =>
        if negb (truthy currentFieldContent) then Return None
        else
          match callLLM (buildSurgicalRepairPrompt (field scope) currentFieldContent
                           violation parsedBrief) with
          | Failure m => Throw m
          | Content repairedField =>
              Return (Some (replaceField currentOutput (field scope) repairedField))
          end
    end.

End FieldRepair.

(* ================================================================== *)
(** * tieredKnowledge.js                                                *)
(* ================================================================== *)

Module TieredKnowledge.

Import Validator.

(** [VIOLATION_TO_KNOWLEDGE_MAP], as its own keys in order.  A lookup of any
    other code is taken to give [undefined]. *)
Definition VIOLATION_TO_KNOWLEDGE_MAP : list (jsstring * list jsstring) :=
  [ (js "CHAR_LIMIT_EXCEEDED", [js "SPEC_CHAR_LIMITS"]);
    (js "FORBIDDEN_WORD", [js "SW_LEXICON_AND_BANS"]);
    (js "EMOJI_USAGE", [js "SW_LEXICON_AND_BANS"]);
    (js "GEOGRAPHY_LABEL_MISUSE", [js "SW_GLOBAL_RULES_GEOGRAPHY"]);
    (js "LOCATION_MISMATCH", [js "SW_GLOBAL_RULES_GEOGRAPHY"]);
    (js "TRIGRAM_DUPLICATION", [js "SPEC_CHAR_LIMITS"]);
    (js "EXACT_EQUALITY", [js "SPEC_CHAR_LIMITS"]);
    (js "VARIANT_COUNT_INSUFFICIENT", [js "SPEC_CHAR_LIMITS"]);
    (js "CTA_MISSING", [js "SW_GLOBAL_RULES_CTA"]);
    (js "CTA_INVALID", [js "SW_GLOBAL_RULES_CTA"]) ].

(** [KNOWLEDGE_TOKEN_ESTIMATES] *)
Definition KNOWLEDGE_TOKEN_ESTIMATES : list (jsstring * N) :=
  [ (js "SPEC_CHAR_LIMITS", 150);
    (js "SW_LEXICON_AND_BANS", 2500);
    (js "SW_GLOBAL_RULES_GEOGRAPHY", 400);
    (js "SW_GLOBAL_RULES_CTA", 300);
    (js "FULL_KNOWLEDGE", 6300) ]%N.

Definition lookup {A} (table : list (jsstring * A)) (key : jsstring) : option A :=
  option_map snd (find (fun kv => jsstring_eqb (fst kv) key) table).

(** One iteration of the first loop of both functions, on the pair of the
    insertion-ordered set [neededSections] and the flag [hasUnknownViolation]. *)
Definition noteViolation (acc : list jsstring * bool) (violation : Violation)
  : list jsstring * bool :=
  match lookup VIOLATION_TO_KNOWLEDGE_MAP (code violation) with
  | Some knowledgeSections =>
      (fold_left (fun set section => setAdd section set) knowledgeSections (fst acc),
       snd acc)
  | None => (fst acc, true)
  end.

Definition collectSections (violations : list Violation) : list jsstring * bool :=
  fold_left noteViolation violations ([], false).

(** [knowledgeBase['FULL_KNOWLEDGE'] || ''] *)
Definition fullKnowledge (knowledgeBase : jsstring -> option jsstring) : jsstring :=
  orElse (knowledgeBase (js "FULL_KNOWLEDGE")) [].

Definition separator : jsstring :=
  [10%N; 10%N] ++ js "---" ++ [10%N; 10%N].

(** [selectRelevantKnowledge(violations, knowledgeBase)]; a key missing from
    [knowledgeBase] reads as [None]. *)
Definition selectRelevantKnowledge (violations : list Violation)
           (knowledgeBase : jsstring -> option jsstring) : jsstring :=
  if Nat.eqb (List.length violations) 0 then fullKnowledge knowledgeBase
  else
    let '(neededSections, hasUnknownViolation) := collectSections violations in
    if hasUnknownViolation then fullKnowledge knowledgeBase
    else if Nat.eqb (List.length neededSections) 0 then fullKnowledge knowledgeBase
    else
      join separator
        (flat_map (fun section =>
                     match knowledgeBase section with
                     | Some k => if truthy k then [k] else []
                     | None => []
                     end) neededSections).

(** [KNOWLEDGE_TOKEN_ESTIMATES[section] || 0] *)
Definition tokensOf (section : jsstring) : N :=
  match lookup KNOWLEDGE_TOKEN_ESTIMATES section with Some n => n | None => 0%N end.

Definition estimateTokenCount (violations : list Violation) : N :=
  if Nat.eqb (List.length violations) 0 then tokensOf (js "FULL_KNOWLEDGE")
  else
    let '(neededSections, hasUnknownViolation) := collectSections violations in
    if hasUnknownViolation || Nat.eqb (List.length neededSections) 0
    then tokensOf (js "FULL_KNOWLEDGE")
    else fold_left (fun totalTokens section => totalTokens + tokensOf section)%N
                   neededSections 0%N.

(** [getKnowledgeSectionsForViolation] *)
Definition getKnowledgeSectionsForViolation (violationCode : jsstring) : list jsstring :=
  match lookup VIOLATION_TO_KNOWLEDGE_MAP violationCode with
  | Some sections => sections
  | None => [js "FULL_KNOWLEDGE"]
  end.

End TieredKnowledge.

(* ================================================================== *)
(** * promptComposerMultiformat.js: which formats a brief asks for      *)
(* ================================================================== *)

Module PromptComposerMultiformat.

(** The sub-objects of [parsedBrief.formats_required] that are read.  A
    property holds a boolean; an absent property reads as [false], an absent
    sub-object as [None]. *)
Record PushFlags := { push_needed : bool; has_reminder : bool; has_last_call : bool }.
Record StickyFlags := { sticky_needed : bool; has_timer : bool }.

Record FormatsRequired := {
  push : option PushFlags;
  sms : option bool;
  yandex_maps : option bool;
  onboarding : option bool;
  landing_page : option bool;
  tabs : option bool;
  sticky_banner : option StickyFlags;
  ticker : option bool
}.

(** [parsedBrief.formats_required || {}] *)
Definition noFormats : FormatsRequired :=
  {| push := None; sms := None; yandex_maps := None; onboarding := None;
     landing_page := None; tabs := None; sticky_banner := None; ticker := None |}.

Record PushRequired := { announce : bool; reminder : bool; lastCall : bool }.

Record RequiredFormats := {
  rPush : PushRequired;
  rSms : PushRequired;
  yandexMaps : bool;
  rOnboarding : bool;
  landingPage : bool;
  rTabs : bool;
  stickyBanner : bool;
  stickyBannerTimer : bool;
  rTicker : bool
}.

(** [x?.needed || false] for a sub-object holding only [needed]. *)
Definition needed (x : option bool) : bool :=
  match x with Some b => b || false | None => false end.

Definition determineRequiredFormats (formats_required : option FormatsRequired)
  : RequiredFormats :=
  let formats := match formats_required with Some f => f | None => noFormats end in
  {| rPush :=
       {| announce := match push formats with Some p => push_needed p || false
                                          | None => false end;
          reminder := match push formats with Some p => has_reminder p || false
                                          | None => false end;
          lastCall := match push formats with Some p => has_last_call p || false
                                          | None => false end |};
     rSms := {| announce := needed (sms formats); reminder := needed (sms formats);
                lastCall := needed (sms formats) |};
     yandexMaps := needed (yandex_maps formats);
     rOnboarding := needed (onboarding formats);
     landingPage := match landing_page formats with Some b => b || true | None => true end;
     rTabs := needed (tabs formats);
     stickyBanner := match sticky_banner formats with Some s => sticky_needed s || false
                                                 | None => false end;
     stickyBannerTimer := match sticky_banner formats with Some s => has_timer s || false
                                                      | None => false end;
     rTicker := needed (ticker formats) |}.

(** [if (c) instructions.push(line)] *)
Definition pushIf (c : bool) (line : string) : list jsstring :=
  if c then [js line] else [].

(** The array [instructions] of [buildFormatInstructions], before the join. *)
Definition instructions (r : RequiredFormats) : list jsstring :=
  [js "Генерируй ТОЛЬКО следующие блоки:"]
  ++ (if announce (rPush r) || reminder (rPush r) || lastCall (rPush r)
      then [[10%N] ++ js "### 1. ПУШ"]
           ++ pushIf (announce (rPush r)) "- 1.1. ПУШ — АНОНС (5 вариантов)"
           ++ pushIf (reminder (rPush r)) "- 1.2. ПУШ — НАПОМИНАНИЕ (5 вариантов)"
           ++ pushIf (lastCall (rPush r)) "- 1.3. ПУШ — ПОСЛЕДНИЙ ЗВОНОК (5 вариантов)"
      else [])
  ++ (if announce (rSms r) || reminder (rSms r) || lastCall (rSms r)
      then [[10%N] ++ js "### 2. СМС (БЕЗ упоминания алкоголя!)"]
           ++ pushIf (announce (rSms r)) "- 2.1. СМС — АНОНС (5 вариантов)"
           ++ pushIf (reminder (rSms r)) "- 2.2. СМС — НАПОМИНАНИЕ (5 вариантов)"
           ++ pushIf (lastCall (rSms r)) "- 2.3. СМС — ПОСЛЕДНИЙ ЗВОНОК (5 вариантов)"
      else [])
  ++ [[10%N] ++ js "### 3. ВЕБ И МИКРОФОРМАТЫ"]
  ++ pushIf (yandexMaps r) "- 3.1. ЯНДЕКС КАРТЫ (1 вариант)"
  ++ pushIf (rOnboarding r) "- 3.2. ОНБОРДИНГ (5 вариантов)"
  ++ pushIf (landingPage r) "- 3.3. ТЕКСТ НА LP (2 варианта)"
  ++ pushIf (rTabs r) "- 3.4. ТАБЫ (1 вариант)"
  ++ pushIf (stickyBanner r) "- 3.5. СТИКИ-БАННЕР БЕЗ ТАЙМЕРА (5 вариантов)"
  ++ pushIf (stickyBannerTimer r) "- 3.6. СТИКИ-БАННЕР С ТАЙМЕРОМ (5 вариантов)"
  ++ pushIf (rTicker r) "- 3.7. БЕГУЩАЯ СТРОКА (5 вариантов)".

Definition buildFormatInstructions (requiredFormats : RequiredFormats) : jsstring :=
  join [10%N] (instructions requiredFormats).

End PromptComposerMultiformat.

(* ================================================================== *)
(** * Predicates and scenarios used in the statements                   *)
(* ================================================================== *)

Import Validator.
Import SurgicalRepair.
Import Orchestrator.

(** ** Predicates on violation lists *)

(** Every violation of the list carries the code [c]. *)
Definition emits (c : string) (l : list Violation) : Prop :=
  Forall (fun v => code v = js c) l.
Arguments emits : simpl never.

(** No violation of the list carries the code [c]. *)
Definition lacks (c : jsstring) (l : list Violation) : Prop :=
  Forall (fun v => code v <> c) l.
Arguments lacks : simpl never.



(** The counter [stats.errors] agrees with the ERROR entries of [violations]. *)
Definition balanced (a : ValidatorMultiformat.Acc) : Prop :=
  ValidatorMultiformat.errors (ValidatorMultiformat.stats a)
  = List.length (filter isError (ValidatorMultiformat.violations a)).

(** ** Lines and text *)

Definition lf : jsstring := [10%N].

Definition lines (l : list jsstring) : jsstring := join lf l.

(** A list is empty or starts with an element that passes the test. *)
Definition headIs {A} (P : A -> bool) (post : list A) : Prop :=
  post = [] \/ exists h post', post = h :: post' /\ P h = true.



(** ** Sessions *)

Definition errorsOf (a : Attempt ValidationResult) : nat :=
  errorCount (violations (validation a)).

Definition signatureOf (v : ValidationResult) : jsstring :=
  generateViolationSignature (violations v).

(** The session state after a draft [d] has been validated and recorded. *)
Definition recordedWith {Brief : Type} (validate : Brief -> jsstring -> ValidationResult)
           (brief : Brief) (k : nat) (d : jsstring) (st : LoopState ValidationResult)
  : LoopState ValidationResult :=
  {| lastDraft := d; lastValidation := validate brief d;
     attemptHistory :=
       attemptHistory st ++ [ {| attempt := k; draft := d; validation := validate brief d |} ] |}.

(** The last entry of the history is the draft and validation held in
    [lastDraft] and [lastValidation]. *)
Definition endsWithLast {V : Type} (st : LoopState V) : Prop :=
  exists hs k,
    attemptHistory st
    = hs ++ [ {| attempt := k; draft := lastDraft st; validation := lastValidation st |} ].

(** A generator that answers attempt [k] with the [k]-th draft of a script and
    fails when the script is exhausted. *)
Definition scripted (script : list jsstring) (k : nat) (_ : unit) : LLMResult :=
  match nth_error script (k - 1) with
  | Some d => Content d
  | None => Failure (js "network error")
  end.

Definition settingsOn : Settings := {| apiKey := js "key"; enableRepairLoop := true |}.

Definition defaultSpec : Spec := {| variantCounts := None |}.

(** Both orchestrators run against a script, with the validators of this
    repository; brief and prompts carry no information. *)
Definition runEmail (script : list jsstring) : Outcome EmailResult :=
  generateEmail (fun _ : unit => false) (scripted script) (fun _ => tt) (fun _ _ _ => tt)
                (fun _ d => validateEmail d [] defaultSpec) tt settingsOn.

Definition runMultiformat (script : list jsstring) : Outcome MultiformatResult :=
  generateMultiformat (fun _ : unit => false) (scripted script) (fun _ => tt)
                      (fun _ _ _ => tt)
                      (fun d b => ValidatorMultiformat.validateMultiformat d b) tt settingsOn.

Definition multiformatErrors (d : jsstring) : nat :=
  errorCount (ValidatorMultiformat.resultViolations
                (ValidatorMultiformat.validateMultiformat d tt)).

Definition emailErrors (d : jsstring) : nat :=
  errorCount (violations (validateEmail d [] defaultSpec)).

(** ** Drafts *)

(** The draft of the trigram scenario and the structure parsed from it. *)
Definition trigramDraft : jsstring :=
  js "ТЕМА" ++ lf ++ js "1. Раз два три" ++ lf ++ js "ПРЕХЕДЕР" ++ lf ++ js "1. Раз два три".

Definition trigramStructure : Structure :=
  {| subject := [js "Раз два три"]; preheader := [js "Раз два три"]; bannerTitle := [];
     bannerSubtitle := []; introText := []; introCTA := []; productHeading := [];
     blocks := [] |}.


(** A complete email draft, and the same draft with leaked service phrases
    (one ERROR per phrase). *)
Definition completeEmail : jsstring :=
  lines [ js "ТЕМА"; js "1. a"; js "2. b"; js "3. c";
          js "ПРЕХЕДЕР"; js "1. d"; js "2. e"; js "3. f";
          js "Заголовок —"; js "1. g"; js "2. h"; js "3. i" ].

Definition email3 : jsstring := completeEmail ++ lf ++ js "PREFLIGHT CHECK VALID".

Definition email1 : jsstring := completeEmail ++ lf ++ js "PREFLIGHT".

Definition email2 : jsstring := completeEmail ++ lf ++ js "PREFLIGHT CHECK".

(** Multiformat drafts whose timer banners lack the [таймер] tag (one ERROR
    per variant). *)
Definition multiformat3 : jsstring :=
  lines [ js "3.6. СТИКИ-БАННЕР С ТАЙМЕРОМ"; js "Вариант 1: a"; js "Вариант 2: b";
          js "Вариант 3: c" ].

Definition multiformat1 : jsstring :=
  lines [ js "3.6. СТИКИ-БАННЕР С ТАЙМЕРОМ"; js "Вариант 1: a" ].

Definition multiformat2 : jsstring :=
  lines [ js "3.6. СТИКИ-БАННЕР С ТАЙМЕРОМ"; js "Вариант 1: a"; js "Вариант 2: b" ].

(** Seventeen characters outside the Basic Multilingual Plane: 17 code points,
    34 UTF-16 code units; and a push section whose title they are. *)
Definition astralTitle : jsstring := List.concat (repeat (js "𝒜") 17).

Definition pushDraft : jsstring :=
  lines [ js "1.1. ПУШ — АНОНС"; js "Вариант 1"; js "Заголовок: " ++ astralTitle ].

(** Ninety times the letter «а». *)
Definition ninety : jsstring := repeat 1072%N 90.

(** An email draft with two sections, and a replacement for the first. *)
Definition sampleOutput : jsstring :=
  js "ТЕМА — 3 варианта" ++ lf ++ js "1. Старое" ++ lf ++ lf
  ++ js "ПРЕХЕДЕР — 3 варианта" ++ lf ++ js "1. Текст".

Definition sampleNew : jsstring := js "ТЕМА — 3 варианта" ++ lf ++ js "1. Новое".

(** ** Repair scopes *)

Definition scopeAll : RepairScope := {| field := js "all"; requiresFullContext := true |}.

Definition sampleViolation (c loc : string) : Violation :=
  {| code := js c; severity := ERROR; message := []; location := js loc; evidence := [];
     suggestedFix := None |}.

Import FieldRepair.

(** ** Word boundaries before Cyrillic words *)

(** The code unit a literal is compared by: its canonical form under the flag
    [i], itself otherwise. *)
Definition canonBy (fl : flags) (c : N) : N := if ignoreCase fl then canon c else c.

(** Somewhere in [s] the word [w] stands directly after an ASCII letter, digit
    or underscore (the characters of [\w]). *)
Definition precededByWordChar (fl : flags) (w s : jsstring) : Prop :=
  exists pre c post,
    s = pre ++ c :: post /\ isWordChar c = true
    /\ startsWith (map (canonBy fl) post) (map (canonBy fl) w) = true.

(** The same, as a scan of [s]. *)
Fixpoint wordCharBefore (fl : flags) (w s : jsstring) : bool :=
  match s with
  | [] => false
  | c :: post =>
      (isWordChar c && startsWith (map (canonBy fl) post) (map (canonBy fl) w))
      || wordCharBefore fl w post
  end.

(** The position of a matcher state inside a string. *)
Definition sitsIn (s : jsstring) (st : mstate) : Prop :=
  exists pre, s = pre ++ rest st /\ prev st = last (map Some pre) None.

(** No ASCII letter, digit or underscore occurs in [s]. *)
Definition noWordChars (s : jsstring) : bool := forallb (fun c => negb (isWordChar c)) s.

Definition buketCode : jsstring := js "FORBIDDEN_BUKET".

(** ** The accumulator of the multiformat validator *)

(** The accumulator a run starts from. *)
Definition freshAcc : ValidatorMultiformat.Acc :=
  {| ValidatorMultiformat.violations := [];
     ValidatorMultiformat.stats :=
       {| ValidatorMultiformat.totalChecks := 0;
          ValidatorMultiformat.errors := 0;
          ValidatorMultiformat.warnings := 0 |} |}.

(** The codes of the violations pushed so far, oldest first. *)
Definition codesOf (a : ValidatorMultiformat.Acc) : list jsstring :=
  map code (ValidatorMultiformat.violations a).

(** [/купить?\s+в\s+винотек/i], the exception of [checkCTARules]. *)
Definition kupitVVinoteke : regex :=
  Seqs [Lit "купит"; Opt (Lit "ь"); Plus Space; Lit "в"; Plus Space; Lit "винотек"].

(** [/напит[оа]к/i], the test of [checkForbiddenNapitok]. *)
Definition napitokPattern : regex := Seqs [Lit "напит"; OneOf "оа"; Lit "к"].

(** The words of [abbreviationPatterns], in the order of the array. *)
Definition abbreviations : list string :=
  [ "т.к."; "т.е."; "и т.д."; "и т.п."; "др."; "г."; "руб."; "тыс."; "млн." ]%string.

Definition isWarning (v : Violation) : bool := Severity_eqb (severity v) WARNING.

(** Both counters of [stats] agree with the violations pushed so far, and every
    violation is an ERROR or a WARNING. *)
Definition tallied (a : ValidatorMultiformat.Acc) : Prop :=
  ValidatorMultiformat.errors (ValidatorMultiformat.stats a)
  = List.length (filter isError (ValidatorMultiformat.violations a))
  /\ ValidatorMultiformat.warnings (ValidatorMultiformat.stats a)
     = List.length (filter isWarning (ValidatorMultiformat.violations a))
  /\ List.length (ValidatorMultiformat.violations a)
     = ValidatorMultiformat.errors (ValidatorMultiformat.stats a)
       + ValidatorMultiformat.warnings (ValidatorMultiformat.stats a).

Definition checksOf (a : ValidatorMultiformat.Acc) : nat :=
  ValidatorMultiformat.totalChecks (ValidatorMultiformat.stats a).

(** The number of checks a run makes on parsed sections: two per push and SMS
    variant (length, alcohol words or emoji), one per variant of the maps,
    onboarding, landing page, sticky banner and ticker sections, two per sticky
    banner with a timer (length, timer tag), and one for each of the four
    whole-text checks. *)
Definition expectedChecks (s : ValidatorMultiformat.Sections) : nat :=
  2 * (List.length (s ValidatorMultiformat.push_announce)
       + List.length (s ValidatorMultiformat.push_reminder)
       + List.length (s ValidatorMultiformat.push_last_call))
  + 2 * (List.length (s ValidatorMultiformat.sms_announce)
         + List.length (s ValidatorMultiformat.sms_reminder)
         + List.length (s ValidatorMultiformat.sms_last_call))
  + List.length (s ValidatorMultiformat.yandex_maps)
  + List.length (s ValidatorMultiformat.onboarding)
  + List.length (s ValidatorMultiformat.landing_page)
  + List.length (s ValidatorMultiformat.sticky_banner)
  + 2 * List.length (s ValidatorMultiformat.sticky_banner_timer)
  + List.length (s ValidatorMultiformat.ticker)
  + 4.

(** [w] stands somewhere in [t], inside a word or not. *)
Definition occursIn (w t : jsstring) : Prop := exists pre post, t = pre ++ w ++ post.

(** Some stem of [SMS_FORBIDDEN_ALCOHOL] is found in the lower-cased text. *)
Definition mentionsAlcohol (v : ValidatorMultiformat.Variant) : bool :=
  existsb (includes (toLowerCase (ValidatorMultiformat.orEmpty (ValidatorMultiformat.text v))))
          ValidatorMultiformat.SMS_FORBIDDEN_ALCOHOL.

(** An SMS variant with the given text. *)
Definition smsVariant (t : jsstring) : ValidatorMultiformat.Variant :=
  {| ValidatorMultiformat.number := 1;
     ValidatorMultiformat.title := None;
     ValidatorMultiformat.subtitle := None;
     ValidatorMultiformat.text := Some t;
     ValidatorMultiformat.description := None;
     ValidatorMultiformat.button := None |}.

(** ** What the parser of the multiformat validator keeps *)




(** No line of the text is the header of a section. *)
Definition headerless (content : jsstring) : Prop :=
  forall l, In l (splitOn 10 content) ->
            ValidatorMultiformat.detectSection (trim l) = None.

(** The two parses hold the same variants in every section but the tabs. *)
Definition agreeOffTabs (s s' : ValidatorMultiformat.Sections) : Prop :=
  forall k, k <> ValidatorMultiformat.tabs -> s k = s' k.

(** A tabs variant far below the minimum length of [LIMITS.tabs]. *)
Definition shortTab : ValidatorMultiformat.Variant :=
  {| ValidatorMultiformat.number := 1;
     ValidatorMultiformat.title := None;
     ValidatorMultiformat.subtitle := None;
     ValidatorMultiformat.text := Some (js "Вино");
     ValidatorMultiformat.description := None;
     ValidatorMultiformat.button := None |}.

(** ** The structure read by [parseEmailOutput] *)

Definition bareBlock (b : Block) : Prop := text b = [] /\ cta b = [].

Definition bareBlocks (s : Structure) : Prop :=
  productHeading s = [] /\ Forall bareBlock (blocks s).

Definition parseInv (st : ParseState) : Prop :=
  currentSection st <> Some SecBlockCTA /\ bareBlocks (pStructure st).

(** An email draft with one product block. *)
Definition blockDraft : jsstring :=
  lines [ js "БЛОК 1"; js "1. Вино недели"; js "Кнопка: Выбрать"; js "1. Выбрать" ].

(** ** Severity and location of the violations of [validateEmail] *)

Definition isErrorP (v : Violation) : Prop := severity v = ERROR.

Definition stamped (loc : jsstring) (v : Violation) : Prop :=
  severity v = ERROR /\ location v = loc.

Definition errorAt (locs : list jsstring) (v : Violation) : Prop :=
  severity v = ERROR /\ In (location v) locs.

(** The locations that [determineRepairScope] hands to a field repair. *)
Definition repairableLocations : list jsstring :=
  [ js "subject"; js "preheader"; js "bannerTitle"; js "bannerSubtitle" ].

Definition fieldLocations : list jsstring :=
  repairableLocations ++ [ js "intro"; js "introCTA" ].

(** The scope of a violation is either the whole email or the field named by
    its location, one of the four that can be repaired alone. *)
Definition surgicallyRepairable (v : Violation) : Prop :=
  determineRepairScope v = scopeAll
  \/ (In (location v) repairableLocations
      /\ determineRepairScope v = {| field := location v; requiresFullContext := false |}).

(** ** Histories of the repair loops *)

(** An entry of the history records a draft, its validation and an invalid verdict. *)
Definition recordsInvalid {Brief : Type} (validate : Brief -> jsstring -> ValidationResult)
           (brief : Brief) (a : Attempt ValidationResult) : Prop :=
  validation a = validate brief (draft a) /\ valid (validation a) = false.

Definition recordsInvalidMultiformat {Brief : Type}
           (validateMultiformat : jsstring -> Brief -> ValidatorMultiformat.Result)
           (brief : Brief) (a : Attempt ValidatorMultiformat.Result) : Prop :=
  validation a = validateMultiformat (draft a) brief
  /\ ValidatorMultiformat.isValid (validation a) = false.

(** Attempt numbers that increase strictly, none below [k]. *)
Fixpoint ascendingFrom (k : nat) (l : list nat) : bool :=
  match l with
  | [] => true
  | x :: l' => Nat.leb k x && ascendingFrom (S x) l'
  end.

(** What the loop of [generateMultiformat] keeps true of the session state:
    every recorded draft was validated and found invalid, the attempt numbers
    ascend and stay below the next attempt, and the newest entry is the draft
    held in [lastDraft]. *)
Definition loopInvariant {Brief : Type}
           (validateMultiformat : jsstring -> Brief -> ValidatorMultiformat.Result)
           (brief : Brief) (next : nat)
           (st : LoopState ValidatorMultiformat.Result) : Prop :=
  Forall (recordsInvalidMultiformat validateMultiformat brief) (attemptHistory st)
  /\ ascendingFrom 1 (map attempt (attemptHistory st)) = true
  /\ (forall a, In a (attemptHistory st) -> attempt a < next)
  /\ (exists hs a, attemptHistory st = hs ++ [a] /\ draft a = lastDraft st
                   /\ validation a = lastValidation st).


(** What the scripted sessions return once the first draft is there. *)
Definition emailOutcome (script : list jsstring) : EmailResult :=
  emailAfterFirstDraft (scripted script) (fun (_ : unit) _ _ => tt)
    (fun _ d => validateEmail d [] defaultSpec) tt DEFAULT_MAX_REPAIR_ATTEMPTS
    (hd [] script).

Definition multiformatOutcome (script : list jsstring) : MultiformatResult :=
  multiformatAfterFirstDraft (scripted script) (fun _ _ (_ : unit) => tt)
    (fun d b => ValidatorMultiformat.validateMultiformat d b) tt settingsOn
    DEFAULT_MAX_REPAIR_ATTEMPTS (hd [] script).

(** A generator that answers every call with the same draft. *)
Definition always {Prompt : Type} (d : jsstring) (_ : nat) (_ : Prompt) : LLMResult :=
  Content d.

(** The key of a violation in the signature. *)
Definition signatureKey (v : Violation) : jsstring := code v ++ js ":" ++ location v.

(** ** Knowledge sections of [tieredKnowledge.js] *)

(** The sections that [VIOLATION_TO_KNOWLEDGE_MAP] can ask for. *)
Definition knowledgeSections : list jsstring :=
  [ js "SPEC_CHAR_LIMITS"; js "SW_LEXICON_AND_BANS"; js "SW_GLOBAL_RULES_GEOGRAPHY";
    js "SW_GLOBAL_RULES_CTA" ].


Definition setOk (set : list jsstring) : Prop := NoDup set /\ incl set knowledgeSections.


(** The codes that [validateEmail] can report. *)
Definition emailCodes : list jsstring :=
  map js [ "PARSE_FAILED"; "VARIANT_COUNT_INSUFFICIENT"; "CHAR_LIMIT_EXCEEDED";
           "EMOJI_FORBIDDEN"; "FORBIDDEN_DEGUSTATSIYA"; "FORBIDDEN_KUPIT";
           "FORBIDDEN_POKUPKA"; "FORBIDDEN_BUKET"; "FORBIDDEN_POSLEVKUSIE";
           "BANNED_CLICHE"; "GEOGRAPHY_LABEL_MISUSE"; "TRIGRAM_DUPLICATION";
           "EXACT_EQUALITY"; "BLOCK_TOO_LONG"; "SERVICE_PHRASE_DETECTED" ]%string.

(** The codes among them that [VIOLATION_TO_KNOWLEDGE_MAP] has a key for. *)
Definition coveredCodes : list jsstring :=
  map js [ "VARIANT_COUNT_INSUFFICIENT"; "CHAR_LIMIT_EXCEEDED"; "GEOGRAPHY_LABEL_MISUSE";
           "TRIGRAM_DUPLICATION"; "EXACT_EQUALITY" ]%string.

(** The sections those codes map to. *)
Definition emailSections : list jsstring :=
  [ js "SPEC_CHAR_LIMITS"; js "SW_GLOBAL_RULES_GEOGRAPHY" ].

Definition coded (codes : list jsstring) (l : list Violation) : Prop :=
  Forall (fun v => In (code v) codes) l.

(** ** Format lines of the multiformat prompt *)

(** Every format switched on. *)
Definition allFormats : PromptComposerMultiformat.RequiredFormats :=
  {| PromptComposerMultiformat.rPush :=
       {| PromptComposerMultiformat.announce := true;
          PromptComposerMultiformat.reminder := true;
          PromptComposerMultiformat.lastCall := true |};
     PromptComposerMultiformat.rSms :=
       {| PromptComposerMultiformat.announce := true;
          PromptComposerMultiformat.reminder := true;
          PromptComposerMultiformat.lastCall := true |};
     PromptComposerMultiformat.yandexMaps := true;
     PromptComposerMultiformat.rOnboarding := true;
     PromptComposerMultiformat.landingPage := true;
     PromptComposerMultiformat.rTabs := true;
     PromptComposerMultiformat.stickyBanner := true;
     PromptComposerMultiformat.stickyBannerTimer := true;
     PromptComposerMultiformat.rTicker := true |}.

(** The format lines of the prompt and the section each one asks for. *)
Definition promptedSections : list (jsstring * ValidatorMultiformat.SectionName) :=
  [ (js "- 1.1. ПУШ — АНОНС (5 вариантов)", ValidatorMultiformat.push_announce);
    (js "- 1.2. ПУШ — НАПОМИНАНИЕ (5 вариантов)", ValidatorMultiformat.push_reminder);
    (js "- 1.3. ПУШ — ПОСЛЕДНИЙ ЗВОНОК (5 вариантов)", ValidatorMultiformat.push_last_call);
    (js "- 2.1. СМС — АНОНС (5 вариантов)", ValidatorMultiformat.sms_announce);
    (js "- 2.2. СМС — НАПОМИНАНИЕ (5 вариантов)", ValidatorMultiformat.sms_reminder);
    (js "- 2.3. СМС — ПОСЛЕДНИЙ ЗВОНОК (5 вариантов)", ValidatorMultiformat.sms_last_call);
    (js "- 3.1. ЯНДЕКС КАРТЫ (1 вариант)", ValidatorMultiformat.yandex_maps);
    (js "- 3.2. ОНБОРДИНГ (5 вариантов)", ValidatorMultiformat.onboarding);
    (js "- 3.3. ТЕКСТ НА LP (2 варианта)", ValidatorMultiformat.landing_page);
    (js "- 3.4. ТАБЫ (1 вариант)", ValidatorMultiformat.tabs);
    (js "- 3.5. СТИКИ-БАННЕР БЕЗ ТАЙМЕРА (5 вариантов)", ValidatorMultiformat.sticky_banner);
    (js "- 3.6. СТИКИ-БАННЕР С ТАЙМЕРОМ (5 вариантов)",
     ValidatorMultiformat.sticky_banner_timer);
    (js "- 3.7. БЕГУЩАЯ СТРОКА (5 вариантов)", ValidatorMultiformat.ticker) ].

(** A line is a format line of the table and the parser of the validator reads
    it as the header of the section the table names. *)
Definition recognised (l : jsstring) : bool :=
  match find (fun p => jsstring_eqb (fst p) l) promptedSections with
  | Some (_, k) =>
      match ValidatorMultiformat.detectSection (trim l) with
      | Some k' => ValidatorMultiformat.SectionName_eqb k' k
      | None => false
      end
  | None => false
  end.

Definition formatLine (l : jsstring) : bool := startsWith l (js "- ").

(* ================================================================== *)
(** * Properties                                                        *)
(* ================================================================== *)

(** ** Strings and lists *)

Lemma jsstring_eqb_eq (a b : jsstring) : jsstring_eqb a b = true <-> a = b.
Proof. unfold jsstring_eqb. destruct (list_eq_dec N.eq_dec a b); split; congruence. Qed.

Lemma jsstring_eqb_neq (a b : jsstring) : jsstring_eqb a b = false <-> a <> b.
Proof. unfold jsstring_eqb. destruct (list_eq_dec N.eq_dec a b); split; congruence. Qed.

Lemma existsb_eqb_In (x : jsstring) (l : list jsstring) :
  existsb (jsstring_eqb x) l = true <-> In x l.
Proof.
  rewrite existsb_exists. split.
  - intros [y [Hy E]]. apply jsstring_eqb_eq in E. now subst.
  - intros H. exists x. split; [assumption | now apply jsstring_eqb_eq].
Qed.

Lemma splitOn_nonempty (sep : N) (s : jsstring) : splitOn sep s <> [].
Proof.
  destruct s as [|c s]; simpl; [discriminate|].
  destruct (c =? sep)%N; [discriminate|]. destruct (splitOn sep s); discriminate.
Qed.


Lemma join_cons (sep l : jsstring) (ls : list jsstring) :
  ls <> [] -> join sep (l :: ls) = l ++ sep ++ join sep ls.
Proof. destruct ls; [contradiction | reflexivity]. Qed.

Lemma join_app (sep : jsstring) (xs ys : list jsstring) :
  xs <> [] -> ys <> [] -> join sep (xs ++ ys) = join sep xs ++ sep ++ join sep ys.
Proof.
  intros Hx Hy. induction xs as [|x xs IH]; [contradiction|].
  destruct xs as [|x' xs'].
  - simpl. destruct ys; [contradiction | reflexivity].
  - change ((x :: x' :: xs') ++ ys) with (x :: ((x' :: xs') ++ ys)).
    rewrite join_cons by discriminate.
    rewrite IH by discriminate.
    rewrite (join_cons sep x (ls := x' :: xs')) by discriminate.
    now rewrite <- !app_assoc.
Qed.

(** ** The string and regular-expression layer on examples *)

Example js_literal : js "ТЕМА" = [1058; 1045; 1052; 1040]%N.
Proof. reflexivity. Qed.

Example toLowerCase_cyrillic : toLowerCase (js "Раз Два") = js "раз два".
Proof. reflexivity. Qed.

Example showNat_digits : showNat 90 = js "90" /\ showNat 0 = js "0" /\ showNat 105 = js "105".
Proof. repeat split; reflexivity. Qed.

Example substring_clamps : substring (js "abcdef") (-3) 2 = js "ab".
Proof. reflexivity. Qed.

Example numberedPrefix_stripped :
  replaceFirst f_none numberedPrefix (js "12)  ТЕМА") [] = js "ТЕМА".
Proof. vm_compute. reflexivity. Qed.

Example vVinotek_ignores_case :
  test f_i vVinotek (js "Купить В  Винотеке") = true
  /\ test f_i vVinotek (js "купить вино") = false.
Proof. split; vm_compute; reflexivity. Qed.

(** [\b] knows ASCII word characters only, so it does not hold between a
    space and a Cyrillic letter. *)
Example wordBoundary_ascii_only :
  test f_i (Seq WordBoundary (Lit "букет")) (js "наш букет") = false
  /\ test f_i (Seq WordBoundary (Lit "букет")) (js "a-букет") = false
  /\ test f_i (Seq WordBoundary (Lit "букет")) (js "aбукет") = true.
Proof. repeat split; vm_compute; reflexivity. Qed.

Example discounts_found :
  matchG f_none ValidatorMultiformat.discountPattern (js "a -10% b 5% c 100%")
  = Some [js "-10%"; js "5%"; js "00%"].
Proof. vm_compute. reflexivity. Qed.

Example whitespace_collapsed :
  replaceAll f_none (Plus Space) (js " a   b  c ") (js " ") = js " a b c ".
Proof. vm_compute. reflexivity. Qed.

Example codePoints_counted :
  codePointLength (js "a𝒜b") = 3 /\ List.length (js "a𝒜b") = 4.
Proof. split; reflexivity. Qed.

(** ** Which codes a check can emit *)

Lemma emits_nil c : emits c [].
Proof. constructor. Qed.

Lemma emits_one c sev msg loc ev fx :
  emits c [ {| code := js c; severity := sev; message := msg; location := loc;
               evidence := ev; suggestedFix := fx |} ].
Proof. repeat constructor. Qed.

Lemma emits_app c (a b : list Violation) : emits c a -> emits c b -> emits c (a ++ b).
Proof. intros Ha Hb. apply Forall_app. now split. Qed.

Lemma emits_flat_map {A} c (f : A -> list Violation) (l : list A) :
  (forall x, emits c (f x)) -> emits c (flat_map f l).
Proof.
  intros H. induction l as [|x l IH]; simpl; [constructor|].
  apply emits_app; [apply H | exact IH].
Qed.

Ltac emits_cases :=
  repeat match goal with
         | |- emits _ (if ?b then _ else _) => destruct b
         | |- emits _ (match ?x with Some _ => _ | None => _ end) => destruct x
         | |- emits _ [] => apply emits_nil
         | |- emits _ [ _ ] => apply emits_one
         end.

Lemma degustatsiya_emits text loc :
  emits "FORBIDDEN_DEGUSTATSIYA" (degustatsiyaViolations text loc).
Proof. unfold degustatsiyaViolations. emits_cases. Qed.

Lemma kupit_emits text loc : emits "FORBIDDEN_KUPIT" (kupitViolations text loc).
Proof. unfold kupitViolations. emits_cases. Qed.

Lemma pokupka_emits text loc : emits "FORBIDDEN_POKUPKA" (pokupkaViolations text loc).
Proof. unfold pokupkaViolations. emits_cases. Qed.

Lemma buket_emits text loc : emits "FORBIDDEN_BUKET" (buketViolations text loc).
Proof. unfold buketViolations. emits_cases. Qed.

Lemma poslevkusie_emits text loc :
  emits "FORBIDDEN_POSLEVKUSIE" (poslevkusieViolations text loc).
Proof. unfold poslevkusieViolations. emits_cases. Qed.

Lemma cliches_emit text loc : emits "BANNED_CLICHE" (checkBannedCliches text loc).
Proof.
  unfold checkBannedCliches. destruct (negb (truthy text)); [apply emits_nil|].
  apply emits_flat_map. intros x. unfold clicheViolation. emits_cases.
Qed.

Lemma geography_emits text loc : emits "GEOGRAPHY_LABEL_MISUSE" (checkGeographyLabels text loc).
Proof.
  unfold checkGeographyLabels. destruct (negb (truthy text)); [apply emits_nil|].
  apply emits_flat_map. intros region. apply emits_flat_map. intros p.
  unfold geographyViolation. emits_cases.
Qed.

Lemma charLimit_emits text limit loc : emits "CHAR_LIMIT_EXCEEDED" (checkCharLimit text limit loc).
Proof. unfold checkCharLimit. emits_cases. Qed.

Lemma emojis_emit text loc : emits "EMOJI_FORBIDDEN" (checkEmojis text loc).
Proof. unfold checkEmojis. emits_cases. Qed.

Lemma variantCount_emits what loc have required :
  emits "VARIANT_COUNT_INSUFFICIENT" (variantCountViolation what loc have required).
Proof. unfold variantCountViolation. emits_cases. Qed.

Lemma variantCounts_emit s required :
  emits "VARIANT_COUNT_INSUFFICIENT" (variantCountViolations s required).
Proof.
  unfold variantCountViolations. repeat apply emits_app; apply variantCount_emits.
Qed.

Lemma trigram_emits s : emits "TRIGRAM_DUPLICATION" (trigramViolations s).
Proof.
  unfold trigramViolations. apply emits_flat_map. intros [[n1 t1] [n2 t2]].
  unfold trigramViolation. emits_cases.
Qed.

Lemma exactEquality_emits xs ys msg loc : emits "EXACT_EQUALITY" (exactEquality xs ys msg loc).
Proof.
  unfold exactEquality. apply emits_flat_map. intros x. apply emits_flat_map. intros y.
  emits_cases.
Qed.

Lemma exactEqualities_emit s : emits "EXACT_EQUALITY" (exactEqualityViolations s).
Proof.
  unfold exactEqualityViolations. apply emits_app; apply exactEquality_emits.
Qed.

Lemma blocks_emit s : emits "BLOCK_TOO_LONG" (blockViolations s).
Proof.
  unfold blockViolations. generalize 0%nat. induction (blocks s) as [|b bs IH]; intros i; simpl.
  - apply emits_nil.
  - apply emits_app; [|apply IH]. unfold blockViolation. cbv zeta. emits_cases.
Qed.

Lemma service_emits output : emits "SERVICE_PHRASE_DETECTED" (serviceViolations output).
Proof.
  unfold serviceViolations. apply emits_flat_map. intros p. unfold serviceViolation.
  cbv zeta. emits_cases.
Qed.

(** A list that emits one code contributes nothing to the filter on another. *)
Lemma filter_other_code (c : jsstring) (c' : string) (l : list Violation) :
  js c' <> c -> emits c' l -> filter (hasCode c) l = [].
Proof.
  intros Hne H. induction H as [|v l Hv _ IH]; [reflexivity|].
  simpl. unfold hasCode at 1. rewrite Hv.
  destruct (jsstring_eqb (js c') c) eqn:E; [apply jsstring_eqb_eq in E; contradiction|].
  exact IH.
Qed.


(** ** The repair-scope resolver *)

Lemma validLocations_not_all (loc : jsstring) : In loc validLocations -> loc <> js "all".
Proof.
  unfold validLocations. simpl.
  intros [H|[H|[H|[H|[H|[H|[]]]]]]]; subst loc; vm_compute; discriminate.
Qed.

(** C5.  [determineRepairScope] sends the three cross-field codes to
    [{field: "all", requiresFullContext: true}], any other violation whose
    location is one of the known fields to [{field: location, requiresFullContext:
    false}], and everything else to the "all" scope; in every returned scope
    [requiresFullContext] is true exactly when [field] is "all". *)
Theorem determineRepairScope_classification (v : Violation) :
  (In (code v) fullContextCodes -> determineRepairScope v = scopeAll)
  /\ (~ In (code v) fullContextCodes -> In (location v) validLocations ->
      determineRepairScope v = {| field := location v; requiresFullContext := false |})
  /\ (~ In (code v) fullContextCodes -> ~ In (location v) validLocations ->
      determineRepairScope v = scopeAll)
  /\ (requiresFullContext (determineRepairScope v) = true
      <-> field (determineRepairScope v) = js "all").
Proof.
  unfold determineRepairScope, arrayIncludes.
  destruct (existsb (jsstring_eqb (code v)) fullContextCodes) eqn:Ec;
    [apply existsb_eqb_In in Ec | ];
    (destruct (existsb (jsstring_eqb (location v)) validLocations) eqn:El;
     [apply existsb_eqb_In in El | ]).
  - repeat split; auto; intros; contradiction.
  - repeat split; auto; intros; contradiction.
  - assert (Hc : ~ In (code v) fullContextCodes)
      by (intro H; apply existsb_eqb_In in H; congruence).
    repeat split; auto; try (intros; contradiction).
    + cbn [requiresFullContext field]. discriminate.
    + cbn [requiresFullContext field]. intros H. now apply validLocations_not_all in El.
  - assert (Hc : ~ In (code v) fullContextCodes)
      by (intro H; apply existsb_eqb_In in H; congruence).
    assert (Hl : ~ In (location v) validLocations)
      by (intro H; apply existsb_eqb_In in H; congruence).
    repeat split; auto; intros; contradiction.
Qed.

Lemma determineRepairScope_classification_witness :
  determineRepairScope (sampleViolation "TRIGRAM_DUPLICATION" "subject <-> preheader") = scopeAll
  /\ determineRepairScope (sampleViolation "CHAR_LIMIT_EXCEEDED" "preheader")
     = {| field := js "preheader"; requiresFullContext := false |}
  /\ determineRepairScope (sampleViolation "SERVICE_PHRASE_DETECTED" "output") = scopeAll.
Proof.
  split; [|split].
  - apply (proj1 (determineRepairScope_classification
                    (sampleViolation "TRIGRAM_DUPLICATION" "subject <-> preheader"))).
    vm_compute. right. left. reflexivity.
  - apply (proj1 (proj2 (determineRepairScope_classification
                           (sampleViolation "CHAR_LIMIT_EXCEEDED" "preheader")))).
    + vm_compute. intros [H|[H|[H|[]]]]; discriminate H.
    + vm_compute. right. left. reflexivity.
  - apply (proj1 (proj2 (proj2 (determineRepairScope_classification
                                  (sampleViolation "SERVICE_PHRASE_DETECTED" "output"))))).
    + vm_compute. intros [H|[H|[H|[]]]]; discriminate H.
    + vm_compute. intros [H|[H|[H|[H|[H|[H|[]]]]]]]; discriminate H.
Defined.

(** ** The trigram scenario *)

Lemma parse_trigramDraft : parseEmailOutput trigramDraft = Some trigramStructure.
Proof. vm_compute. reflexivity. Qed.

Lemma code_neq (a b : string) : jsstring_eqb (js a) (js b) = false -> js a <> js b.
Proof. apply jsstring_eqb_neq. Qed.

(** C9.  On the draft with the same three words under ТЕМА and ПРЕХЕДЕР the
    validator reports exactly one TRIGRAM_DUPLICATION, located at
    "subject <-> preheader", with evidence "раз два три"; and for every
    structure the trigram check visits each of the ten unordered pairs of the
    five key parts once. *)
Theorem trigram_duplication_scenario :
  (forall (parsedBrief : jsstring) (spec : Spec),
      filter (hasCode (js "TRIGRAM_DUPLICATION"))
             (violations (validateEmail trigramDraft parsedBrief spec))
      = [ {| code := js "TRIGRAM_DUPLICATION";
             severity := ERROR;
             message := js "Дублирование 3+ слов между subject и preheader";
             location := js "subject <-> preheader";
             evidence := js "раз два три";
             suggestedFix := Some (js "Переформулируйте один из фрагментов") |} ])
  /\ (forall s : Structure,
         map (fun p => (fst (fst p), fst (snd p))) (orderedPairs (keyParts s))
         = [ (js "subject", js "preheader"); (js "subject", js "bannerTitle");
             (js "subject", js "bannerSubtitle"); (js "subject", js "intro");
             (js "preheader", js "bannerTitle"); (js "preheader", js "bannerSubtitle");
             (js "preheader", js "intro"); (js "bannerTitle", js "bannerSubtitle");
             (js "bannerTitle", js "intro"); (js "bannerSubtitle", js "intro") ]).
Proof.
  split.
  - intros parsedBrief spec. unfold validateEmail. rewrite parse_trigramDraft.
    cbv beta iota zeta. cbn [violations]. unfold collectViolations. cbv zeta.
    rewrite filter_app.
    rewrite (filter_other_code (c' := "VARIANT_COUNT_INSUFFICIENT"));
      [ | apply code_neq; vm_compute; reflexivity | apply variantCounts_emit ].
    vm_compute. reflexivity.
  - intros s. reflexivity.
Qed.

(** ** The «купить» check *)







(** ** The verdict *)

Lemma no_errors_iff (l : list Violation) :
  Nat.eqb (List.length (filter isError l)) 0 = true
  <-> forall v, In v l -> severity v <> ERROR.
Proof.
  induction l as [|x l IH]; simpl.
  - split; [intros _ v [] | reflexivity].
  - unfold isError at 1. destruct (severity x) eqn:E; simpl.
    + split; [discriminate | intros H; exfalso; apply (H x); [now left | exact E]].
    + rewrite IH. split.
      * intros H v [->|Hv]; [congruence | now apply H].
      * intros H v Hv. apply H. now right.
    + rewrite IH. split.
      * intros H v [->|Hv]; [congruence | now apply H].
      * intros H v Hv. apply H. now right.
Qed.

Lemma balanced_incChecks a : balanced a -> balanced (ValidatorMultiformat.incChecks a).
Proof. exact (fun H => H). Qed.

Lemma balanced_error a v :
  balanced a -> severity v = ERROR -> balanced (ValidatorMultiformat.incErrors (ValidatorMultiformat.push v a)).
Proof.
  unfold balanced. simpl. intros H E. rewrite filter_app, length_app. simpl.
  unfold isError at 2. rewrite E. simpl. lia.
Qed.

Lemma balanced_warning a v :
  balanced a -> severity v = WARNING -> balanced (ValidatorMultiformat.incWarnings (ValidatorMultiformat.push v a)).
Proof.
  unfold balanced. simpl. intros H E. rewrite filter_app, length_app. simpl.
  unfold isError at 2. rewrite E. simpl. lia.
Qed.

Lemma balanced_when (c : bool) f a :
  (forall a', balanced a' -> balanced (f a')) -> balanced a -> balanced (ValidatorMultiformat.when c f a).
Proof. intros Hf Ha. destruct c; simpl; auto. Qed.

Lemma balanced_forEach {A} (f : A -> nat -> ValidatorMultiformat.Acc -> ValidatorMultiformat.Acc) (l : list A) :
  (forall x i a, balanced a -> balanced (f x i a)) ->
  forall i a, balanced a -> balanced (ValidatorMultiformat.forEach f i l a).
Proof.
  intros Hf. induction l as [|x l IH]; intros i a Ha; simpl; [exact Ha|].
  apply IH. now apply Hf.
Qed.

Lemma balanced_fold_left {A} (f : ValidatorMultiformat.Acc -> A -> ValidatorMultiformat.Acc) (l : list A) :
  (forall a x, balanced a -> balanced (f a x)) ->
  forall a, balanced a -> balanced (fold_left f l a).
Proof.
  intros Hf. induction l as [|x l IH]; intros a Ha; simpl; [exact Ha|].
  apply IH. now apply Hf.
Qed.

Ltac balance :=
  repeat match goal with
         | |- balanced _ => assumption
         | |- balanced (match ?x with _ => _ end) => destruct x
         | |- balanced (ValidatorMultiformat.incChecks _) => apply balanced_incChecks
         | |- balanced (ValidatorMultiformat.incErrors (ValidatorMultiformat.push _ _)) => apply balanced_error; [ | reflexivity ]
         | |- balanced (ValidatorMultiformat.incWarnings (ValidatorMultiformat.push _ _)) =>
             apply balanced_warning; [ | reflexivity ]
         | |- balanced (ValidatorMultiformat.when _ _ _) => apply balanced_when; [ intros | ]
         end.

Lemma balanced_checkPush section v i a : balanced a -> balanced (ValidatorMultiformat.checkPush section v i a).
Proof. intros H. unfold ValidatorMultiformat.checkPush. cbv zeta. balance. Qed.

Lemma balanced_checkSms section v i a : balanced a -> balanced (ValidatorMultiformat.checkSms section v i a).
Proof. intros H. unfold ValidatorMultiformat.checkSms. cbv zeta. balance. Qed.

Lemma balanced_checkYandex v i a : balanced a -> balanced (ValidatorMultiformat.checkYandex v i a).
Proof. intros H. unfold ValidatorMultiformat.checkYandex. cbv zeta. balance. Qed.

Lemma balanced_checkOnboarding v i a : balanced a -> balanced (ValidatorMultiformat.checkOnboarding v i a).
Proof. intros H. unfold ValidatorMultiformat.checkOnboarding. cbv zeta. balance. Qed.

Lemma balanced_checkLanding v i a : balanced a -> balanced (ValidatorMultiformat.checkLanding v i a).
Proof. intros H. unfold ValidatorMultiformat.checkLanding. cbv zeta. balance. Qed.

Lemma balanced_checkTextMax c msg key limit v i a :
  balanced a -> balanced (ValidatorMultiformat.checkTextMax c msg key limit v i a).
Proof. intros H. unfold ValidatorMultiformat.checkTextMax. cbv zeta. balance. Qed.

Lemma balanced_checkLengthLimits sections a :
  balanced a -> balanced (ValidatorMultiformat.checkLengthLimits sections a).
Proof.
  intros H. unfold ValidatorMultiformat.checkLengthLimits. cbv zeta.
  repeat match goal with
         | |- balanced _ => assumption
         | |- balanced (ValidatorMultiformat.forEach _ _ _ _) => apply balanced_forEach; [ intros | ]
         | |- balanced (fold_left _ _ _) => apply balanced_fold_left; [ intros | ]
         | |- balanced (ValidatorMultiformat.checkPush _ _ _ _) => apply balanced_checkPush
         | |- balanced (ValidatorMultiformat.checkSms _ _ _ _) => apply balanced_checkSms
         | |- balanced (ValidatorMultiformat.checkYandex _ _ _) => apply balanced_checkYandex
         | |- balanced (ValidatorMultiformat.checkOnboarding _ _ _) => apply balanced_checkOnboarding
         | |- balanced (ValidatorMultiformat.checkLanding _ _ _) => apply balanced_checkLanding
         | |- balanced (ValidatorMultiformat.checkTextMax _ _ _ _ _ _ _) => apply balanced_checkTextMax
         end.
Qed.

Lemma balanced_checkSMSAlcoholRestrictions sections a :
  balanced a -> balanced (ValidatorMultiformat.checkSMSAlcoholRestrictions sections a).
Proof.
  intros H. unfold ValidatorMultiformat.checkSMSAlcoholRestrictions.
  apply balanced_fold_left; [|exact H]. intros a' section Ha'.
  apply balanced_forEach; [|exact Ha']. intros v i a'' Ha''.
  unfold ValidatorMultiformat.checkSmsAlcohol. cbv zeta. balance.
Qed.

Lemma balanced_checkStickyTimerFormat sections a :
  balanced a -> balanced (ValidatorMultiformat.checkStickyTimerFormat sections a).
Proof.
  intros H. unfold ValidatorMultiformat.checkStickyTimerFormat.
  apply balanced_forEach; [|exact H]. intros v i a' Ha'.
  unfold ValidatorMultiformat.checkStickyTimer. cbv zeta. balance.
Qed.

Lemma balanced_checkAbbreviations content a :
  balanced a -> balanced (ValidatorMultiformat.checkAbbreviations content a).
Proof.
  intros H. unfold ValidatorMultiformat.checkAbbreviations.
  apply balanced_fold_left; [|now apply balanced_incChecks]. intros a' p Ha'.
  unfold ValidatorMultiformat.checkAbbreviation.
  destruct (matchG f_i p content) as [[|m0 ms]|]; balance.
Qed.

Lemma balanced_checkForbiddenNapitok content a :
  balanced a -> balanced (ValidatorMultiformat.checkForbiddenNapitok content a).
Proof. intros H. unfold ValidatorMultiformat.checkForbiddenNapitok. cbv zeta. balance. Qed.

Lemma balanced_checkCTARules content a : balanced a -> balanced (ValidatorMultiformat.checkCTARules content a).
Proof. intros H. unfold ValidatorMultiformat.checkCTARules. cbv zeta. balance. Qed.

Lemma balanced_checkMessageConsistency sections a :
  balanced a -> balanced (ValidatorMultiformat.checkMessageConsistency sections a).
Proof. intros H. unfold ValidatorMultiformat.checkMessageConsistency. cbv zeta. balance. Qed.

Lemma balanced_runChecks content : balanced (ValidatorMultiformat.runChecks content).
Proof.
  unfold ValidatorMultiformat.runChecks. cbv zeta.
  apply balanced_checkMessageConsistency, balanced_checkCTARules,
    balanced_checkForbiddenNapitok, balanced_checkAbbreviations,
    balanced_checkStickyTimerFormat, balanced_checkSMSAlcoholRestrictions,
    balanced_checkLengthLimits.
  reflexivity.
Qed.

(** C4.  In both validators the verdict is true exactly when no violation in
    the returned list has severity ERROR; WARNING and INFO entries never
    change it. *)
Theorem verdict_iff_no_error :
  (forall (output parsedBrief : jsstring) (spec : Spec),
      valid (validateEmail output parsedBrief spec) = true
      <-> forall v, In v (violations (validateEmail output parsedBrief spec)) ->
                    severity v <> ERROR)
  /\ (forall (Brief : Type) (generatedContent : jsstring) (parsedBrief : Brief),
         ValidatorMultiformat.isValid (ValidatorMultiformat.validateMultiformat generatedContent parsedBrief) = true
         <-> forall v, In v (ValidatorMultiformat.resultViolations
                               (ValidatorMultiformat.validateMultiformat generatedContent parsedBrief)) ->
                       severity v <> ERROR).
Proof.
  split.
  - intros output parsedBrief spec. unfold validateEmail.
    destruct (parseEmailOutput output) as [s|].
    + cbv zeta. cbn [valid violations]. apply no_errors_iff.
    + cbn [valid violations]. split; [discriminate|].
      intros H. exfalso. apply (H (parseFailed output)); [now left | reflexivity].
  - intros Brief generatedContent parsedBrief. unfold ValidatorMultiformat.validateMultiformat.
    cbv zeta. cbn [ValidatorMultiformat.isValid ValidatorMultiformat.resultViolations].
    pose proof (balanced_runChecks generatedContent) as B. unfold balanced in B.
    rewrite B. apply no_errors_iff.
Qed.

(** ** Field replacement *)

(** A list splits at the first element that satisfies a test. *)
Lemma split_at_first {A} (P : A -> bool) (l : list A) :
  exists pre post,
    l = pre ++ post
    /\ (forall x, In x pre -> P x = false)
    /\ (post = [] \/ exists h post', post = h :: post' /\ P h = true).
Proof.
  induction l as [|x l IH].
  - exists [], []. repeat split; [intros x [] | now left].
  - destruct (P x) eqn:E.
    + exists [], (x :: l). repeat split; [intros y [] | right; now exists x, l].
    + destruct IH as (pre & post & Hl & Hpre & Hpost).
      exists (x :: pre), post. repeat split; [now rewrite Hl | | exact Hpost].
      intros y [<-|Hy]; [exact E | now apply Hpre].
Qed.

Lemma firstn_length_app {A} (n : nat) (a b : list A) :
  n = List.length a -> firstn n (a ++ b) = a.
Proof.
  intros ->. replace (List.length a) with (List.length a + 0)%nat by lia.
  rewrite firstn_app_2. simpl. apply app_nil_r.
Qed.

Lemma skipn_length_app {A} (n : nat) (a b : list A) :
  n = List.length a -> skipn n (a ++ b) = b.
Proof.
  intros ->. rewrite skipn_app, skipn_all, Nat.sub_diag. reflexivity.
Qed.


Lemma findBounds_inside p body post i b :
  inSection b = true ->
  (forall l, In l body -> isNewSection (trim l) = false) ->
  headIs (fun l => isNewSection (trim l)) post ->
  findBounds p (body ++ post) i b
  = match post with
    | [] => b
    | _ :: _ => {| inSection := inSection b; sectionStart := sectionStart b;
                   sectionEnd := i + Z.of_nat (List.length body) |}
    end.
Proof.
  intros Hb. revert i. induction body as [|l body IH]; intros i Hbody Hpost.
  - cbn [app]; simpl List.length. destruct Hpost as [->|(h & post' & -> & Hh)]; [reflexivity|].
    cbn [findBounds]. cbv zeta. rewrite Hb. cbn [negb andb]. rewrite Hh.
    now rewrite Z.add_0_r.
  - cbn [app findBounds]. cbv zeta. rewrite Hb. cbn [negb andb].
    rewrite (Hbody l) by now left.
    rewrite IH; [| intros l' Hl'; apply Hbody; now right | exact Hpost].
    destruct post; [reflexivity|]. f_equal; [exact Hb | simpl List.length; lia].
Qed.

Lemma findBounds_located p pre hdr body post i e :
  (forall l, In l pre -> test f_i p (trim l) = false) ->
  test f_i p (trim hdr) = true ->
  (forall l, In l body -> isNewSection (trim l) = false) ->
  headIs (fun l => isNewSection (trim l)) post ->
  findBounds p (pre ++ (hdr :: body) ++ post) i
             {| inSection := false; sectionStart := -1; sectionEnd := e |}
  = {| inSection := true;
       sectionStart := i + Z.of_nat (List.length pre);
       sectionEnd := match post with
                     | [] => e
                     | _ :: _ => i + Z.of_nat (List.length pre) + 1
                                 + Z.of_nat (List.length body)
                     end |}.
Proof.
  intros Hpre Hhdr Hbody Hpost. revert i.
  induction pre as [|l pre IH]; intros i.
  - cbn [app findBounds]; simpl List.length. cbv zeta. cbn [inSection negb andb]. rewrite Hhdr.
    cbn [andb]. rewrite findBounds_inside; [| reflexivity | exact Hbody | exact Hpost].
    cbn [inSection sectionStart sectionEnd].
    destruct post; f_equal; lia.
  - cbn [app findBounds]. cbv zeta. cbn [inSection negb]. rewrite (Hpre l) by now left.
    cbn [andb]. rewrite IH by (intros l' Hl'; apply Hpre; now right).
    simpl List.length. destruct post; f_equal; lia.
Qed.




Example replaceField_sample :
  replaceField sampleOutput (js "subject") sampleNew
  = js "ТЕМА — 3 варианта" ++ lf ++ js "1. Новое" ++ lf ++ lf
    ++ js "ПРЕХЕДЕР — 3 варианта" ++ lf ++ js "1. Текст".
Proof. vm_compute. reflexivity. Qed.

(** ** The repair loops *)

Section LoopFacts.

Variable Brief : Type.
Variable Prompt : Type.
Variable briefMissing : Brief -> bool.
Variable callLLM : nat -> Prompt -> LLMResult.
Variable composeGenerationPrompt : Brief -> Prompt.
Variable composeRepairPrompt : Brief -> jsstring -> list Violation -> Prompt.
Variable validate : Brief -> jsstring -> ValidationResult.
Variable composeMultiformatGenerationPrompt : Brief -> Prompt.
Variable composeMultiformatRepairPrompt : jsstring -> list Violation -> Brief -> Prompt.
Variable validateMultiformat : jsstring -> Brief -> ValidatorMultiformat.Result.

Local Abbreviation emailLoop := (emailRepairLoop callLLM composeRepairPrompt validate).
Local Abbreviation emailSession :=
  (generateEmail briefMissing callLLM composeGenerationPrompt composeRepairPrompt validate).
Local Abbreviation emailRest := (emailAfterFirstDraft callLLM composeRepairPrompt validate).
Local Abbreviation multiformatLoop :=
  (multiformatRepairLoop callLLM composeMultiformatRepairPrompt validateMultiformat).
Local Abbreviation multiformatSession :=
  (generateMultiformat briefMissing callLLM composeMultiformatGenerationPrompt
                       composeMultiformatRepairPrompt validateMultiformat).

(** C7.  In both orchestrators a generation failure at attempt 1 makes the
    session throw; a failure at a repair attempt is caught: the iteration leaves
    the session state as it was and the loop goes on with the next attempt
    index; and once the first generation has succeeded the session always
    returns a result. *)
Theorem generation_failure_semantics :
  (forall brief settings m,
      briefMissing brief = false -> truthy (apiKey settings) = true ->
      callLLM 1 (composeMultiformatGenerationPrompt brief) = Failure m ->
      multiformatSession brief settings = Throw (js "Ошибка генерации: " ++ m))
  /\ (forall brief settings m,
         briefMissing brief = false -> truthy (apiKey settings) = true ->
         callLLM 1 (composeGenerationPrompt brief) = Failure m ->
         emailSession brief settings = Throw (js "Initial generation failed: " ++ m))
  /\ (forall brief remaining attempt st m,
         callLLM attempt
           (composeMultiformatRepairPrompt (lastDraft st)
              (ValidatorMultiformat.resultViolations (lastValidation st)) brief) = Failure m ->
         multiformatLoop brief (S remaining) attempt st
         = multiformatLoop brief remaining (S attempt) st)
  /\ (forall brief remaining attempt st m,
         callLLM attempt
           (composeRepairPrompt brief (lastDraft st) (violations (lastValidation st)))
         = Failure m ->
         emailLoop brief (S remaining) attempt st = emailLoop brief remaining (S attempt) st)
  /\ (forall brief settings d,
         briefMissing brief = false -> truthy (apiKey settings) = true ->
         callLLM 1 (composeMultiformatGenerationPrompt brief) = Content d ->
         exists r, multiformatSession brief settings = Return r)
  /\ (forall brief settings d,
         briefMissing brief = false -> truthy (apiKey settings) = true ->
         callLLM 1 (composeGenerationPrompt brief) = Content d ->
         exists r, emailSession brief settings = Return r).
Proof.
  repeat apply conj.
  - intros brief settings m Hb Hk Hf. unfold generateMultiformat.
    rewrite Hb, Hk, Hf. reflexivity.
  - intros brief settings m Hb Hk Hf. unfold generateEmail.
    rewrite Hb, Hk, Hf. reflexivity.
  - intros brief remaining attempt st m Hf.
    simpl. rewrite Hf. reflexivity.
  - intros brief remaining attempt st m Hf.
    simpl. rewrite Hf. reflexivity.
  - intros brief settings d Hb Hk Hc. unfold generateMultiformat.
    rewrite Hb, Hk, Hc. eexists. reflexivity.
  - intros brief settings d Hb Hk Hc. unfold generateEmail.
    rewrite Hb, Hk, Hc. eexists. reflexivity.
Qed.

(** *** Best-attempt selection in [generateEmail] *)

(** The fold picks the first element with the least error count. *)
Lemma fold_pickBetter_earliest (h : list (Attempt ValidationResult)) :
  forall best,
    exists l1 l2,
      best :: h = l1 ++ fold_left pickBetter h best :: l2
      /\ (forall a, In a l1 -> errorsOf (fold_left pickBetter h best) < errorsOf a)
      /\ (forall a, In a l2 -> errorsOf (fold_left pickBetter h best) <= errorsOf a).
Proof.
  induction h as [|x h IH]; intros best.
  - exists [], []. repeat split; intros a [].
  - cbn [fold_left]. unfold pickBetter at 2 4 6.
    fold (errorsOf x). fold (errorsOf best).
    destruct (Nat.ltb_spec (errorsOf x) (errorsOf best)) as [Hlt|Hge].
    + destruct (IH x) as (l1 & l2 & Heq & H1 & H2).
      remember (fold_left pickBetter h x) as b eqn:Eb.
      exists (best :: l1), l2. split; [simpl; now rewrite Heq|]. split; [|exact H2].
      intros a [<-|Ha]; [|now apply H1].
      destruct l1 as [|y l1'].
      * injection Heq as Hx _. rewrite <- Hx. exact Hlt.
      * injection Heq as Hx _. subst y.
        specialize (H1 x (or_introl eq_refl)). lia.
    + destruct (IH best) as (l1 & l2 & Heq & H1 & H2).
      remember (fold_left pickBetter h best) as b eqn:Eb.
      destruct l1 as [|y l1'].
      * injection Heq as Hb Hh. exists [], (x :: h). split; [simpl; now rewrite Hb|].
        split; [intros a []|].
        intros a [<-|Ha]; [rewrite <- Hb; exact Hge|].
        apply H2. rewrite <- Hh. exact Ha.
      * injection Heq as Hy Hh. subst y.
        exists (best :: x :: l1'), l2. split; [simpl; now rewrite Hh|]. split; [|exact H2].
        pose proof (H1 best (or_introl eq_refl)) as Hbest.
        intros a [<-|[<-|Ha]]; [exact Hbest | lia | apply H1; now right].
Qed.

Lemma bestAttempt_earliest_minimum first rest :
  exists l1 l2,
    first :: rest = l1 ++ bestAttempt first (first :: rest) :: l2
    /\ (forall a, In a l1 -> errorsOf (bestAttempt first (first :: rest)) < errorsOf a)
    /\ (forall a, In a l2 -> errorsOf (bestAttempt first (first :: rest)) <= errorsOf a).
Proof.
  unfold bestAttempt. cbn [fold_left]. unfold pickBetter at 2 4 6.
  rewrite Nat.ltb_irrefl. apply fold_pickBetter_earliest.
Qed.

(** The loops only append to the history. *)
Lemma emailLoop_history brief remaining :
  forall attempt st st',
    emailLoop brief remaining attempt st = Finished st' ->
    exists more, attemptHistory st' = attemptHistory st ++ more.
Proof.
  induction remaining as [|remaining IH]; intros attempt st st' H; simpl in H.
  - injection H as <-. exists []. now rewrite app_nil_r.
  - destruct (callLLM attempt _) as [d|m]; [|now apply IH in H].
    cbv zeta in H. destruct (valid (validate brief d)); [discriminate|].
    destruct (_ && _).
    + injection H as <-. cbn [attemptHistory]. eexists. reflexivity.
    + apply IH in H. destruct H as (more & ->). cbn [attemptHistory].
      rewrite <- app_assoc. eexists. reflexivity.
Qed.

(** What [generateEmail] returns when no attempt validated: the earliest
    attempt of the history with the fewest ERROR violations. *)
Lemma emailRest_returns_best brief MAX d :
  success (emailRest brief MAX d) = false ->
  exists history l1 best l2,
    history = l1 ++ best :: l2
    /\ hd_error history = Some {| attempt := 1; draft := d; validation := validate brief d |}
    /\ attempts (emailRest brief MAX d) = List.length history
    /\ content (emailRest brief MAX d) = draft best
    /\ Orchestrator.resultViolations (emailRest brief MAX d) = violations (validation best)
    /\ (forall a, In a l1 -> errorsOf best < errorsOf a)
    /\ (forall a, In a l2 -> errorsOf best <= errorsOf a).
Proof.
  unfold emailAfterFirstDraft. cbv zeta.
  destruct (valid (validate brief d)); [discriminate|].
  destruct (emailRepairLoop _ _ _ _ _ _ _) as [r|st] eqn:E.
  - intros Hs. exfalso. revert E Hs. generalize 2%nat.
    generalize ({| lastDraft := d; lastValidation := validate brief d;
                   attemptHistory := [ {| attempt := 1; draft := d;
                                          validation := validate brief d |} ] |}).
    induction (MAX - 1)%nat as [|n IH]; intros st0 k E Hs; simpl in E;
      [discriminate|].
    destruct (callLLM k _) as [d'|m]; [|now apply IH in E].
    cbv zeta in E. destruct (valid (validate brief d')).
    + injection E as <-. discriminate.
    + destruct (_ && _); [discriminate | now apply IH in E].
  - intros _. apply emailLoop_history in E. destruct E as (more & Hh).
    cbn [attemptHistory app] in Hh.
    unfold emailBestEffort. cbv zeta. cbn [success content attempts Orchestrator.resultViolations].
    rewrite Hh.
    destruct (bestAttempt_earliest_minimum
                {| attempt := 1; draft := d; validation := validate brief d |} more)
      as (l1 & l2 & Heq & H1 & H2).
    eexists _, l1, _, l2. split; [exact Heq|].
    repeat split; assumption.
Qed.

End LoopFacts.

Lemma generation_failure_semantics_witness :
  runMultiformat [] = Throw (js "Ошибка генерации: " ++ js "network error")
  /\ runEmail [] = Throw (js "Initial generation failed: " ++ js "network error")
  /\ (forall st,
         multiformatRepairLoop (scripted [multiformat3]) (fun _ _ (_ : unit) => tt)
           (fun d b => ValidatorMultiformat.validateMultiformat d b) tt 2 2 st
         = multiformatRepairLoop (scripted [multiformat3]) (fun _ _ (_ : unit) => tt)
             (fun d b => ValidatorMultiformat.validateMultiformat d b) tt 1 3 st)
  /\ (forall st,
         emailRepairLoop (scripted [email3]) (fun (_ : unit) _ _ => tt)
           (fun _ d => validateEmail d [] defaultSpec) tt 2 2 st
         = emailRepairLoop (scripted [email3]) (fun (_ : unit) _ _ => tt)
             (fun _ d => validateEmail d [] defaultSpec) tt 1 3 st)
  /\ (exists r, runMultiformat [multiformat3] = Return r)
  /\ (exists r, runEmail [email3] = Return r).
Proof.
  pose proof (@generation_failure_semantics unit unit (fun _ => false) (scripted [])
                (fun _ => tt) (fun _ _ _ => tt) (fun _ d => validateEmail d [] defaultSpec)
                (fun _ => tt) (fun _ _ _ => tt)
                (fun d b => ValidatorMultiformat.validateMultiformat d b))
    as (H1 & H2 & _).
  pose proof (@generation_failure_semantics unit unit (fun _ => false) (scripted [multiformat3])
                (fun _ => tt) (fun _ _ _ => tt) (fun _ d => validateEmail d [] defaultSpec)
                (fun _ => tt) (fun _ _ _ => tt)
                (fun d b => ValidatorMultiformat.validateMultiformat d b))
    as (_ & _ & H3 & _ & H5 & _).
  pose proof (@generation_failure_semantics unit unit (fun _ => false) (scripted [email3])
                (fun _ => tt) (fun _ _ _ => tt) (fun _ d => validateEmail d [] defaultSpec)
                (fun _ => tt) (fun _ _ _ => tt)
                (fun d b => ValidatorMultiformat.validateMultiformat d b))
    as (_ & _ & _ & H4 & _ & H6).
  split; [apply (H1 tt settingsOn (js "network error")); reflexivity|].
  split; [apply (H2 tt settingsOn (js "network error")); reflexivity|].
  split; [intros st; apply (H3 tt 1 2 st (js "network error")); reflexivity|].
  split; [intros st; apply (H4 tt 1 2 st (js "network error")); reflexivity|].
  split; [apply (H5 tt settingsOn multiformat3); reflexivity|].
  apply (H6 tt settingsOn email3); reflexivity.
Defined.

(** *** What [generateMultiformat] does when it gives up *)

Section MultiformatLoopFacts.

Variable Brief : Type.
Variable Prompt : Type.
Variable callLLM : nat -> Prompt -> LLMResult.
Variable composeMultiformatRepairPrompt : jsstring -> list Violation -> Brief -> Prompt.
Variable validateMultiformat : jsstring -> Brief -> ValidatorMultiformat.Result.

Local Abbreviation multiformatLoop :=
  (multiformatRepairLoop callLLM composeMultiformatRepairPrompt validateMultiformat).

(** The loop keeps [lastDraft] and [lastValidation] equal to the last entry of
    the history. *)
Lemma multiformatLoop_endsWithLast brief remaining :
  forall attempt st st',
    endsWithLast st ->
    multiformatLoop brief remaining attempt st = Finished st' ->
    endsWithLast st'.
Proof.
  induction remaining as [|remaining IH]; intros attempt st st' Hst H; simpl in H.
  - now injection H as <-.
  - destruct (callLLM attempt _) as [d|m]; [|now apply IH in H].
    destruct (ValidatorMultiformat.isValid (validateMultiformat d brief)); [discriminate|].
    apply IH in H; [exact H|].
    exists (attemptHistory st), attempt. reflexivity.
Qed.

(** When it gives up, [generateMultiformat] returns the last recorded attempt. *)
Lemma multiformat_gives_up_with_last_attempt brief settings MAX d :
  enableRepairLoop settings = true ->
  mfSuccess (multiformatAfterFirstDraft callLLM composeMultiformatRepairPrompt
               validateMultiformat brief settings MAX d) = false ->
  exists hs a,
    mfAttemptHistory (multiformatAfterFirstDraft callLLM composeMultiformatRepairPrompt
                        validateMultiformat brief settings MAX d) = hs ++ [a]
    /\ mfContent (multiformatAfterFirstDraft callLLM composeMultiformatRepairPrompt
                    validateMultiformat brief settings MAX d) = draft a
    /\ mfViolations (multiformatAfterFirstDraft callLLM composeMultiformatRepairPrompt
                       validateMultiformat brief settings MAX d)
       = ValidatorMultiformat.resultViolations (validation a).
Proof.
  intros Hon. unfold multiformatAfterFirstDraft. cbv zeta. rewrite Hon. cbn [negb].
  rewrite orb_false_r.
  destruct (ValidatorMultiformat.isValid (validateMultiformat d brief)) eqn:Ev;
    [cbn [mfSuccess]; discriminate|].
  destruct (multiformatRepairLoop _ _ _ _ _ _ _) as [r|st] eqn:E.
  - intros Hs. exfalso. revert E Hs. generalize 2%nat.
    generalize ({| lastDraft := d; lastValidation := validateMultiformat d brief;
                   attemptHistory := [ {| attempt := 1; draft := d;
                                          validation := validateMultiformat d brief |} ] |}).
    induction (MAX - 1)%nat as [|n IH]; intros st0 k E Hs; simpl in E; [discriminate|].
    destruct (callLLM k _) as [d'|m]; [|now apply IH in E].
    destruct (ValidatorMultiformat.isValid (validateMultiformat d' brief)).
    + injection E as <-. discriminate.
    + now apply IH in E.
  - intros _. apply multiformatLoop_endsWithLast in E.
    + destruct E as (hs & k & Hh). cbn [mfAttemptHistory mfContent mfViolations].
      eexists hs, _. split; [exact Hh|]. split; reflexivity.
    + exists [], 1. reflexivity.
Qed.

(** The loop makes no signature comparison: as long as the drafts are invalid
    it records one attempt per remaining iteration. *)
Lemma multiformatLoop_spends_budget brief remaining :
  (forall k p, exists d,
      callLLM k p = Content d
      /\ ValidatorMultiformat.isValid (validateMultiformat d brief) = false) ->
  forall attempt st,
    exists st',
      multiformatLoop brief remaining attempt st = Finished st'
      /\ List.length (attemptHistory st') = List.length (attemptHistory st) + remaining.
Proof.
  intros Hgen. induction remaining as [|remaining IH]; intros attempt st.
  - exists st. split; [reflexivity | lia].
  - destruct (Hgen attempt
                (composeMultiformatRepairPrompt (lastDraft st)
                   (ValidatorMultiformat.resultViolations (lastValidation st)) brief))
      as (d & Hc & Hv).
    simpl. rewrite Hc, Hv.
    match goal with
    | |- exists st', multiformatRepairLoop _ _ _ _ _ _ ?s = _ /\ _ =>
        destruct (IH (S attempt) s) as (st' & Hl & Hn)
    end.
    exists st'. split; [exact Hl|]. rewrite Hn. cbn [attemptHistory].
    rewrite length_app. simpl List.length. lia.
Qed.

End MultiformatLoopFacts.

(** *** Scripted sessions *)

(** C1.  With three drafts whose ERROR counts are 3, 1 and 2,
    [generateMultiformat] returns the last draft (2 errors) although attempt 2
    has fewer; [generateEmail], run on drafts with the same counts, returns
    attempt 2. *)
Theorem multiformat_returns_last_attempt :
  map multiformatErrors [multiformat3; multiformat1; multiformat2] = [3; 1; 2]
  /\ (exists r,
         runMultiformat [multiformat3; multiformat1; multiformat2] = Return r
         /\ mfSuccess r = false
         /\ map (fun a => (attempt a, draft a)) (mfAttemptHistory r)
            = [(1, multiformat3); (2, multiformat1); (3, multiformat2)]
         /\ mfContent r = multiformat2
         /\ errorCount (mfViolations r) = 2)
  /\ map emailErrors [email3; email1; email2] = [3; 1; 2]
  /\ (exists r,
         runEmail [email3; email1; email2] = Return r
         /\ success r = false
         /\ attempts r = 3
         /\ content r = email1
         /\ errorCount (Orchestrator.resultViolations r) = 1).
Proof.
  split; [vm_compute; reflexivity|].
  split; [eexists; split; [vm_compute; reflexivity|]; cbn; repeat split; vm_compute; reflexivity|].
  split; [vm_compute; reflexivity|].
  eexists. split; [vm_compute; reflexivity|]. cbn; repeat split; vm_compute; reflexivity.
Qed.

(** *** Signature repetition *)

(** C2, as stated, fails: attempts 1 and 2 below have the same violation
    signature, yet the loop goes on to attempt 3 (whose draft validates). *)
Lemma repeat_at_second_attempt_not_detected :
  signatureOf (validateEmail (js "x") [] defaultSpec)
  = signatureOf (validateEmail (js "y") [] defaultSpec)
  /\ valid (validateEmail (js "x") [] defaultSpec) = false
  /\ valid (validateEmail (js "y") [] defaultSpec) = false
  /\ exists r,
       runEmail [js "x"; js "y"; completeEmail] = Return r
       /\ success r = true /\ attempts r = 3 /\ content r = completeEmail.
Proof.
  split; [vm_compute; reflexivity|].
  split; [vm_compute; reflexivity|].
  split; [vm_compute; reflexivity|].
  eexists. split; [vm_compute; reflexivity|]. cbn; repeat split; vm_compute; reflexivity.
Qed.

Section Convergence.

Variable Brief : Type.
Variable Prompt : Type.
Variable callLLM : nat -> Prompt -> LLMResult.
Variable composeRepairPrompt : Brief -> jsstring -> list Violation -> Prompt.
Variable validate : Brief -> jsstring -> ValidationResult.

Local Abbreviation recorded := (recordedWith validate).

Lemma secondToLast_snoc (hs : list (Attempt ValidationResult)) prev cur :
  secondToLast ((hs ++ [prev]) ++ [cur]) = Some prev.
Proof.
  unfold secondToLast. rewrite !length_app. simpl List.length.
  destruct (Nat.ltb_spec (List.length hs + 1 + 1) 2) as [H|_]; [lia|].
  replace (List.length hs + 1 + 1 - 2)%nat with (List.length hs) by lia.
  rewrite <- app_assoc. rewrite nth_error_app2 by lia.
  now rewrite Nat.sub_diag.
Qed.

Lemma loop_second_attempt brief remaining st d :
  callLLM 2 (composeRepairPrompt brief (lastDraft st) (violations (lastValidation st)))
  = Content d ->
  valid (validate brief d) = false ->
  emailRepairLoop callLLM composeRepairPrompt validate brief (S remaining) 2 st
  = emailRepairLoop callLLM composeRepairPrompt validate brief remaining 3
      (recorded brief 2 d st).
Proof. intros Hc Hv. simpl. rewrite Hc, Hv. reflexivity. Qed.

Lemma loop_repeat_stops brief remaining k st d hs prev :
  2 < k ->
  callLLM k (composeRepairPrompt brief (lastDraft st) (violations (lastValidation st)))
  = Content d ->
  valid (validate brief d) = false ->
  attemptHistory st = hs ++ [prev] ->
  signatureOf (validation prev) = signatureOf (validate brief d) ->
  emailRepairLoop callLLM composeRepairPrompt validate brief (S remaining) k st
  = Finished (recorded brief k d st).
Proof.
  intros Hk Hc Hv Hh Hs. simpl. rewrite Hc, Hv.
  destruct (Nat.ltb_spec 2 k) as [_|H]; [|lia]. cbn [andb].
  unfold signatureRepeats. rewrite Hh, secondToLast_snoc.
  unfold signatureOf in Hs. rewrite Hs.
  destruct (jsstring_eqb _ _) eqn:E; [|apply jsstring_eqb_neq in E; congruence].
  unfold recordedWith. now rewrite Hh.
Qed.

(** C2, amended.  In [generateEmail] the signature comparison is made only at
    attempts with index above 2: an invalid attempt 2 never stops the loop,
    whatever its signature; an invalid attempt [k > 2] whose signature equals
    that of the previous recorded attempt ends the loop; so a generator that
    keeps producing invalid drafts with one signature is called for exactly
    three attempts, for every budget of at least three. *)
Theorem signature_compared_from_third_attempt :
  (forall brief remaining st d,
      callLLM 2 (composeRepairPrompt brief (lastDraft st) (violations (lastValidation st)))
      = Content d ->
      valid (validate brief d) = false ->
      emailRepairLoop callLLM composeRepairPrompt validate brief (S remaining) 2 st
      = emailRepairLoop callLLM composeRepairPrompt validate brief remaining 3
          (recorded brief 2 d st))
  /\ (forall brief remaining k st d hs prev,
         2 < k ->
         callLLM k (composeRepairPrompt brief (lastDraft st) (violations (lastValidation st)))
         = Content d ->
         valid (validate brief d) = false ->
         attemptHistory st = hs ++ [prev] ->
         signatureOf (validation prev) = signatureOf (validate brief d) ->
         emailRepairLoop callLLM composeRepairPrompt validate brief (S remaining) k st
         = Finished (recorded brief k d st))
  /\ (forall brief MAX d sig,
         3 <= MAX ->
         valid (validate brief d) = false ->
         (forall k p, exists dk,
             callLLM k p = Content dk
             /\ valid (validate brief dk) = false
             /\ signatureOf (validate brief dk) = sig) ->
         success (emailAfterFirstDraft callLLM composeRepairPrompt validate brief MAX d) = false
         /\ attempts (emailAfterFirstDraft callLLM composeRepairPrompt validate brief MAX d) = 3).
Proof.
  split; [exact (@loop_second_attempt)|]. split; [exact (@loop_repeat_stops)|].
  intros brief MAX d sig HM Hv Hgen.
  unfold emailAfterFirstDraft. cbv zeta. rewrite Hv.
  destruct MAX as [|[|[|n]]]; try lia.
  replace (S (S (S n)) - 1) with (S (S n)) by lia.
  set (a1 := {| attempt := 1; draft := d; validation := validate brief d |}).
  set (st1 := {| lastDraft := d; lastValidation := validate brief d;
                 attemptHistory := [a1] |}).
  destruct (Hgen 2 (composeRepairPrompt brief (lastDraft st1)
                      (violations (lastValidation st1)))) as (d2 & Hc2 & Hv2 & Hs2).
  rewrite (@loop_second_attempt brief (S n) st1 d2 Hc2 Hv2).
  set (st2 := recorded brief 2 d2 st1).
  destruct (Hgen 3 (composeRepairPrompt brief (lastDraft st2)
                      (violations (lastValidation st2)))) as (d3 & Hc3 & Hv3 & Hs3).
  rewrite (@loop_repeat_stops brief n 3 st2 d3 [a1]
             {| attempt := 2; draft := d2; validation := validate brief d2 |});
    [ | lia | exact Hc3 | exact Hv3 | reflexivity | cbn [validation]; congruence ].
  split; reflexivity.
Qed.

End Convergence.

Lemma signature_compared_from_third_attempt_witness :
  success (emailAfterFirstDraft (fun (_ : nat) (_ : unit) => Content (js "x"))
             (fun (_ : unit) _ _ => tt)
             (fun _ d => validateEmail d [] defaultSpec) tt 5 (js "x")) = false
  /\ attempts (emailAfterFirstDraft (fun (_ : nat) (_ : unit) => Content (js "x"))
                 (fun (_ : unit) _ _ => tt)
                 (fun _ d => validateEmail d [] defaultSpec) tt 5 (js "x")) = 3.
Proof.
  apply (proj2 (proj2 (signature_compared_from_third_attempt
                         (fun (_ : nat) (_ : unit) => Content (js "x"))
                         (fun (_ : unit) _ _ => tt)
                         (fun _ d => validateEmail d [] defaultSpec)))
           tt 5 (js "x") (signatureOf (validateEmail (js "x") [] defaultSpec))).
  - lia.
  - vm_compute. reflexivity.
  - intros k p. exists (js "x"). split; [reflexivity|].
    split; [vm_compute; reflexivity | reflexivity].
Defined.

(** ** Drafts without structure *)





(** The code emitted by each check, looked up by the head of the goal. *)
Ltac emitted :=
  lazymatch goal with
  | |- emits _ (degustatsiyaViolations _ _) => apply degustatsiya_emits
  | |- emits _ (kupitViolations _ _) => apply kupit_emits
  | |- emits _ (pokupkaViolations _ _) => apply pokupka_emits
  | |- emits _ (buketViolations _ _) => apply buket_emits
  | |- emits _ (poslevkusieViolations _ _) => apply poslevkusie_emits
  | |- emits _ (checkBannedCliches _ _) => apply cliches_emit
  | |- emits _ (checkGeographyLabels _ _) => apply geography_emits
  | |- emits _ (checkCharLimit _ _ _) => apply charLimit_emits
  | |- emits _ (checkEmojis _ _) => apply emojis_emit
  | |- emits _ (variantCountViolations _ _) => apply variantCounts_emit
  | |- emits _ (trigramViolations _) => apply trigram_emits
  | |- emits _ (exactEqualityViolations _) => apply exactEqualities_emit
  | |- emits _ (blockViolations _) => apply blocks_emit
  | |- emits _ (serviceViolations _) => apply service_emits
  end.









(** ** Length limits *)

(** What [checkCharLimit] reports for a text over the limit. *)
Lemma checkCharLimit_over (text : jsstring) (limit : nat) (loc : jsstring) :
  text <> [] -> limit < codePointLength text ->
  checkCharLimit text limit loc
  = [ {| code := js "CHAR_LIMIT_EXCEEDED";
         severity := ERROR;
         message := js "Превышен лимит символов: " ++ showNat (codePointLength text)
                      ++ js " > " ++ showNat limit;
         location := loc;
         evidence := text;
         suggestedFix := Some (js "Сократите на " ++ showNat (codePointLength text - limit)
                                 ++ js " символов") |} ].
Proof.
  intros Hne Hlt. unfold checkCharLimit. destruct text as [|c rest]; [contradiction|].
  simpl truthy. simpl negb. cbv iota zeta.
  destruct (Nat.ltb_spec limit (codePointLength (c :: rest))); [reflexivity | lia].
Qed.

Lemma checkCharLimit_within (text : jsstring) (limit : nat) (loc : jsstring) :
  codePointLength text <= limit -> checkCharLimit text limit loc = [].
Proof.
  intros Hle. unfold checkCharLimit. destruct (negb (truthy text)); [reflexivity|].
  cbv zeta. destruct (Nat.ltb_spec limit (codePointLength text)); [lia | reflexivity].
Qed.

(** C8.  The email validator counts code points: a 90-character preheader
    against the limit 75 gives one CHAR_LIMIT_EXCEEDED whose message reads
    "90 > 75" and whose suggested fix names the overage 15, and a title of 17
    astral characters passes the limit 32.  The multiformat validator counts
    UTF-16 code units: for the same title it reports PUSH_TITLE_OVERLIMIT with
    "34 символов" against the limit 32. *)
Theorem multiformat_limits_count_code_units :
  (exists v,
      checkCharLimit ninety 75 (js "preheader") = [v]
      /\ severity v = ERROR
      /\ message v = js "Превышен лимит символов: 90 > 75"
      /\ suggestedFix v = Some (js "Сократите на 15 символов"))
  /\ codePointLength astralTitle = 17
  /\ List.length astralTitle = 34
  /\ checkCharLimit astralTitle 32 (js "subject") = []
  /\ ValidatorMultiformat.title
       (nth 0 (ValidatorMultiformat.parseGeneratedContent pushDraft
                 ValidatorMultiformat.push_announce)
            {| ValidatorMultiformat.number := 0; ValidatorMultiformat.title := None;
               ValidatorMultiformat.subtitle := None; ValidatorMultiformat.text := None;
               ValidatorMultiformat.description := None;
               ValidatorMultiformat.button := None |})
     = Some astralTitle
  /\ (exists v,
         ValidatorMultiformat.resultViolations
           (ValidatorMultiformat.validateMultiformat pushDraft tt) = [v]
         /\ code v = js "PUSH_TITLE_OVERLIMIT"
         /\ severity v = ERROR
         /\ message v = js "Пуш заголовок превышает лимит 32 символов"
         /\ evidence v = dq ++ astralTitle ++ dq ++ js " (34 символов)")
  /\ ValidatorMultiformat.isValid (ValidatorMultiformat.validateMultiformat pushDraft tt)
     = false.
Proof.
  split; [eexists; split; [vm_compute; reflexivity|]; repeat split; vm_compute; reflexivity|].
  split; [vm_compute; reflexivity|].
  split; [vm_compute; reflexivity|].
  split; [vm_compute; reflexivity|].
  split; [vm_compute; reflexivity|].
  split; [eexists; split; [vm_compute; reflexivity|]; repeat split; vm_compute; reflexivity|].
  vm_compute. reflexivity.
Qed.

(* ================================================================== *)
(** * Further properties of the code                                    *)
(* ================================================================== *)

(** ** Word boundaries before Cyrillic words

    [\b] is defined by [\w], the ASCII letters, digits and the underscore, with
    or without the flag [i].  A Cyrillic letter is not in [\w]; so a pattern
    that is [\b] followed by a Cyrillic word matches exactly where the word
    comes right after a character of [\w]. *)

Lemma nextChar_plain fl st :
  unicode fl = false ->
  nextChar fl st
  = match rest st with
    | [] => None
    | c :: tl => Some (c, {| pos := S (pos st); prev := Some c; rest := tl; caps := caps st |})
    end.
Proof.
  intros U. unfold nextChar. rewrite U. destruct (rest st) as [|c [|d tl]]; reflexivity.
Qed.

Lemma sitsIn_initial s : sitsIn s (initial s).
Proof. exists []. split; reflexivity. Qed.

Lemma sitsIn_next fl s st x st' :
  unicode fl = false -> sitsIn s st -> nextChar fl st = Some (x, st') -> sitsIn s st'.
Proof.
  intros U (pre & Hs & Hp) H. rewrite (@nextChar_plain fl st U) in H.
  destruct (rest st) as [|c tl] eqn:E; [discriminate|]. inversion H; subst x st'; clear H.
  exists (pre ++ [c]). cbn [rest prev]. split.
  - rewrite <- app_assoc. exact Hs.
  - rewrite map_app. cbn [map]. now rewrite last_last.
Qed.

Lemma searchFrom_found fl r s :
  unicode fl = false ->
  forall fuel st m, sitsIn s st -> searchFrom fuel fl r st = Some m ->
  exists st', sitsIn s st' /\ matchAt fl r st' = Some m.
Proof.
  intros U. induction fuel as [|fuel IH]; intros st m Hst H; cbn [searchFrom] in H.
  - destruct (matchAt fl r st) eqn:E; [|discriminate]. inversion H; subst. now exists st.
  - destruct (matchAt fl r st) eqn:E.
    + inversion H; subst. now exists st.
    + destruct (nextChar fl st) as [[x st']|] eqn:N; [|discriminate].
      apply (IH st' m); [|exact H]. now apply (@sitsIn_next fl s st x st' U Hst N).
Qed.

Lemma rmatch_Str fl w :
  unicode fl = false ->
  forall st k res, rmatch fl (Str w) st k = Some res ->
  startsWith (map (canonBy fl) (rest st)) (map (canonBy fl) w) = true.
Proof.
  intros U. induction w as [|c w IH]; intros st k res H; [destruct (rest st); reflexivity|].
  assert (Hc : forall k', rmatch fl (Chr c) st k' = Some res ->
            exists x tl st', rest st = x :: tl /\ chrMatches fl c x = true
                             /\ rest st' = tl /\ k' st' = Some res).
  { intros k' H'. cbn [rmatch] in H'. rewrite (@nextChar_plain fl st U) in H'.
    destruct (rest st) as [|x tl]; [discriminate|].
    destruct (chrMatches fl c x) eqn:M; [|discriminate].
    eexists x, tl, _. split; [reflexivity|]. split; [exact M|].
    split; [|exact H']. reflexivity. }
  assert (Hm : forall x, chrMatches fl c x = true -> (canonBy fl c =? canonBy fl x)%N = true).
  { intros x. unfold chrMatches, canonBy. destruct (ignoreCase fl); trivial. }
  destruct w as [|c' w'].
  - cbn [Str] in H. destruct (Hc _ H) as (x & tl & st' & E & M & _ & _).
    rewrite E. cbn [map startsWith]. rewrite (Hm _ M). now destruct tl.
  - change (Str (c :: c' :: w')) with (Seq (Chr c) (Str (c' :: w'))) in H.
    cbn [rmatch] in H. destruct (Hc _ H) as (x & tl & st' & E & M & E' & H').
    rewrite E. cbn [map startsWith]. rewrite (Hm _ M). cbn [andb].
    rewrite <- E'. exact (IH _ _ _ H').
Qed.

Ltac ncases :=
  repeat match goal with
         | H : context [N.leb ?a ?b] |- _ =>
             destruct (N.leb_spec a b); cbn [andb orb negb] in *; try lia
         | |- context [N.leb ?a ?b] =>
             destruct (N.leb_spec a b); cbn [andb orb negb] in *; try lia
         | H : context [N.eqb ?a ?b] |- _ =>
             destruct (N.eqb_spec a b); cbn [andb orb negb] in *; try lia
         | |- context [N.eqb ?a ?b] =>
             destruct (N.eqb_spec a b); cbn [andb orb negb] in *; try lia
         end.

Lemma cyrillic_not_word fl c x :
  (1024 <= c)%N -> (c <= 1119)%N -> chrMatches fl c x = true -> isWordChar x = false.
Proof.
  intros Hlo Hhi H. unfold chrMatches in H.
  assert (E : canon c = canon x \/ c = x)
    by (destruct (ignoreCase fl); apply N.eqb_eq in H; auto).
  clear H. unfold canon, upperUnit in E. unfold isWordChar, isDigit.
  destruct E as [E|E]; ncases; try reflexivity; try discriminate.
Qed.

Lemma lowerUnit_not_word c : isWordChar c = false -> isWordChar (lowerUnit c) = false.
Proof.
  unfold lowerUnit, isWordChar, isDigit. intros H.
  ncases; try reflexivity; try discriminate.
Qed.

Lemma last_Some {A} (pre : list A) (p : A) :
  last (map Some pre) None = Some p -> exists pre0, pre = pre0 ++ [p].
Proof.
  destruct pre as [|a pre'] using rev_ind; [discriminate|].
  rewrite map_app. cbn [map]. rewrite last_last. intros H. inversion H. now exists pre'.
Qed.

Lemma chrMatches_canonBy fl c x :
  chrMatches fl c x = (canonBy fl c =? canonBy fl x)%N.
Proof. unfold chrMatches, canonBy. now destruct (ignoreCase fl). Qed.

(** A pattern [\b] followed by a literal that starts with a Cyrillic letter
    matches only where an ASCII word character stands right before the literal. *)
Lemma exec_wordBoundary_cyrillic fl c w s m :
  unicode fl = false -> (1024 <= c)%N -> (c <= 1119)%N ->
  exec fl (Seq WordBoundary (Str (c :: w))) s = Some m ->
  precededByWordChar fl (c :: w) s.
Proof.
  intros U Hlo Hhi H. unfold exec in H.
  destruct (@searchFrom_found fl _ s U _ _ _ (sitsIn_initial s) H) as (st & (pre & Hs & Hp) & Hm).
  unfold matchAt in Hm.
  destruct (rmatch fl (Seq WordBoundary (Str (c :: w)))
              {| pos := pos st; prev := prev st; rest := rest st; caps := [] |}
              (fun st' => Some st')) as [res|] eqn:R; [|discriminate].
  cbn [rmatch prev rest] in R.
  destruct (xorb (isWordOpt (prev st)) (isWordOpt (hd_error (rest st)))) eqn:X; [|discriminate].
  pose proof (@rmatch_Str fl (c :: w) U _ _ _ R) as S. cbn [rest] in S.
  destruct (rest st) as [|x tl] eqn:E; [discriminate|].
  assert (Hx : isWordChar x = false).
  { apply (@cyrillic_not_word fl c x Hlo Hhi). rewrite chrMatches_canonBy.
    cbn [map startsWith] in S. now apply andb_prop in S. }
  cbn [hd_error isWordOpt] in X. rewrite Hx, xorb_false_r in X.
  destruct (prev st) as [p|] eqn:P; [|discriminate]. cbn [isWordOpt] in X.
  symmetry in Hp. destruct (last_Some _ Hp) as (pre0 & ->).
  exists pre0, p, (x :: tl). split; [now rewrite <- app_assoc in Hs|]. split; assumption.
Qed.

Lemma precededByWordChar_noWordChars fl w s :
  noWordChars s = true -> ~ precededByWordChar fl w s.
Proof.
  intros H (pre & c & post & -> & Hc & _). unfold noWordChars in H.
  rewrite forallb_app in H. apply andb_prop in H. destruct H as [_ H].
  cbn [forallb] in H. rewrite Hc in H. discriminate.
Qed.

Lemma wordCharBefore_spec fl w s :
  wordCharBefore fl w s = true <-> precededByWordChar fl w s.
Proof.
  induction s as [|c s IH]; cbn [wordCharBefore].
  - split; [discriminate|]. intros (pre & x & post & H & _). now destruct pre.
  - rewrite orb_true_iff, andb_true_iff, IH. split.
    + intros [[Hc Hs]|(pre & x & post & -> & Hx & Hp)].
      * now exists [], c, s.
      * now exists (c :: pre), x, post.
    + intros (pre & x & post & H & Hx & Hp). destruct pre as [|a pre]; cbn [app] in H.
      * inversion H; subst. now left.
      * inversion H; subst. right. now exists pre, x, post.
Qed.

Lemma rmatch_Str_complete fl w :
  unicode fl = false ->
  forall st k, startsWith (map (canonBy fl) (rest st)) (map (canonBy fl) w) = true ->
  exists st', rmatch fl (Str w) st k = k st'.
Proof.
  intros U. induction w as [|c w IH]; intros st k H; [now exists st|].
  destruct (rest st) as [|x tl] eqn:E; [discriminate|].
  cbn [map startsWith] in H. apply andb_prop in H. destruct H as [Hc Hw].
  rewrite <- chrMatches_canonBy in Hc.
  assert (Hchr : forall k', rmatch fl (Chr c) st k'
                 = k' {| pos := S (pos st); prev := Some x; rest := tl; caps := caps st |}).
  { intros k'. cbn [rmatch]. rewrite (@nextChar_plain fl st U), E, Hc. reflexivity. }
  destruct w as [|c' w'].
  - cbn [Str]. eexists. apply Hchr.
  - change (Str (c :: c' :: w')) with (Seq (Chr c) (Str (c' :: w'))).
    destruct (IH {| pos := S (pos st); prev := Some x; rest := tl; caps := caps st |} k Hw)
      as (st' & Hst').
    exists st'.
    change (rmatch fl (Seq (Chr c) (Str (c' :: w'))) st k)
      with (rmatch fl (Chr c) st (fun st0 => rmatch fl (Str (c' :: w')) st0 k)).
    rewrite Hchr. exact Hst'.
Qed.

Lemma last_cons_default {A} (x d : A) (l : list A) : last (x :: l) d = last l x.
Proof.
  revert x d. induction l as [|y l IH]; intros x d; [reflexivity|].
  change (last (x :: y :: l) d) with (last (y :: l) d). rewrite IH.
  symmetry. apply IH.
Qed.

Lemma searchFrom_complete fl r post :
  unicode fl = false ->
  forall pre fuel st,
    rest st = pre ++ post -> List.length pre <= fuel ->
    (forall st', rest st' = post -> prev st' = last (map Some pre) (prev st) ->
                 matchAt fl r st' <> None) ->
    searchFrom fuel fl r st <> None.
Proof.
  intros U. induction pre as [|a pre IH]; intros fuel st Hr Hf Hm.
  - specialize (Hm st Hr eq_refl). destruct fuel; cbn [searchFrom];
      destruct (matchAt fl r st); congruence.
  - destruct fuel as [|fuel]; [cbn in Hf; lia|]. cbn [searchFrom].
    destruct (matchAt fl r st); [discriminate|].
    rewrite (@nextChar_plain fl st U), Hr. cbn [app].
    apply IH; cbn [rest prev]; [reflexivity | cbn in Hf; lia |].
    intros st' Hr' Hp'. apply Hm; [exact Hr'|]. cbn [map]. now rewrite last_cons_default.
Qed.

Lemma exec_wordBoundary_complete fl c w s :
  unicode fl = false -> (1024 <= c)%N -> (c <= 1119)%N ->
  precededByWordChar fl (c :: w) s ->
  exec fl (Seq WordBoundary (Str (c :: w))) s <> None.
Proof.
  intros U Hlo Hhi (pre & p & post & -> & Hp & Hs). unfold exec.
  apply (@searchFrom_complete fl _ post U (pre ++ [p])).
  - cbn [initial rest]. now rewrite <- app_assoc.
  - rewrite !length_app. cbn. lia.
  - intros st' Hr Hprev. cbn [initial prev] in Hprev.
    rewrite map_app in Hprev. cbn [map] in Hprev. rewrite last_last in Hprev.
    unfold matchAt. cbn [rmatch prev rest]. rewrite Hprev, Hr. cbn [isWordOpt]. rewrite Hp.
    destruct post as [|x tl]; [discriminate|].
    assert (Hx : isWordChar x = false).
    { apply (@cyrillic_not_word fl c x Hlo Hhi). rewrite chrMatches_canonBy.
      cbn [map startsWith] in Hs. now apply andb_prop in Hs. }
    cbn [hd_error isWordOpt]. rewrite Hx. cbn [xorb].
    destruct (@rmatch_Str_complete fl (c :: w) U
                {| pos := pos st'; prev := Some p; rest := x :: tl; caps := [] |}
                (fun st0 => Some st0) Hs) as (st1 & ->).
    discriminate.
Qed.

(** [/\bw/.test(s)] for a literal [w] that starts with a Cyrillic letter. *)
Lemma test_wordBoundary_cyrillic fl c w s :
  unicode fl = false -> (1024 <= c)%N -> (c <= 1119)%N ->
  test fl (Seq WordBoundary (Str (c :: w))) s = wordCharBefore fl (c :: w) s.
Proof.
  intros U Hlo Hhi. unfold test.
  destruct (exec fl (Seq WordBoundary (Str (c :: w))) s) as [m|] eqn:E.
  - symmetry. apply wordCharBefore_spec. exact (@exec_wordBoundary_cyrillic fl c w s m U Hlo Hhi E).
  - destruct (wordCharBefore fl (c :: w) s) eqn:W; [|reflexivity].
    apply wordCharBefore_spec in W.
    exfalso. exact (@exec_wordBoundary_complete fl c w s U Hlo Hhi W E).
Qed.

Lemma test_wordBoundary_Lit fl (w : string) c w' s :
  js w = c :: w' -> unicode fl = false -> (1024 <= c)%N -> (c <= 1119)%N ->
  test fl (Seq WordBoundary (Lit w)) s = wordCharBefore fl (js w) s.
Proof.
  intros E U Hlo Hhi. unfold Lit. rewrite E. now apply test_wordBoundary_cyrillic.
Qed.

Lemma buket_test text :
  test f_i (Seq WordBoundary (Lit "букет")) text = wordCharBefore f_i (js "букет") text.
Proof.
  apply (@test_wordBoundary_Lit f_i "букет" 1073 (js "укет"));
    [vm_compute; reflexivity | reflexivity | lia | lia].
Qed.

Lemma wordCharBefore_noWordChars fl w s :
  noWordChars s = true -> wordCharBefore fl w s = false.
Proof.
  intros H. destruct (wordCharBefore fl w s) eqn:W; [|reflexivity].
  apply wordCharBefore_spec in W. now apply precededByWordChar_noWordChars in W.
Qed.

Lemma buket_reported (text loc : jsstring) :
  (exists v, In v (checkForbiddenWords text loc) /\ code v = buketCode)
  <-> wordCharBefore f_i (js "букет") text = true.
Proof.
  rewrite <- buket_test. unfold checkForbiddenWords. split.
  - intros (v & Hin & Hcode). destruct (negb (truthy text)); [destruct Hin|].
    repeat (apply in_app_or in Hin; destruct Hin as [Hin|Hin]).
    + pose proof (degustatsiya_emits text loc) as H. unfold emits in H.
      rewrite Forall_forall in H. rewrite (H v Hin) in Hcode. vm_compute in Hcode. discriminate.
    + pose proof (kupit_emits text loc) as H. unfold emits in H.
      rewrite Forall_forall in H. rewrite (H v Hin) in Hcode. vm_compute in Hcode. discriminate.
    + pose proof (pokupka_emits text loc) as H. unfold emits in H.
      rewrite Forall_forall in H. rewrite (H v Hin) in Hcode. vm_compute in Hcode. discriminate.
    + unfold buketViolations in Hin.
      destruct (test f_i (Seq WordBoundary (Lit "букет")) text); [reflexivity | destruct Hin].
    + pose proof (poslevkusie_emits text loc) as H. unfold emits in H.
      rewrite Forall_forall in H. rewrite (H v Hin) in Hcode. vm_compute in Hcode. discriminate.
  - intros T. destruct text as [|c rest]; [vm_compute in T; discriminate|].
    cbn [truthy negb]. cbv iota. unfold buketViolations at 1. rewrite T.
    eexists. split.
    + apply in_or_app. right. apply in_or_app. right. apply in_or_app. right.
      apply in_or_app. left. left. reflexivity.
    + reflexivity.
Qed.

(** X1.  [checkForbiddenWords] reports FORBIDDEN_BUKET exactly when the text
    holds the word (in any case) directly after an ASCII letter, digit or
    underscore: the pattern begins with [\b] and a Cyrillic letter is not a
    word character.  So a text without ASCII word characters never gets the
    code, whatever it says about bouquets. *)
Theorem buket_reported_iff (text loc : jsstring) :
  ((exists v, In v (checkForbiddenWords text loc) /\ code v = buketCode)
   <-> wordCharBefore f_i (js "букет") text = true)
  /\ (noWordChars text = true -> lacks buketCode (checkForbiddenWords text loc)).
Proof.
  split; [apply buket_reported|].
  intros H. unfold lacks. apply Forall_forall. intros v Hin Hc.
  assert (W : wordCharBefore f_i (js "букет") text = true)
    by (apply (proj1 (buket_reported text loc)); exists v; split; assumption).
  rewrite (@wordCharBefore_noWordChars f_i (js "букет") text H) in W. discriminate W.
Qed.

Lemma buket_reported_iff_witness :
  noWordChars (js "свежий букет") = true
  /\ lacks buketCode (checkForbiddenWords (js "свежий букет") (js "subject")).
Proof.
  split; [vm_compute; reflexivity|].
  apply (proj2 (buket_reported_iff (js "свежий букет") (js "subject"))).
  vm_compute. reflexivity.
Defined.

(** ** The whole-text checks of the multiformat validator *)

Lemma kupi_test s :
  test f_none (Seq WordBoundary (Lit "купи")) s = wordCharBefore f_none (js "купи") s.
Proof.
  apply (@test_wordBoundary_Lit f_none "купи" 1082 (js "упи"));
    [vm_compute; reflexivity | reflexivity | lia | lia].
Qed.

Lemma noWordChars_toLowerCase s : noWordChars s = true -> noWordChars (toLowerCase s) = true.
Proof.
  unfold noWordChars, toLowerCase. rewrite !forallb_forall. intros H c Hc.
  apply in_map_iff in Hc. destruct Hc as (x & <- & Hx). specialize (H x Hx).
  apply negb_true_iff in H. apply negb_true_iff. now apply lowerUnit_not_word.
Qed.

Lemma codesOf_checkCTARules (content : jsstring) (a : ValidatorMultiformat.Acc) :
  codesOf (ValidatorMultiformat.checkCTARules content a)
  = codesOf a
    ++ (if wordCharBefore f_none (js "купи") (toLowerCase content)
           && negb (test f_i kupitVVinoteke content)
        then [js "FORBIDDEN_KUPIT_CTA"] else []).
Proof.
  unfold ValidatorMultiformat.checkCTARules. cbv zeta. rewrite kupi_test.
  destruct (wordCharBefore f_none (js "купи") (toLowerCase content)); cbn [andb].
  - change (Seqs [Lit "купит"; Opt (Lit "ь"); Plus Space; Lit "в"; Plus Space; Lit "винотек"])
      with kupitVVinoteke.
    destruct (test f_i kupitVVinoteke content); cbn [negb ValidatorMultiformat.when].
    + unfold codesOf. cbn [ValidatorMultiformat.incChecks ValidatorMultiformat.violations].
      now rewrite app_nil_r.
    + unfold codesOf.
      cbn [ValidatorMultiformat.incChecks ValidatorMultiformat.incErrors ValidatorMultiformat.push
           ValidatorMultiformat.violations].
      rewrite map_app. reflexivity.
  - unfold codesOf. cbn [ValidatorMultiformat.incChecks ValidatorMultiformat.violations].
    now rewrite app_nil_r.
Qed.

(** X2.  [checkCTARules] adds FORBIDDEN_KUPIT_CTA, and nothing else, exactly
    when the lower-cased text holds the stem directly after an ASCII letter,
    digit or underscore and the text has no match of the allowed phrase.  A
    text whose lower-casing has no ASCII word character passes the check,
    whatever call to action it carries. *)
Theorem checkCTARules_fires_only_after_word_char
        (content : jsstring) (a : ValidatorMultiformat.Acc) :
  codesOf (ValidatorMultiformat.checkCTARules content a)
  = codesOf a
    ++ (if wordCharBefore f_none (js "купи") (toLowerCase content)
           && negb (test f_i kupitVVinoteke content)
        then [js "FORBIDDEN_KUPIT_CTA"] else [])
  /\ (noWordChars (toLowerCase content) = true ->
      codesOf (ValidatorMultiformat.checkCTARules content a) = codesOf a).
Proof.
  split; [apply codesOf_checkCTARules|].
  intros H. rewrite codesOf_checkCTARules.
  rewrite (@wordCharBefore_noWordChars f_none (js "купи") (toLowerCase content) H).
  cbn [andb]. apply app_nil_r.
Qed.

Lemma checkCTARules_fires_only_after_word_char_witness :
  noWordChars (toLowerCase (js "Купить вино")) = true
  /\ codesOf (ValidatorMultiformat.checkCTARules (js "Купить вино") freshAcc)
     = [].
Proof.
  split; [vm_compute; reflexivity|].
  apply (proj2 (checkCTARules_fires_only_after_word_char (js "Купить вино") freshAcc)).
  vm_compute. reflexivity.
Defined.

Lemma abbreviationPatterns_eq :
  ValidatorMultiformat.abbreviationPatterns
  = map (fun w => Seq WordBoundary (Lit w)) abbreviations.
Proof. reflexivity. Qed.

Lemma abbreviation_test (w : string) s :
  In w abbreviations ->
  test f_i (Seq WordBoundary (Lit w)) s = wordCharBefore f_i (js w) s.
Proof.
  unfold abbreviations. cbn [In].
  intros [<-|[<-|[<-|[<-|[<-|[<-|[<-|[<-|[<-|[]]]]]]]]]];
    (eapply test_wordBoundary_Lit; [vm_compute; reflexivity | reflexivity | lia | lia]).
Qed.

Lemma matchG_none fl r s : test fl r s = false -> matchG fl r s = None.
Proof.
  unfold test, matchG, matchesG, exec. cbn [allMatches stateAt].
  destruct (searchFrom (List.length s) fl r (initial s)); [discriminate | reflexivity].
Qed.

Lemma matchG_some fl r s : test fl r s = true -> exists m0 ms, matchG fl r s = Some (m0 :: ms).
Proof.
  unfold test, matchG, matchesG, exec. cbn [allMatches stateAt].
  destruct (searchFrom (List.length s) fl r (initial s)) as [m|]; [|discriminate].
  intros _. destruct (Nat.ltb (List.length s) _); cbn [map]; eauto.
Qed.

Lemma codesOf_checkAbbreviations (content : jsstring) (a : ValidatorMultiformat.Acc) :
  codesOf (ValidatorMultiformat.checkAbbreviations content a)
  = codesOf a
    ++ flat_map (fun w => if wordCharBefore f_i (js w) content
                          then [js "ABBREVIATED_WORD"] else []) abbreviations.
Proof.
  unfold ValidatorMultiformat.checkAbbreviations. rewrite abbreviationPatterns_eq.
  change (codesOf a) with (codesOf (ValidatorMultiformat.incChecks a)).
  generalize (ValidatorMultiformat.incChecks a).
  assert (G : forall l, incl l abbreviations -> forall a0,
            codesOf (fold_left (ValidatorMultiformat.checkAbbreviation content)
                               (map (fun w => Seq WordBoundary (Lit w)) l) a0)
            = codesOf a0
              ++ flat_map (fun w => if wordCharBefore f_i (js w) content
                                    then [js "ABBREVIATED_WORD"] else []) l).
  { induction l as [|w l IH]; intros Hl a0; [cbn; now rewrite app_nil_r|].
    cbn [map fold_left flat_map]. rewrite IH by (intros x Hx; apply Hl; now right).
    rewrite app_assoc. f_equal.
    unfold ValidatorMultiformat.checkAbbreviation.
    rewrite <- abbreviation_test by (apply Hl; now left).
    destruct (test f_i (Seq WordBoundary (Lit w)) content) eqn:T.
    - destruct (matchG_some _ _ _ T) as (m0 & ms & ->).
      unfold codesOf.
      cbn [ValidatorMultiformat.incWarnings ValidatorMultiformat.push
           ValidatorMultiformat.violations].
      rewrite map_app. reflexivity.
    - rewrite (matchG_none _ _ _ T). now rewrite app_nil_r. }
  intros a0. apply G. apply incl_refl.
Qed.

Lemma flat_map_nil {A B} (f : A -> list B) (l : list A) :
  (forall x, In x l -> f x = []) -> flat_map f l = [].
Proof.
  induction l as [|x l IH]; intros H; [reflexivity|].
  cbn [flat_map]. rewrite (H x (or_introl eq_refl)), IH; [reflexivity|].
  intros y Hy. apply H. now right.
Qed.

(** X3.  [checkAbbreviations] adds one ABBREVIATED_WORD for each abbreviation
    of its list, in the order of the list, that stands somewhere in the text
    directly after an ASCII letter, digit or underscore, and nothing else.  A
    text without ASCII word characters gets no such warning, whatever it
    abbreviates. *)
Theorem checkAbbreviations_fires_only_after_word_char
        (content : jsstring) (a : ValidatorMultiformat.Acc) :
  codesOf (ValidatorMultiformat.checkAbbreviations content a)
  = codesOf a
    ++ flat_map (fun w => if wordCharBefore f_i (js w) content
                          then [js "ABBREVIATED_WORD"] else []) abbreviations
  /\ (noWordChars content = true ->
      codesOf (ValidatorMultiformat.checkAbbreviations content a) = codesOf a).
Proof.
  split; [apply codesOf_checkAbbreviations|].
  intros H. rewrite codesOf_checkAbbreviations. rewrite flat_map_nil; [apply app_nil_r|].
  intros w _. now rewrite (@wordCharBefore_noWordChars f_i (js w) content H).
Qed.

Lemma checkAbbreviations_fires_only_after_word_char_witness :
  noWordChars (js "скидка и т.д.") = true
  /\ codesOf (ValidatorMultiformat.checkAbbreviations (js "скидка и т.д.") freshAcc)
     = [].
Proof.
  split; [vm_compute; reflexivity|].
  apply (proj2 (checkAbbreviations_fires_only_after_word_char (js "скидка и т.д.") freshAcc)).
  vm_compute. reflexivity.
Defined.

(** ** The counters of the multiformat validator *)

Section AccInvariant.

Variable I : ValidatorMultiformat.Acc -> Prop.
Hypothesis I_checks : forall a, I a -> I (ValidatorMultiformat.incChecks a).
Hypothesis I_error :
  forall a v, I a -> severity v = ERROR ->
              I (ValidatorMultiformat.incErrors (ValidatorMultiformat.push v a)).
Hypothesis I_warning :
  forall a v, I a -> severity v = WARNING ->
              I (ValidatorMultiformat.incWarnings (ValidatorMultiformat.push v a)).

Lemma kept_when (c : bool) f a :
  (forall a', I a' -> I (f a')) -> I a -> I (ValidatorMultiformat.when c f a).
Proof. intros Hf Ha. destruct c; cbn; auto. Qed.

Lemma kept_forEach {A} (f : A -> nat -> ValidatorMultiformat.Acc -> ValidatorMultiformat.Acc)
      (l : list A) :
  (forall x i a, I a -> I (f x i a)) ->
  forall i a, I a -> I (ValidatorMultiformat.forEach f i l a).
Proof.
  intros Hf. induction l as [|x l IH]; intros i a Ha; cbn; [exact Ha|].
  apply IH. now apply Hf.
Qed.

Lemma kept_fold_left {A} (f : ValidatorMultiformat.Acc -> A -> ValidatorMultiformat.Acc)
      (l : list A) :
  (forall a x, I a -> I (f a x)) -> forall a, I a -> I (fold_left f l a).
Proof.
  intros Hf. induction l as [|x l IH]; intros a Ha; cbn; [exact Ha|].
  apply IH. now apply Hf.
Qed.

Ltac keep :=
  repeat match goal with
         | |- I (match ?x with _ => _ end) => destruct x
         | |- I (ValidatorMultiformat.incChecks _) => apply I_checks
         | |- I (ValidatorMultiformat.incErrors (ValidatorMultiformat.push _ _)) =>
             apply I_error; [ | reflexivity ]
         | |- I (ValidatorMultiformat.incWarnings (ValidatorMultiformat.push _ _)) =>
             apply I_warning; [ | reflexivity ]
         | |- I (ValidatorMultiformat.when _ _ _) => apply kept_when; [ intros | ]
         | |- I (ValidatorMultiformat.forEach _ _ _ _) => apply kept_forEach; [ intros | ]
         | |- I (fold_left _ _ _) => apply kept_fold_left; [ intros | ]
         | |- I _ => assumption
         end.

Lemma kept_checkLengthLimits sections a :
  I a -> I (ValidatorMultiformat.checkLengthLimits sections a).
Proof.
  intros H. unfold ValidatorMultiformat.checkLengthLimits. cbv zeta. keep;
    unfold ValidatorMultiformat.checkPush, ValidatorMultiformat.checkSms,
      ValidatorMultiformat.checkYandex, ValidatorMultiformat.checkOnboarding,
      ValidatorMultiformat.checkLanding, ValidatorMultiformat.checkTextMax; cbv zeta; keep.
Qed.

Lemma kept_checkSMSAlcoholRestrictions sections a :
  I a -> I (ValidatorMultiformat.checkSMSAlcoholRestrictions sections a).
Proof.
  intros H. unfold ValidatorMultiformat.checkSMSAlcoholRestrictions. keep.
  unfold ValidatorMultiformat.checkSmsAlcohol. cbv zeta. keep.
Qed.

Lemma kept_checkStickyTimerFormat sections a :
  I a -> I (ValidatorMultiformat.checkStickyTimerFormat sections a).
Proof.
  intros H. unfold ValidatorMultiformat.checkStickyTimerFormat. keep.
  unfold ValidatorMultiformat.checkStickyTimer. cbv zeta. keep.
Qed.

Lemma kept_checkAbbreviations content a :
  I a -> I (ValidatorMultiformat.checkAbbreviations content a).
Proof.
  intros H. unfold ValidatorMultiformat.checkAbbreviations.
  apply kept_fold_left; [|now apply I_checks]. intros a' p Ha'.
  unfold ValidatorMultiformat.checkAbbreviation.
  destruct (matchG f_i p content) as [[|m0 ms]|]; keep.
Qed.

Lemma kept_checkForbiddenNapitok content a :
  I a -> I (ValidatorMultiformat.checkForbiddenNapitok content a).
Proof. intros H. unfold ValidatorMultiformat.checkForbiddenNapitok. cbv zeta. keep. Qed.

Lemma kept_checkCTARules content a :
  I a -> I (ValidatorMultiformat.checkCTARules content a).
Proof. intros H. unfold ValidatorMultiformat.checkCTARules. cbv zeta. keep. Qed.

Lemma kept_checkMessageConsistency sections a :
  I a -> I (ValidatorMultiformat.checkMessageConsistency sections a).
Proof. intros H. unfold ValidatorMultiformat.checkMessageConsistency. cbv zeta. keep. Qed.

Lemma kept_runChecks content :
  I {| ValidatorMultiformat.violations := [];
       ValidatorMultiformat.stats :=
         {| ValidatorMultiformat.totalChecks := 0; ValidatorMultiformat.errors := 0;
            ValidatorMultiformat.warnings := 0 |} |} ->
  I (ValidatorMultiformat.runChecks content).
Proof.
  intros H. unfold ValidatorMultiformat.runChecks. cbv zeta.
  apply kept_checkMessageConsistency, kept_checkCTARules, kept_checkForbiddenNapitok,
    kept_checkAbbreviations, kept_checkStickyTimerFormat, kept_checkSMSAlcoholRestrictions,
    kept_checkLengthLimits.
  exact H.
Qed.

End AccInvariant.

Lemma tallied_error a v :
  tallied a -> severity v = ERROR ->
  tallied (ValidatorMultiformat.incErrors (ValidatorMultiformat.push v a)).
Proof.
  unfold tallied. cbn. intros (H1 & H2 & H3) E.
  rewrite !filter_app, !length_app. cbn [filter]. unfold isError at 2, isWarning at 2.
  rewrite E. cbn. lia.
Qed.

Lemma tallied_warning a v :
  tallied a -> severity v = WARNING ->
  tallied (ValidatorMultiformat.incWarnings (ValidatorMultiformat.push v a)).
Proof.
  unfold tallied. cbn. intros (H1 & H2 & H3) E.
  rewrite !filter_app, !length_app. cbn [filter]. unfold isError at 2, isWarning at 2.
  rewrite E. cbn. lia.
Qed.

(** X4.  In the result of [validateMultiformat] the counter [stats.warnings]
    is the number of WARNING violations, as [stats.errors] is the number of
    ERROR violations, and the two add up to the length of [violations]: every
    violation is counted once and none has severity INFO. *)
Theorem multiformat_stats_count_violations (Brief : Type) (content : jsstring) (brief : Brief) :
  ValidatorMultiformat.errors
    (ValidatorMultiformat.resultStats (ValidatorMultiformat.validateMultiformat content brief))
  = List.length (filter isError
      (ValidatorMultiformat.resultViolations
         (ValidatorMultiformat.validateMultiformat content brief)))
  /\ ValidatorMultiformat.warnings
       (ValidatorMultiformat.resultStats (ValidatorMultiformat.validateMultiformat content brief))
     = List.length (filter isWarning
         (ValidatorMultiformat.resultViolations
            (ValidatorMultiformat.validateMultiformat content brief)))
  /\ List.length (ValidatorMultiformat.resultViolations
                    (ValidatorMultiformat.validateMultiformat content brief))
     = ValidatorMultiformat.errors
         (ValidatorMultiformat.resultStats
            (ValidatorMultiformat.validateMultiformat content brief))
       + ValidatorMultiformat.warnings
           (ValidatorMultiformat.resultStats
              (ValidatorMultiformat.validateMultiformat content brief)).
Proof.
  unfold ValidatorMultiformat.validateMultiformat. cbv zeta.
  cbn [ValidatorMultiformat.resultStats ValidatorMultiformat.resultViolations].
  apply (@kept_runChecks tallied (fun a H => H) tallied_error tallied_warning content).
  repeat split.
Qed.

(** ** The counter [totalChecks] *)

Lemma checksOf_forEach {A}
      (f : A -> nat -> ValidatorMultiformat.Acc -> ValidatorMultiformat.Acc) (c : nat)
      (l : list A) :
  (forall x i a, checksOf (f x i a) = checksOf a + c) ->
  forall i a, checksOf (ValidatorMultiformat.forEach f i l a) = checksOf a + c * List.length l.
Proof.
  intros Hf. induction l as [|x l IH]; intros i a; cbn [ValidatorMultiformat.forEach List.length].
  - lia.
  - rewrite IH, Hf. lia.
Qed.

Ltac count_checks :=
  repeat match goal with
         | |- context [match ?x with Some _ => _ | None => _ end] => destruct x
         | |- context [ValidatorMultiformat.when ?c _ _] => destruct c; cbn [ValidatorMultiformat.when]
         end;
  unfold checksOf; cbn; lia.

Lemma checksOf_checkPush section v i a :
  checksOf (ValidatorMultiformat.checkPush section v i a) = checksOf a + 2.
Proof. unfold ValidatorMultiformat.checkPush. cbv zeta. count_checks. Qed.

Lemma checksOf_checkSms section v i a :
  checksOf (ValidatorMultiformat.checkSms section v i a) = checksOf a + 1.
Proof. unfold ValidatorMultiformat.checkSms. cbv zeta. count_checks. Qed.

Lemma checksOf_checkYandex v i a :
  checksOf (ValidatorMultiformat.checkYandex v i a) = checksOf a + 1.
Proof. unfold ValidatorMultiformat.checkYandex. cbv zeta. count_checks. Qed.

Lemma checksOf_checkOnboarding v i a :
  checksOf (ValidatorMultiformat.checkOnboarding v i a) = checksOf a + 1.
Proof. unfold ValidatorMultiformat.checkOnboarding. cbv zeta. count_checks. Qed.

Lemma checksOf_checkLanding v i a :
  checksOf (ValidatorMultiformat.checkLanding v i a) = checksOf a + 1.
Proof. unfold ValidatorMultiformat.checkLanding. cbv zeta. count_checks. Qed.

Lemma checksOf_checkTextMax c msg key limit v i a :
  checksOf (ValidatorMultiformat.checkTextMax c msg key limit v i a) = checksOf a + 1.
Proof. unfold ValidatorMultiformat.checkTextMax. cbv zeta. count_checks. Qed.

Lemma checksOf_checkSmsAlcohol section v i a :
  checksOf (ValidatorMultiformat.checkSmsAlcohol section v i a) = checksOf a + 1.
Proof. unfold ValidatorMultiformat.checkSmsAlcohol. cbv zeta. count_checks. Qed.

Lemma checksOf_checkStickyTimer v i a :
  checksOf (ValidatorMultiformat.checkStickyTimer v i a) = checksOf a + 1.
Proof. unfold ValidatorMultiformat.checkStickyTimer. cbv zeta. count_checks. Qed.

Lemma checksOf_checkLengthLimits s a :
  checksOf (ValidatorMultiformat.checkLengthLimits s a)
  = checksOf a
    + 2 * (List.length (s ValidatorMultiformat.push_announce)
           + List.length (s ValidatorMultiformat.push_reminder)
           + List.length (s ValidatorMultiformat.push_last_call))
    + (List.length (s ValidatorMultiformat.sms_announce)
       + List.length (s ValidatorMultiformat.sms_reminder)
       + List.length (s ValidatorMultiformat.sms_last_call))
    + List.length (s ValidatorMultiformat.yandex_maps)
    + List.length (s ValidatorMultiformat.onboarding)
    + List.length (s ValidatorMultiformat.landing_page)
    + List.length (s ValidatorMultiformat.sticky_banner)
    + List.length (s ValidatorMultiformat.sticky_banner_timer)
    + List.length (s ValidatorMultiformat.ticker).
Proof.
  unfold ValidatorMultiformat.checkLengthLimits, ValidatorMultiformat.pushSections,
    ValidatorMultiformat.smsSections. cbv zeta. cbn [fold_left].
  rewrite !(@checksOf_forEach _ _ 1 _ (@checksOf_checkTextMax _ _ _ _)).
  rewrite (@checksOf_forEach _ _ 1 _ checksOf_checkLanding).
  rewrite (@checksOf_forEach _ _ 1 _ checksOf_checkOnboarding).
  rewrite (@checksOf_forEach _ _ 1 _ checksOf_checkYandex).
  rewrite !(@checksOf_forEach _ _ 1 _ (@checksOf_checkSms _)).
  rewrite !(@checksOf_forEach _ _ 2 _ (@checksOf_checkPush _)).
  lia.
Qed.

Lemma checksOf_checkSMSAlcoholRestrictions s a :
  checksOf (ValidatorMultiformat.checkSMSAlcoholRestrictions s a)
  = checksOf a
    + (List.length (s ValidatorMultiformat.sms_announce)
       + List.length (s ValidatorMultiformat.sms_reminder)
       + List.length (s ValidatorMultiformat.sms_last_call)).
Proof.
  unfold ValidatorMultiformat.checkSMSAlcoholRestrictions, ValidatorMultiformat.smsSections.
  cbn [fold_left].
  rewrite !(@checksOf_forEach _ _ 1 _ (@checksOf_checkSmsAlcohol _)). lia.
Qed.

Lemma checksOf_checkStickyTimerFormat s a :
  checksOf (ValidatorMultiformat.checkStickyTimerFormat s a)
  = checksOf a + List.length (s ValidatorMultiformat.sticky_banner_timer).
Proof.
  unfold ValidatorMultiformat.checkStickyTimerFormat.
  rewrite (@checksOf_forEach _ _ 1 _ checksOf_checkStickyTimer). lia.
Qed.

Lemma checksOf_checkAbbreviations content a :
  checksOf (ValidatorMultiformat.checkAbbreviations content a) = checksOf a + 1.
Proof.
  unfold ValidatorMultiformat.checkAbbreviations.
  assert (G : forall l a0, checksOf (fold_left (ValidatorMultiformat.checkAbbreviation content)
                                               l a0) = checksOf a0).
  { induction l as [|p l IH]; intros a0; [reflexivity|]. cbn [fold_left]. rewrite IH.
    unfold ValidatorMultiformat.checkAbbreviation.
    destruct (matchG f_i p content) as [[|m0 ms]|]; reflexivity. }
  rewrite G. unfold checksOf. cbn. lia.
Qed.

Lemma checksOf_checkForbiddenNapitok content a :
  checksOf (ValidatorMultiformat.checkForbiddenNapitok content a) = checksOf a + 1.
Proof. unfold ValidatorMultiformat.checkForbiddenNapitok. cbv zeta. count_checks. Qed.

Lemma checksOf_checkCTARules content a :
  checksOf (ValidatorMultiformat.checkCTARules content a) = checksOf a + 1.
Proof.
  unfold ValidatorMultiformat.checkCTARules. cbv zeta.
  destruct (test f_none _ _); count_checks.
Qed.

Lemma checksOf_checkMessageConsistency s a :
  checksOf (ValidatorMultiformat.checkMessageConsistency s a) = checksOf a + 1.
Proof. unfold ValidatorMultiformat.checkMessageConsistency. cbv zeta. count_checks. Qed.

(** X5.  [stats.totalChecks] depends only on how many variants the parser
    found in each section: two per push and SMS variant, one per variant of the
    maps, onboarding, landing-page, sticky-banner and ticker sections, two per
    sticky banner with a timer, none for the tabs, and four for the checks of
    the whole text, which run once each even on an empty text. *)
Theorem multiformat_totalChecks (Brief : Type) (content : jsstring) (brief : Brief) :
  ValidatorMultiformat.totalChecks
    (ValidatorMultiformat.resultStats (ValidatorMultiformat.validateMultiformat content brief))
  = expectedChecks (ValidatorMultiformat.parseGeneratedContent content).
Proof.
  unfold ValidatorMultiformat.validateMultiformat. cbv zeta.
  cbn [ValidatorMultiformat.resultStats].
  change (ValidatorMultiformat.totalChecks
            (ValidatorMultiformat.stats (ValidatorMultiformat.runChecks content)))
    with (checksOf (ValidatorMultiformat.runChecks content)).
  unfold ValidatorMultiformat.runChecks. cbv zeta.
  rewrite checksOf_checkMessageConsistency, checksOf_checkCTARules,
    checksOf_checkForbiddenNapitok, checksOf_checkAbbreviations,
    checksOf_checkStickyTimerFormat, checksOf_checkSMSAlcoholRestrictions,
    checksOf_checkLengthLimits.
  unfold expectedChecks, checksOf. cbn [ValidatorMultiformat.totalChecks ValidatorMultiformat.stats].
  lia.
Qed.

(** X6.  No check reads the tabs section: two parses that differ only in their
    tabs variants get the same result from each of the four checks that take
    the sections, although [LIMITS] declares a minimum and a maximum length
    for tabs. *)
Theorem tabs_variants_are_never_checked
        (sections sections' : ValidatorMultiformat.Sections) (a : ValidatorMultiformat.Acc) :
  agreeOffTabs sections sections' ->
  ValidatorMultiformat.checkLengthLimits sections a
  = ValidatorMultiformat.checkLengthLimits sections' a
  /\ ValidatorMultiformat.checkSMSAlcoholRestrictions sections a
     = ValidatorMultiformat.checkSMSAlcoholRestrictions sections' a
  /\ ValidatorMultiformat.checkStickyTimerFormat sections a
     = ValidatorMultiformat.checkStickyTimerFormat sections' a
  /\ ValidatorMultiformat.checkMessageConsistency sections a
     = ValidatorMultiformat.checkMessageConsistency sections' a.
Proof.
  intros H.
  assert (E : forall k, k <> ValidatorMultiformat.tabs -> sections k = sections' k) by exact H.
  unfold ValidatorMultiformat.checkLengthLimits, ValidatorMultiformat.checkSMSAlcoholRestrictions,
    ValidatorMultiformat.checkStickyTimerFormat, ValidatorMultiformat.checkMessageConsistency,
    ValidatorMultiformat.pushSections, ValidatorMultiformat.smsSections.
  cbv zeta. cbn [fold_left].
  rewrite !(E ValidatorMultiformat.push_announce) by discriminate.
  rewrite !(E ValidatorMultiformat.push_reminder) by discriminate.
  rewrite !(E ValidatorMultiformat.push_last_call) by discriminate.
  rewrite !(E ValidatorMultiformat.sms_announce) by discriminate.
  rewrite !(E ValidatorMultiformat.sms_reminder) by discriminate.
  rewrite !(E ValidatorMultiformat.sms_last_call) by discriminate.
  rewrite !(E ValidatorMultiformat.yandex_maps) by discriminate.
  rewrite !(E ValidatorMultiformat.onboarding) by discriminate.
  rewrite !(E ValidatorMultiformat.landing_page) by discriminate.
  rewrite !(E ValidatorMultiformat.sticky_banner) by discriminate.
  rewrite !(E ValidatorMultiformat.sticky_banner_timer) by discriminate.
  rewrite !(E ValidatorMultiformat.ticker) by discriminate.
  split; [reflexivity|]. split; [reflexivity|]. split; reflexivity.
Qed.

Lemma tabs_variants_are_never_checked_witness :
  agreeOffTabs ValidatorMultiformat.emptySections
    (ValidatorMultiformat.setSection ValidatorMultiformat.emptySections
       ValidatorMultiformat.tabs [shortTab])
  /\ ValidatorMultiformat.checkLengthLimits ValidatorMultiformat.emptySections freshAcc
     = ValidatorMultiformat.checkLengthLimits
         (ValidatorMultiformat.setSection ValidatorMultiformat.emptySections
            ValidatorMultiformat.tabs [shortTab]) freshAcc.
Proof.
  assert (H : agreeOffTabs ValidatorMultiformat.emptySections
                (ValidatorMultiformat.setSection ValidatorMultiformat.emptySections
                   ValidatorMultiformat.tabs [shortTab])).
  { intros k Hk. unfold ValidatorMultiformat.setSection.
    destruct k; try reflexivity. now elim Hk. }
  split; [exact H|].
  exact (proj1 (@tabs_variants_are_never_checked _ _ freshAcc H)).
Defined.

(** ** Substring matching in the SMS check *)

Lemma startsWith_iff (p : jsstring) : forall s, startsWith s p = true <-> exists post, s = p ++ post.
Proof.
  induction p as [|x p IH]; intros s.
  - split; [intros _; now exists s | intros _; now destruct s].
  - destruct s as [|y s]; cbn [startsWith].
    + split; [discriminate | intros (post & H); discriminate H].
    + rewrite andb_true_iff, IH, N.eqb_eq. split.
      * intros (-> & post & ->). now exists post.
      * intros (post & H). cbn [app] in H. inversion H; subst. split; [reflexivity | now exists post].
Qed.

Lemma indexOfFrom_found_iff (p s : jsstring) :
  forall i, (0 <= i)%Z -> ((0 <= indexOfFrom i s p)%Z <-> occursIn p s).
Proof.
  induction s as [|c s IH]; intros i Hi; cbn [indexOfFrom].
  - destruct (startsWith [] p) eqn:E.
    + split; [intros _ | intros _; exact Hi]. apply startsWith_iff in E.
      destruct E as (post & E). now exists [], post.
    + split; [lia|]. intros (pre & post & H). exfalso.
      assert (T : startsWith [] p = true).
      { apply startsWith_iff. destruct pre; [|discriminate]. cbn [app] in H. now exists post. }
      congruence.
  - destruct (startsWith (c :: s) p) eqn:E.
    + split; [intros _ | intros _; exact Hi]. apply startsWith_iff in E.
      destruct E as (post & E). now exists [], post.
    + rewrite (IH (i + 1)%Z) by lia. split.
      * intros (pre & post & ->). now exists (c :: pre), post.
      * intros (pre & post & H). destruct pre as [|y pre]; cbn [app] in H.
        -- exfalso. assert (T : startsWith (c :: s) p = true)
             by (apply startsWith_iff; now exists post). congruence.
        -- inversion H; subst. now exists pre, post.
Qed.

Lemma includes_iff (t w : jsstring) : includes t w = true <-> occursIn w t.
Proof.
  unfold includes, indexOf. rewrite Z.leb_le. apply indexOfFrom_found_iff. lia.
Qed.

Lemma find_existsb {A} (f : A -> bool) (l : list A) :
  existsb f l = match find f l with Some _ => true | None => false end.
Proof.
  induction l as [|x l IH]; [reflexivity|]. cbn [existsb find].
  destruct (f x); [reflexivity | exact IH].
Qed.

Lemma codesOf_checkSmsAlcohol section v idx a :
  codesOf (ValidatorMultiformat.checkSmsAlcohol section v idx a)
  = codesOf a ++ (if mentionsAlcohol v then [js "SMS_ALCOHOL_MENTION"] else []).
Proof.
  unfold ValidatorMultiformat.checkSmsAlcohol, mentionsAlcohol. cbv zeta.
  rewrite find_existsb.
  destruct (find _ ValidatorMultiformat.SMS_FORBIDDEN_ALCOHOL) as [word|]; unfold codesOf.
  - cbn [ValidatorMultiformat.incChecks ValidatorMultiformat.incErrors ValidatorMultiformat.push
         ValidatorMultiformat.violations].
    rewrite map_app. reflexivity.
  - cbn [ValidatorMultiformat.incChecks ValidatorMultiformat.violations]. now rewrite app_nil_r.
Qed.

Lemma codesOf_forEach {A}
      (f : A -> nat -> ValidatorMultiformat.Acc -> ValidatorMultiformat.Acc)
      (g : A -> list jsstring) (l : list A) :
  (forall x i a, codesOf (f x i a) = codesOf a ++ g x) ->
  forall i a, codesOf (ValidatorMultiformat.forEach f i l a) = codesOf a ++ flat_map g l.
Proof.
  intros Hf. induction l as [|x l IH]; intros i a; cbn [ValidatorMultiformat.forEach flat_map].
  - now rewrite app_nil_r.
  - rewrite IH, Hf. now rewrite <- app_assoc.
Qed.

(** X28.  [checkSMSAlcoholRestrictions] reports at most one SMS_ALCOHOL_MENTION
    per SMS variant, in the order announce, reminder, last call, and it reports
    a variant exactly when one of the listed stems stands somewhere in the
    lower-cased text, inside a longer word as well. *)
Theorem sms_alcohol_matches_inside_words
        (sections : ValidatorMultiformat.Sections) (a : ValidatorMultiformat.Acc) :
  codesOf (ValidatorMultiformat.checkSMSAlcoholRestrictions sections a)
  = codesOf a
    ++ flat_map (fun v => if mentionsAlcohol v then [js "SMS_ALCOHOL_MENTION"] else [])
         (sections ValidatorMultiformat.sms_announce
          ++ sections ValidatorMultiformat.sms_reminder
          ++ sections ValidatorMultiformat.sms_last_call)
  /\ forall v,
       mentionsAlcohol v = true
       <-> exists w, In w ValidatorMultiformat.SMS_FORBIDDEN_ALCOHOL
                     /\ occursIn w (toLowerCase (ValidatorMultiformat.orEmpty
                                                   (ValidatorMultiformat.text v))).
Proof.
  split.
  - unfold ValidatorMultiformat.checkSMSAlcoholRestrictions, ValidatorMultiformat.smsSections.
    cbn [fold_left].
    rewrite !(@codesOf_forEach _ _ (fun v => if mentionsAlcohol v
                                             then [js "SMS_ALCOHOL_MENTION"] else []))
      by (intros x i a0; apply codesOf_checkSmsAlcohol).
    rewrite !flat_map_app, <- !app_assoc. reflexivity.
  - intros v. unfold mentionsAlcohol. rewrite existsb_exists. split.
    + intros (w & Hin & Hinc). exists w. split; [exact Hin | now apply includes_iff].
    + intros (w & Hin & Hocc). exists w. split; [exact Hin | now apply includes_iff].
Qed.

Lemma sms_alcohol_matches_inside_words_witness :
  mentionsAlcohol (smsVariant (js "Промокод на доставку")) = true.
Proof.
  apply (proj2 (sms_alcohol_matches_inside_words ValidatorMultiformat.emptySections freshAcc)).
  exists (js "ром"). split.
  - vm_compute. repeat (first [left; reflexivity | right]).
  - exists (js "п"), (js "окод на доставку"). vm_compute. reflexivity.
Defined.

(** ** Text without section headers *)

Lemma parseLine_before_header st line :
  ValidatorMultiformat.currentSection st = None ->
  ValidatorMultiformat.detectSection (trim line) = None ->
  ValidatorMultiformat.parseLine st line
  = {| ValidatorMultiformat.sections := ValidatorMultiformat.sections st;
       ValidatorMultiformat.currentSection := None;
       ValidatorMultiformat.currentVariant := ValidatorMultiformat.currentVariant st |}.
Proof.
  intros Hc Hd. unfold ValidatorMultiformat.parseLine. cbv zeta. rewrite Hd, Hc. reflexivity.
Qed.

(** Lines before the first header are dropped. *)
Lemma parse_headerless (content : jsstring) :
  headerless content ->
  forall k, ValidatorMultiformat.parseGeneratedContent content k = [].
Proof.
  intros H k. unfold ValidatorMultiformat.parseGeneratedContent.
  assert (G : forall ls st,
            (forall l, In l ls -> ValidatorMultiformat.detectSection (trim l) = None) ->
            ValidatorMultiformat.currentSection st = None ->
            ValidatorMultiformat.sections (fold_left ValidatorMultiformat.parseLine ls st)
            = ValidatorMultiformat.sections st).
  { induction ls as [|l ls IH]; intros st Hl Hc; [reflexivity|]. cbn [fold_left].
    rewrite IH.
    - rewrite parseLine_before_header by (assumption || (apply Hl; now left)). reflexivity.
    - intros l' Hl'. apply Hl. now right.
    - rewrite parseLine_before_header by (assumption || (apply Hl; now left)). reflexivity. }
  rewrite G by (assumption || reflexivity). reflexivity.
Qed.

Lemma codesOf_checkForbiddenNapitok content a :
  codesOf (ValidatorMultiformat.checkForbiddenNapitok content a)
  = codesOf a ++ (if test f_i napitokPattern content then [js "FORBIDDEN_NAPITOK"] else []).
Proof.
  unfold ValidatorMultiformat.checkForbiddenNapitok. cbv zeta.
  change (Seqs [Lit "напит"; OneOf "оа"; Lit "к"]) with napitokPattern.
  destruct (test f_i napitokPattern content); cbn [ValidatorMultiformat.when]; unfold codesOf.
  - cbn [ValidatorMultiformat.incChecks ValidatorMultiformat.incErrors ValidatorMultiformat.push
         ValidatorMultiformat.violations]. rewrite map_app. reflexivity.
  - cbn [ValidatorMultiformat.incChecks ValidatorMultiformat.violations]. now rewrite app_nil_r.
Qed.

Lemma section_checks_idle (s : ValidatorMultiformat.Sections) a :
  (forall k, s k = []) ->
  codesOf (ValidatorMultiformat.checkStickyTimerFormat s
             (ValidatorMultiformat.checkSMSAlcoholRestrictions s
                (ValidatorMultiformat.checkLengthLimits s a))) = codesOf a
  /\ forall a', codesOf (ValidatorMultiformat.checkMessageConsistency s a') = codesOf a'.
Proof.
  intros H. split.
  - unfold ValidatorMultiformat.checkStickyTimerFormat,
      ValidatorMultiformat.checkSMSAlcoholRestrictions, ValidatorMultiformat.checkLengthLimits,
      ValidatorMultiformat.pushSections, ValidatorMultiformat.smsSections.
    cbv zeta. cbn [fold_left]. rewrite !H. reflexivity.
  - intros a'. unfold ValidatorMultiformat.checkMessageConsistency. cbv zeta. rewrite !H.
    reflexivity.
Qed.

(** X7.  A text in which no line is a section header parses to empty sections,
    so that [validateMultiformat] checks no length limit at all: the violations
    are exactly the findings of the three scans of the whole text, in the order
    abbreviations, FORBIDDEN_NAPITOK, FORBIDDEN_KUPIT_CTA. *)
Theorem headerless_content_is_only_scanned (content : jsstring) :
  headerless content ->
  (forall k, ValidatorMultiformat.parseGeneratedContent content k = [])
  /\ codesOf (ValidatorMultiformat.runChecks content)
     = flat_map (fun w => if wordCharBefore f_i (js w) content
                          then [js "ABBREVIATED_WORD"] else []) abbreviations
       ++ (if test f_i napitokPattern content then [js "FORBIDDEN_NAPITOK"] else [])
       ++ (if wordCharBefore f_none (js "купи") (toLowerCase content)
              && negb (test f_i kupitVVinoteke content)
           then [js "FORBIDDEN_KUPIT_CTA"] else []).
Proof.
  intros H. pose proof (parse_headerless H) as E.
  split; [exact E|].
  unfold ValidatorMultiformat.runChecks. cbv zeta.
  destruct (@section_checks_idle (ValidatorMultiformat.parseGeneratedContent content)
              {| ValidatorMultiformat.violations := [];
                 ValidatorMultiformat.stats :=
                   {| ValidatorMultiformat.totalChecks := 0; ValidatorMultiformat.errors := 0;
                      ValidatorMultiformat.warnings := 0 |} |} E) as [S1 S2].
  rewrite S2, codesOf_checkCTARules, codesOf_checkForbiddenNapitok,
    codesOf_checkAbbreviations, S1.
  unfold codesOf at 1. cbn [ValidatorMultiformat.violations map app].
  now rewrite <- app_assoc.
Qed.

Lemma headerless_content_is_only_scanned_witness :
  headerless (js "Любимый напиток: купить со скидкой 20%")
  /\ codesOf (ValidatorMultiformat.runChecks (js "Любимый напиток: купить со скидкой 20%"))
     = [js "FORBIDDEN_NAPITOK"].
Proof.
  assert (H : headerless (js "Любимый напиток: купить со скидкой 20%")).
  { intros l Hl. vm_compute in Hl. destruct Hl as [<-|[]]. vm_compute. reflexivity. }
  split; [exact H|].
  rewrite (proj2 (@headerless_content_is_only_scanned _ H)).
  vm_compute. reflexivity.
Defined.

(** ** The variants read by [parseGeneratedContent] *)



Lemma SectionName_eqb_true a b : ValidatorMultiformat.SectionName_eqb a b = true -> a = b.
Proof. destruct a, b; (reflexivity || discriminate). Qed.





(** ** [extractField] and [replaceField] *)

Lemma extractLoop_outside p lines acc :
  (forall l, In l lines -> test f_i p (trim l) = false) ->
  extractLoop p lines false acc = acc.
Proof.
  induction lines as [|l lines IH]; intros H; [reflexivity|].
  cbn [extractLoop]. cbv zeta. rewrite (H l) by now left. cbn [negb andb].
  apply IH. intros l' Hl'. apply H. now right.
Qed.

Lemma extractLoop_inside p body post acc :
  (forall l, In l body -> isNewSection (trim l) = false) ->
  headIs (fun l => isNewSection (trim l)) post ->
  extractLoop p (body ++ post) true acc = acc ++ map trim body.
Proof.
  revert acc. induction body as [|l body IH]; intros acc Hbody Hpost.
  - cbn [app map]. rewrite app_nil_r.
    destruct Hpost as [->|(h & post' & -> & Hh)]; [reflexivity|].
    cbn [extractLoop]. cbv zeta. cbn [negb andb]. now rewrite Hh.
  - cbn [app extractLoop map]. cbv zeta. cbn [negb andb].
    rewrite (Hbody l) by now left.
    rewrite IH; [| intros l' Hl'; apply Hbody; now right | exact Hpost].
    now rewrite <- app_assoc.
Qed.

Lemma extractLoop_located p pre hdr body post acc :
  (forall l, In l pre -> test f_i p (trim l) = false) ->
  test f_i p (trim hdr) = true ->
  (forall l, In l body -> isNewSection (trim l) = false) ->
  headIs (fun l => isNewSection (trim l)) post ->
  extractLoop p (pre ++ (hdr :: body) ++ post) false acc = acc ++ map trim (hdr :: body).
Proof.
  intros Hpre Hhdr Hbody Hpost.
  induction pre as [|l pre IH].
  - cbn [app extractLoop]. cbv zeta. rewrite Hhdr. cbn [negb andb].
    rewrite extractLoop_inside by assumption. cbn [map]. now rewrite <- app_assoc.
  - cbn [app extractLoop]. cbv zeta. rewrite (Hpre l) by now left. cbn [negb andb].
    apply IH. intros l' Hl'. apply Hpre. now right.
Qed.

(** The decomposition of the lines around the first header of a field. *)
Lemma locate_field p (lines : list jsstring) :
  (exists l, In l lines /\ test f_i p (trim l) = true) ->
  exists pre hdr body post,
    lines = pre ++ (hdr :: body) ++ post
    /\ (forall l, In l pre -> test f_i p (trim l) = false)
    /\ test f_i p (trim hdr) = true
    /\ (forall l, In l body -> isNewSection (trim l) = false)
    /\ headIs (fun l => isNewSection (trim l)) post.
Proof.
  intros (l0 & Hin & Hl0).
  destruct (split_at_first (fun l => test f_i p (trim l)) lines)
    as (pre & rest & Hsplit & Hpre & Hrest).
  destruct Hrest as [->|(hdr & rest' & -> & Hhdr)].
  { rewrite app_nil_r in Hsplit. rewrite Hsplit in Hin.
    rewrite (Hpre l0 Hin) in Hl0. discriminate. }
  destruct (split_at_first (fun l => isNewSection (trim l)) rest')
    as (body & post & -> & Hbody & Hpost).
  exists pre, hdr, body, post. repeat split; assumption.
Qed.

Lemma no_header_or_located p (lines : list jsstring) :
  (forall l, In l lines -> test f_i p (trim l) = false)
  \/ (exists l, In l lines /\ test f_i p (trim l) = true).
Proof.
  induction lines as [|l lines [IH|(l0 & Hin & H0)]].
  - left. intros l [].
  - destruct (test f_i p (trim l)) eqn:E.
    + right. exists l. split; [now left | exact E].
    + left. intros l' [<-|Hl']; [exact E | now apply IH].
  - right. exists l0. split; [now right | exact H0].
Qed.

Lemma extractField_located output fieldName p pre hdr body post :
  lookupPattern fieldName = Some p ->
  splitOn 10 output = pre ++ (hdr :: body) ++ post ->
  (forall l, In l pre -> test f_i p (trim l) = false) ->
  test f_i p (trim hdr) = true ->
  (forall l, In l body -> isNewSection (trim l) = false) ->
  headIs (fun l => isNewSection (trim l)) post ->
  extractField output fieldName = Some (trim (join newline (map trim (hdr :: body)))).
Proof.
  intros Hp Hlines Hpre Hhdr Hbody Hpost. unfold extractField. rewrite Hp. cbv zeta.
  rewrite Hlines, extractLoop_located by assumption. reflexivity.
Qed.

Lemma replaceField_located output fieldName newContent p pre hdr body post :
  lookupPattern fieldName = Some p ->
  splitOn 10 output = pre ++ (hdr :: body) ++ post ->
  (forall l, In l pre -> test f_i p (trim l) = false) ->
  test f_i p (trim hdr) = true ->
  (forall l, In l body -> isNewSection (trim l) = false) ->
  headIs (fun l => isNewSection (trim l)) post ->
  replaceField output fieldName newContent = join newline (pre ++ [newContent; []] ++ post).
Proof.
  intros Hp Hlines Hpre Hhdr Hbody Hpost.
  unfold replaceField. rewrite Hp. cbv zeta. rewrite Hlines. unfold noBounds.
  rewrite (@findBounds_located p pre hdr body post 0 (-1)) by assumption.
  cbn [sectionStart sectionEnd].
  destruct (Z.eqb_spec (0 + Z.of_nat (List.length pre)) (-1)) as [E|_]; [lia|].
  unfold sliceTo, sliceFrom.
  rewrite (@firstn_length_app _ (Z.to_nat (0 + Z.of_nat (List.length pre))) pre) by lia.
  f_equal. f_equal.
  destruct post as [|h post'].
  - change ((-1 =? -1)%Z) with true. cbv iota.
    rewrite Nat2Z.id, skipn_all. reflexivity.
  - destruct (Z.eqb_spec (0 + Z.of_nat (List.length pre) + 1 + Z.of_nat (List.length body))
                         (-1)) as [E|_]; [lia|].
    rewrite app_assoc. f_equal. apply skipn_length_app.
    rewrite length_app. simpl List.length. lia.
Qed.



(** ** Splitting and joining lines *)

Lemma splitOn_app_sep (sep : N) (a b : jsstring) :
  splitOn sep (a ++ sep :: b) = splitOn sep a ++ splitOn sep b.
Proof.
  induction a as [|c a IH]; cbn [app splitOn].
  - now rewrite N.eqb_refl.
  - destruct (N.eqb c sep); [now rewrite IH|].
    rewrite IH. destruct (splitOn sep a) as [|l ls] eqn:E; [now apply splitOn_nonempty in E|].
    reflexivity.
Qed.

Lemma splitOn_join (sep : N) (ls : list jsstring) :
  ls <> [] -> splitOn sep (join [sep] ls) = flat_map (splitOn sep) ls.
Proof.
  induction ls as [|l ls IH]; intros H; [contradiction|].
  destruct ls as [|l2 ls'].
  - cbn [join flat_map]. now rewrite app_nil_r.
  - change (join [sep] (l :: l2 :: ls')) with (l ++ sep :: join [sep] (l2 :: ls')).
    rewrite splitOn_app_sep, IH by discriminate. reflexivity.
Qed.

Lemma splitOn_lines_free (sep : N) (s : jsstring) :
  forall l, In l (splitOn sep s) -> ~ In sep l.
Proof.
  induction s as [|c s IH]; cbn [splitOn].
  - intros l [<-|[]] [].
  - destruct (N.eqb_spec c sep) as [->|Hne].
    + intros l [<-|Hl]; [intros [] | now apply IH].
    + destruct (splitOn sep s) as [|l0 ls] eqn:E; [now apply splitOn_nonempty in E|].
      intros l [<-|Hl].
      * intros [H|H]; [congruence|]. apply (IH l0); [now left | exact H].
      * apply IH. now right.
Qed.

Lemma splitOn_free (sep : N) (l : jsstring) : ~ In sep l -> splitOn sep l = [l].
Proof.
  induction l as [|c l IH]; intros H; [reflexivity|]. cbn [splitOn].
  destruct (N.eqb_spec c sep) as [->|Hne]; [exfalso; apply H; now left|].
  rewrite IH; [reflexivity|]. intros Hin. apply H. now right.
Qed.

Lemma flat_map_splitOn_free (sep : N) (ls : list jsstring) :
  (forall l, In l ls -> ~ In sep l) -> flat_map (splitOn sep) ls = ls.
Proof.
  induction ls as [|l ls IH]; intros H; [reflexivity|]. cbn [flat_map].
  rewrite splitOn_free by (apply H; now left).
  rewrite IH; [reflexivity|]. intros l' Hl'. apply H. now right.
Qed.

(** ** Trimming *)

Lemma trimStart_snoc_ws (s : jsstring) (w : N) :
  isWhiteSpace w = true ->
  trimStart (s ++ [w]) = match trimStart s with [] => [] | _ :: _ => trimStart s ++ [w] end.
Proof.
  intros Hw. induction s as [|c s IH]; cbn [app trimStart].
  - now rewrite Hw.
  - destruct (isWhiteSpace c); [exact IH | reflexivity].
Qed.

Lemma trimEnd_snoc_ws (s : jsstring) (w : N) :
  isWhiteSpace w = true -> trimEnd (s ++ [w]) = trimEnd s.
Proof.
  intros Hw. unfold trimEnd. rewrite rev_app_distr. cbn [rev app trimStart]. now rewrite Hw.
Qed.

Lemma trim_snoc_ws (s : jsstring) (w : N) :
  isWhiteSpace w = true -> trim (s ++ [w]) = trim s.
Proof.
  intros Hw. unfold trim. rewrite trimStart_snoc_ws by exact Hw.
  destruct (trimStart s) as [|c t]; [reflexivity|]. now apply trimEnd_snoc_ws.
Qed.

Lemma join_snoc_empty (sep : jsstring) (ls : list jsstring) :
  ls <> [] -> join sep (ls ++ [[]]) = join sep ls ++ sep.
Proof.
  intros H. rewrite join_app by (assumption || discriminate). cbn [join].
  now rewrite app_nil_r.
Qed.

Lemma trim_nil : trim [] = [].
Proof. reflexivity. Qed.

Lemma isNewSection_empty : isNewSection (trim []) = false.
Proof. vm_compute. reflexivity. Qed.

(** What [extractField] returns for a text that opens with the header of the
    field and has no other section header. *)
Lemma extractField_standalone fieldName p content :
  lookupPattern fieldName = Some p ->
  test f_i p (trim (hd [] (splitOn 10 content))) = true ->
  (forall l, In l (tl (splitOn 10 content)) -> isNewSection (trim l) = false) ->
  extractField content fieldName
  = Some (trim (join newline (map trim (splitOn 10 content)))).
Proof.
  intros Hp Hh Hb.
  destruct (splitOn 10 content) as [|h b] eqn:E; [now apply splitOn_nonempty in E|].
  cbn [hd tl] in Hh, Hb.
  apply (@extractField_located content fieldName p [] h b []); try assumption.
  - now rewrite app_nil_r.
  - intros l [].
  - now left.
Qed.

(** X9.  Round trip of a field repair.  When the draft holds the header of the
    field, and the new content opens with a header of that field and holds no
    other section header, then extracting the field from the repaired draft
    gives the new content, each line trimmed and the whole trimmed: the same as
    extracting the field from the new content alone. *)
Theorem extractField_after_replaceField (output fieldName newContent : jsstring) (p : regex) :
  lookupPattern fieldName = Some p ->
  (exists l, In l (splitOn 10 output) /\ test f_i p (trim l) = true) ->
  test f_i p (trim (hd [] (splitOn 10 newContent))) = true ->
  (forall l, In l (tl (splitOn 10 newContent)) -> isNewSection (trim l) = false) ->
  extractField (replaceField output fieldName newContent) fieldName
  = Some (trim (join newline (map trim (splitOn 10 newContent))))
  /\ extractField (replaceField output fieldName newContent) fieldName
     = extractField newContent fieldName.
Proof.
  intros Hp Hl Hh Hb.
  assert (R : extractField (replaceField output fieldName newContent) fieldName
              = Some (trim (join newline (map trim (splitOn 10 newContent))))).
  { destruct (@locate_field p _ Hl) as (pre & hdr & body & post & Hs & H1 & H2 & H3 & H4).
    rewrite (@replaceField_located output fieldName newContent p pre hdr body post)
      by assumption.
    assert (Hfree : forall l, In l (pre ++ post) -> ~ In 10%N l).
    { intros l Hin. apply (@splitOn_lines_free 10%N output). rewrite Hs.
      apply in_app_or in Hin. apply in_or_app.
      destruct Hin as [Hin|Hin]; [now left | right; apply in_or_app; now right]. }
    destruct (splitOn 10 newContent) as [|h b] eqn:E; [now apply splitOn_nonempty in E|].
    cbn [hd tl] in Hh, Hb.
    assert (Hsplit : splitOn 10 (join newline (pre ++ [newContent; []] ++ post))
                     = pre ++ (h :: (b ++ [[]])) ++ post).
    { unfold newline. rewrite splitOn_join by (destruct pre; discriminate).
      rewrite !flat_map_app. cbn [flat_map]. rewrite E, app_nil_r.
      rewrite !flat_map_splitOn_free
        by (intros l Hin; apply Hfree; apply in_or_app; auto).
      cbn [splitOn app]. now rewrite <- app_assoc. }
    rewrite (@extractField_located _ fieldName p pre h (b ++ [[]]) post Hp Hsplit H1 Hh);
      [| | exact H4].
    - f_equal. change (h :: b ++ [[]]) with ((h :: b) ++ [[]]).
      rewrite map_app. cbn [map]. rewrite trim_nil.
      rewrite join_snoc_empty by discriminate.
      apply trim_snoc_ws. reflexivity.
    - intros l Hin. apply in_app_or in Hin. destruct Hin as [Hin|[<-|[]]];
        [now apply Hb | exact isNewSection_empty]. }
  split; [exact R|]. rewrite R. symmetry. now apply (@extractField_standalone fieldName p).
Qed.

Lemma extractField_after_replaceField_witness :
  extractField (replaceField sampleOutput (js "subject") sampleNew) (js "subject")
  = Some (js "ТЕМА — 3 варианта" ++ lf ++ js "1. Новое")
  /\ extractField (replaceField sampleOutput (js "subject") sampleNew) (js "subject")
     = extractField sampleNew (js "subject").
Proof.
  refine (@extractField_after_replaceField sampleOutput (js "subject") sampleNew
            (variantsHeader "ТЕМА") _ _ _ _).
  - vm_compute. reflexivity.
  - exists (js "ТЕМА — 3 варианта"). split; [vm_compute; left; reflexivity|].
    vm_compute. reflexivity.
  - vm_compute. reflexivity.
  - intros l Hl. vm_compute in Hl. destruct Hl as [<-|[]]. vm_compute. reflexivity.
Defined.



(** ** [surgicalRepair] *)

Lemma trimStart_head s x t : trimStart s = x :: t -> isWhiteSpace x = false.
Proof.
  induction s as [|c s IH]; cbn [trimStart]; [discriminate|].
  destruct (isWhiteSpace c) eqn:E; [exact IH|]. intros H. inversion H; subst. exact E.
Qed.

Lemma trimStart_snoc_nonws (s : jsstring) (x : N) :
  isWhiteSpace x = false -> trimStart (s ++ [x]) = trimStart s ++ [x].
Proof.
  intros Hx. induction s as [|c s IH]; cbn [app trimStart].
  - now rewrite Hx.
  - destruct (isWhiteSpace c); [exact IH | reflexivity].
Qed.

Lemma trimEnd_cons (x : N) (t : jsstring) :
  isWhiteSpace x = false -> exists t', trimEnd (x :: t) = x :: t'.
Proof.
  intros Hx. unfold trimEnd. cbn [rev]. rewrite trimStart_snoc_nonws by exact Hx.
  rewrite rev_app_distr. cbn [rev app]. eauto.
Qed.

Lemma trim_head s x t : trim s = x :: t -> isWhiteSpace x = false.
Proof.
  unfold trim. destruct (trimStart s) as [|y u] eqn:E; [discriminate|].
  pose proof (@trimStart_head _ _ _ E) as Hy.
  destruct (@trimEnd_cons y u Hy) as (t' & ->). intros H. inversion H; subst. exact Hy.
Qed.

Lemma trim_cons_nonws (x : N) (s : jsstring) :
  isWhiteSpace x = false -> exists t', trim (x :: s) = x :: t'.
Proof.
  intros Hx. unfold trim. cbn [trimStart]. rewrite Hx. now apply trimEnd_cons.
Qed.

Lemma lookupPattern_In fieldName p :
  lookupPattern fieldName = Some p -> In p (map snd sectionPatterns).
Proof.
  unfold lookupPattern.
  destruct (find (fun kv => jsstring_eqb (fst kv) fieldName) sectionPatterns) as [kv|] eqn:E;
    [|discriminate].
  intros H. inversion H; subst. apply find_some in E. apply in_map. exact (proj1 E).
Qed.

(** No header pattern matches the empty line. *)
Lemma header_not_empty fieldName p :
  lookupPattern fieldName = Some p -> test f_i p [] = false.
Proof.
  intros H. apply lookupPattern_In in H. unfold sectionPatterns in H. cbn [map snd In] in H.
  destruct H as [<-|[<-|[<-|[<-|[<-|[<-|[]]]]]]]; vm_compute; reflexivity.
Qed.

Lemma extractField_nonempty output fieldName c :
  extractField output fieldName = Some c -> c <> [].
Proof.
  intros H. destruct (lookupPattern fieldName) as [p|] eqn:Hp;
    [|unfold extractField in H; rewrite Hp in H; discriminate].
  destruct (no_header_or_located p (splitOn 10 output)) as [Hn|Hl].
  { unfold extractField in H. rewrite Hp in H. cbv zeta in H.
    rewrite extractLoop_outside in H by exact Hn. discriminate. }
  destruct (@locate_field p _ Hl) as (pre & hdr & body & post & Hs & H1 & H2 & H3 & H4).
  rewrite (@extractField_located output fieldName p pre hdr body post) in H by assumption.
  inversion H; subst c; clear H.
  destruct (trim hdr) as [|x t] eqn:E.
  { rewrite (@header_not_empty _ _ Hp) in H2. discriminate. }
  pose proof (@trim_head _ _ _ E) as Hx.
  destruct (map trim body); cbn [app];
    match goal with
    | |- trim (x :: ?s) <> [] => destruct (@trim_cons_nonws x s Hx) as (t' & ->)
    end; discriminate.
Qed.

(** X11.  [surgicalRepair] returns [null] exactly when the scope of the
    violation needs the full context or [extractField] finds no header of the
    field.  Otherwise it makes one call to the generator, with the prompt built
    from the extracted field, and returns the draft with the field replaced by
    the answer; an error of the call is thrown on to the caller.  The check for
    an empty extracted field never fires: what [extractField] returns starts
    with the header line. *)
Theorem surgicalRepair_outcomes (callLLM : jsstring -> LLMResult) (violation : Violation)
        (currentOutput parsedBrief : jsstring) :
  let scope := determineRepairScope violation in
  (surgicalRepair callLLM violation currentOutput parsedBrief = Return None
   <-> requiresFullContext scope = true \/ extractField currentOutput (field scope) = None)
  /\ (forall c,
        requiresFullContext scope = false ->
        extractField currentOutput (field scope) = Some c ->
        c <> []
        /\ surgicalRepair callLLM violation currentOutput parsedBrief
           = match callLLM (buildSurgicalRepairPrompt (field scope) c violation parsedBrief) with
             | Content repairedField =>
                 Return (Some (replaceField currentOutput (field scope) repairedField))
             | Failure m => Throw m
             end).
Proof.
  cbv zeta.
  assert (G : forall c,
             requiresFullContext (determineRepairScope violation) = false ->
             extractField currentOutput (field (determineRepairScope violation)) = Some c ->
             surgicalRepair callLLM violation currentOutput parsedBrief
             = match callLLM (buildSurgicalRepairPrompt (field (determineRepairScope violation))
                                c violation parsedBrief) with
               | Content repairedField =>
                   Return (Some (replaceField currentOutput
                                   (field (determineRepairScope violation)) repairedField))
               | Failure m => Throw m
               end).
  { intros c Hf Hc. unfold surgicalRepair. cbv zeta. rewrite Hf, Hc.
    destruct c as [|x c']; [now apply extractField_nonempty in Hc|].
    cbn [truthy negb].
    destruct (callLLM _); reflexivity. }
  split; [split|].
  - intros H. destruct (requiresFullContext (determineRepairScope violation)) eqn:Hf;
      [now left|]. right.
    destruct (extractField currentOutput (field (determineRepairScope violation)))
      as [c|] eqn:Hc; [|reflexivity].
    rewrite (G c eq_refl eq_refl) in H. destruct (callLLM _); discriminate H.
  - unfold surgicalRepair. cbv zeta. intros [H|H].
    + now rewrite H.
    + destruct (requiresFullContext (determineRepairScope violation)); [reflexivity|].
      now rewrite H.
  - intros c Hf Hc. split; [exact (@extractField_nonempty _ _ _ Hc) | exact (G c Hf Hc)].
Qed.

Lemma surgicalRepair_outcomes_witness :
  surgicalRepair (fun _ => Content sampleNew) (sampleViolation "CHAR_LIMIT_EXCEEDED" "subject")
    sampleOutput []
  = Return (Some (replaceField sampleOutput (js "subject") sampleNew)).
Proof.
  pose proof (proj2 (surgicalRepair_outcomes (fun _ => Content sampleNew)
                       (sampleViolation "CHAR_LIMIT_EXCEEDED" "subject") sampleOutput []))
    as H.
  cbv zeta in H.
  eapply eq_trans; [eapply H; vm_compute; reflexivity|].
  vm_compute. reflexivity.
Defined.

(** ** What [parseEmailOutput] leaves empty *)

Lemma updateNth_Forall {A} (P : A -> Prop) (f : A -> A) (n : nat) (l : list A) :
  (forall x, P x -> P (f x)) -> Forall P l -> Forall P (updateNth n f l).
Proof.
  intros Hf H. revert n. induction H as [|x l Hx Hl IH]; intros n; [destruct n; constructor|].
  destruct n; cbn [updateNth]; constructor; auto.
Qed.

Lemma pushVariants_bare s section vs cb :
  section <> Some SecBlockCTA -> bareBlocks s -> bareBlocks (pushVariants s section vs cb).
Proof.
  intros Hs [Hp Hb]. unfold pushVariants.
  destruct section as [[]|]; try (split; assumption); try contradiction.
  destruct cb as [i|]; [|split; assumption].
  split; [exact Hp|]. cbn [blocks]. apply updateNth_Forall; [|exact Hb].
  intros b [Ht Hc]. split; assumption.
Qed.

Lemma enterSection_inv st section passBlock :
  section <> SecBlockCTA -> parseInv st -> parseInv (enterSection st section passBlock).
Proof.
  intros Hs [Hc Hb]. unfold enterSection. split; cbn [currentSection pStructure].
  - congruence.
  - destruct (nonEmpty (variantBuffer st)); [now apply pushVariants_bare | exact Hb].
Qed.

Lemma openBlock_inv st : parseInv st -> parseInv (openBlock st).
Proof.
  intros [Hc [Hp Hb]]. unfold openBlock. split; cbn [currentSection pStructure]; [exact Hc|].
  split; cbn [productHeading blocks]; [exact Hp|].
  apply Forall_app. split; [exact Hb|]. constructor; [split; reflexivity | constructor].
Qed.

Lemma parseLine_inv st line : parseInv st -> parseInv (parseLine st line).
Proof.
  intros H. unfold parseLine. cbv zeta.
  repeat match goal with
         | |- parseInv (if ?b then _ else _) => destruct b
         | |- parseInv (openBlock _) => apply openBlock_inv
         | |- parseInv (enterSection _ _ _) => apply enterSection_inv; [discriminate|]
         | |- parseInv _ => exact H
         end.
Qed.

Lemma parseEmailOutput_bare output s : parseEmailOutput output = Some s -> bareBlocks s.
Proof.
  unfold parseEmailOutput. destruct (negb (truthy output)); [discriminate|]. cbv zeta.
  assert (I : parseInv (fold_left parseLine (splitOn 10 output) initialParseState)).
  { assert (I0 : parseInv initialParseState)
      by (split; [discriminate | split; [reflexivity | constructor]]).
    revert I0. generalize initialParseState.
    induction (splitOn 10 output) as [|l ls IH]; intros st I0; [exact I0|].
    cbn [fold_left]. apply IH. now apply parseLine_inv. }
  destruct I as [Hc Hb]. intros H. inversion H; subst s; clear H.
  destruct (nonEmpty _); [now apply pushVariants_bare | exact Hb].
Qed.

Lemma blockViolation_bare index b : text b = [] -> blockViolation index b = [].
Proof. intros H. unfold blockViolation. rewrite H. reflexivity. Qed.

Lemma blockViolations_bare s : bareBlocks s -> blockViolations s = [].
Proof.
  intros [_ H]. unfold blockViolations. generalize 0%nat.
  induction H as [|b bs [Ht _] _ IH]; intros i; [reflexivity|].
  cbn [forEachIndexed]. rewrite blockViolation_bare by exact Ht. apply IH.
Qed.

Lemma Forall_flat_map_all {A B} (P : B -> Prop) (f : A -> list B) (l : list A) :
  (forall x, Forall P (f x)) -> Forall P (flat_map f l).
Proof.
  intros H. induction l as [|x l IH]; cbn [flat_map]; [constructor|].
  apply Forall_app. split; [apply H | exact IH].
Qed.

Ltac stamp_cases :=
  repeat match goal with
         | |- Forall _ (if ?b then _ else _) => destruct b
         | |- Forall _ (match ?x with Some _ => _ | None => _ end) => destruct x
         | |- Forall _ [] => constructor
         | |- Forall _ [ _ ] => constructor; [ split; reflexivity | constructor ]
         | |- Forall _ (_ ++ _) => apply Forall_app; split
         end.

Lemma checkForbiddenWords_stamped text loc : Forall (stamped loc) (checkForbiddenWords text loc).
Proof.
  unfold checkForbiddenWords, degustatsiyaViolations, kupitViolations, pokupkaViolations,
    buketViolations, poslevkusieViolations. cbv zeta. stamp_cases.
Qed.

Lemma checkBannedCliches_stamped text loc : Forall (stamped loc) (checkBannedCliches text loc).
Proof.
  unfold checkBannedCliches. destruct (negb (truthy text)); [constructor|].
  apply Forall_flat_map_all. intros x. unfold clicheViolation. stamp_cases.
Qed.

Lemma checkGeographyLabels_stamped text loc :
  Forall (stamped loc) (checkGeographyLabels text loc).
Proof.
  unfold checkGeographyLabels. destruct (negb (truthy text)); [constructor|].
  apply Forall_flat_map_all. intros region. apply Forall_flat_map_all. intros p.
  unfold geographyViolation. stamp_cases.
Qed.

Lemma checkCharLimit_stamped text limit loc :
  Forall (stamped loc) (checkCharLimit text limit loc).
Proof. unfold checkCharLimit. cbv zeta. stamp_cases. Qed.

Lemma checkEmojis_stamped text loc : Forall (stamped loc) (checkEmojis text loc).
Proof. unfold checkEmojis. stamp_cases. Qed.

Lemma stamped_errorAt loc locs (l : list Violation) :
  In loc locs -> Forall (stamped loc) l -> Forall (errorAt locs) l.
Proof.
  intros Hin H. eapply Forall_impl; [|exact H]. intros v [Hs Hl]. split; [exact Hs|].
  now rewrite Hl.
Qed.

Ltac stamped_check :=
  lazymatch goal with
  | |- Forall _ (checkForbiddenWords _ _) => apply checkForbiddenWords_stamped
  | |- Forall _ (checkBannedCliches _ _) => apply checkBannedCliches_stamped
  | |- Forall _ (checkGeographyLabels _ _) => apply checkGeographyLabels_stamped
  | |- Forall _ (checkCharLimit _ _ _) => apply checkCharLimit_stamped
  | |- Forall _ (checkEmojis _ _) => apply checkEmojis_stamped
  end.

Lemma fieldViolations_errorAt s : Forall (errorAt fieldLocations) (fieldViolations s).
Proof.
  unfold fieldViolations.
  repeat match goal with
         | |- Forall _ (_ ++ _) => apply Forall_app; split
         | |- Forall _ (flat_map _ _) => apply Forall_flat_map_all; intros
         | |- Forall (errorAt _) (_ _ (js ?loc)) =>
             apply (@stamped_errorAt (js loc));
             [ unfold fieldLocations, repairableLocations; cbn [app In]; tauto
             | stamped_check ]
         | |- Forall (errorAt _) (_ _ _ (js ?loc)) =>
             apply (@stamped_errorAt (js loc));
             [ unfold fieldLocations, repairableLocations; cbn [app In]; tauto
             | stamped_check ]
         end.
Qed.

Lemma variantCountViolations_errorAt s required :
  Forall (errorAt repairableLocations) (variantCountViolations s required).
Proof.
  unfold variantCountViolations, variantCountViolation.
  repeat match goal with
         | |- Forall _ (_ ++ _) => apply Forall_app; split
         | |- Forall _ (if ?b then _ else _) => destruct b
         | |- Forall _ [] => constructor
         | |- Forall _ [ _ ] =>
             constructor; [ split; [reflexivity | cbn [location]; unfold repairableLocations;
                                                 cbn [In]; tauto ]
                          | constructor ]
         end.
Qed.

Lemma serviceViolations_stamped output :
  Forall (stamped (js "output")) (serviceViolations output).
Proof.
  unfold serviceViolations. apply Forall_flat_map_all. intros p. unfold serviceViolation.
  cbv zeta. stamp_cases.
Qed.

Lemma trigramViolations_errors s : Forall isErrorP (trigramViolations s).
Proof.
  unfold trigramViolations. apply Forall_flat_map_all. intros [[n1 t1] [n2 t2]].
  unfold trigramViolation. cbv zeta.
  repeat match goal with
         | |- Forall _ (if ?b then _ else _) => destruct b
         | |- Forall _ [] => constructor
         | |- Forall _ [ _ ] => constructor; [ reflexivity | constructor ]
         end.
Qed.

Lemma exactEqualityViolations_errors s : Forall isErrorP (exactEqualityViolations s).
Proof.
  unfold exactEqualityViolations, exactEquality.
  apply Forall_app; split; apply Forall_flat_map_all; intros x;
    apply Forall_flat_map_all; intros y;
    (destruct (jsstring_eqb (trim x) (trim y)); [constructor; [reflexivity | constructor]
                                                | constructor]).
Qed.

(** X12.  Whatever the draft, the structure read by [parseEmailOutput] has an
    empty [productHeading], and every block has an empty [text] and an empty
    [cta]: no header selects these sections.  So the block-length check of
    [validateEmail] finds nothing to report. *)
Theorem parseEmailOutput_never_fills_blocks (output : jsstring) (s : Structure) :
  parseEmailOutput output = Some s ->
  productHeading s = []
  /\ Forall (fun b => text b = [] /\ cta b = []) (blocks s)
  /\ blockViolations s = [].
Proof.
  intros H. pose proof (parseEmailOutput_bare _ H) as B.
  split; [exact (proj1 B)|]. split; [exact (proj2 B)|]. now apply blockViolations_bare.
Qed.

Lemma parseEmailOutput_never_fills_blocks_witness :
  exists s,
    parseEmailOutput blockDraft = Some s
    /\ List.length (blocks s) = 1
    /\ productHeading s = []
    /\ Forall (fun b => text b = [] /\ cta b = []) (blocks s)
    /\ blockViolations s = [].
Proof.
  eexists. split; [vm_compute; reflexivity|]. split; [reflexivity|].
  refine (@parseEmailOutput_never_fills_blocks blockDraft _ _).
  vm_compute. reflexivity.
Defined.

(** ** Severity and repair scope of the violations of [validateEmail] *)

Lemma collectViolations_errors output s spec :
  bareBlocks s -> Forall isErrorP (collectViolations output s spec).
Proof.
  intros B. unfold collectViolations. cbv zeta. rewrite (blockViolations_bare B).
  repeat match goal with
         | |- Forall _ (_ ++ _) => apply Forall_app; split
         end.
  - eapply Forall_impl; [|apply variantCountViolations_errorAt]. intros v [H _]. exact H.
  - eapply Forall_impl; [|apply fieldViolations_errorAt]. intros v [H _]. exact H.
  - apply trigramViolations_errors.
  - apply exactEqualityViolations_errors.
  - constructor.
  - eapply Forall_impl; [|apply serviceViolations_stamped]. intros v [H _]. exact H.
Qed.

Lemma filter_all_errors (l : list Violation) : Forall isErrorP l -> filter isError l = l.
Proof.
  induction 1 as [|v l Hv _ IH]; [reflexivity|]. cbn [filter]. unfold isError at 1.
  unfold isErrorP in Hv. rewrite Hv. cbn [Severity_eqb]. now rewrite IH.
Qed.

(** X13.  Every violation that [validateEmail] reports has severity ERROR (the
    only WARNING of the file belongs to the block-length check, which never
    fires); hence the verdict is [true] exactly when the list of violations is
    empty. *)
Theorem validateEmail_reports_only_errors (output parsedBrief : jsstring) (spec : Spec) :
  Forall (fun v => severity v = ERROR) (violations (validateEmail output parsedBrief spec))
  /\ (valid (validateEmail output parsedBrief spec) = true
      <-> violations (validateEmail output parsedBrief spec) = []).
Proof.
  unfold validateEmail. destruct (parseEmailOutput output) as [s|] eqn:E.
  - cbv zeta. cbn [valid violations].
    pose proof (collectViolations_errors output spec (parseEmailOutput_bare _ E)) as H.
    split; [exact H|]. rewrite (filter_all_errors H).
    destruct (collectViolations output s spec); cbn; split; congruence.
  - cbn [valid violations]. split; [repeat constructor | split; discriminate].
Qed.

Lemma scope_of_location v :
  In (location v) (fieldLocations ++ [js "output"]) -> surgicallyRepairable v.
Proof.
  intros H. unfold surgicallyRepairable, determineRepairScope.
  destruct (arrayIncludes fullContextCodes (code v)); [left; reflexivity|].
  unfold fieldLocations, repairableLocations in *. cbn [In app] in H.
  destruct H as [H|[H|[H|[H|[H|[H|[H|[]]]]]]]]; rewrite <- H;
    first [ left; vm_compute; reflexivity
          | right; split; [cbn [In]; tauto | vm_compute; reflexivity] ].
Qed.

Lemma scope_of_code v : In (code v) fullContextCodes -> surgicallyRepairable v.
Proof.
  intros H. left. unfold determineRepairScope, arrayIncludes.
  apply existsb_eqb_In in H. now rewrite H.
Qed.

Lemma errorAt_scope locs (l : list Violation) :
  incl locs (fieldLocations ++ [js "output"]) ->
  Forall (errorAt locs) l -> Forall surgicallyRepairable l.
Proof.
  intros Hi H. eapply Forall_impl; [|exact H]. intros v [_ Hl].
  apply scope_of_location. now apply Hi.
Qed.

Lemma emits_scope (c : string) (l : list Violation) :
  In (js c) fullContextCodes -> emits c l -> Forall surgicallyRepairable l.
Proof.
  intros Hc H. unfold emits in H. eapply Forall_impl; [|exact H]. intros v Hv.
  apply scope_of_code. now rewrite Hv.
Qed.

(** X14.  For every violation that [validateEmail] reports,
    [determineRepairScope] gives either the whole email or the field named by
    the location of the violation, and then this is one of subject, preheader,
    bannerTitle and bannerSubtitle: the locations intro, introCTA and output
    always lead to a repair with the full context. *)
Theorem email_violations_repair_scope (output parsedBrief : jsstring) (spec : Spec) :
  Forall surgicallyRepairable (violations (validateEmail output parsedBrief spec)).
Proof.
  unfold validateEmail. destruct (parseEmailOutput output) as [s|] eqn:E.
  - cbv zeta. cbn [violations]. unfold collectViolations. cbv zeta.
    rewrite (blockViolations_bare (parseEmailOutput_bare _ E)).
    repeat match goal with
           | |- Forall _ (_ ++ _) => apply Forall_app; split
           end.
    + eapply errorAt_scope; [|apply variantCountViolations_errorAt].
      unfold fieldLocations. intros x Hx. apply in_or_app. left. apply in_or_app. now left.
    + eapply errorAt_scope; [|apply fieldViolations_errorAt].
      intros x Hx. apply in_or_app. now left.
    + eapply emits_scope; [|apply trigram_emits]. vm_compute. tauto.
    + eapply emits_scope; [|apply exactEqualities_emit]. vm_compute. tauto.
    + constructor.
    + eapply (@errorAt_scope [js "output"]).
      * intros x Hx. apply in_or_app. now right.
      * eapply Forall_impl; [|apply serviceViolations_stamped].
        intros v [Hs Hl]. split; [exact Hs | now left].
  - cbn [violations]. constructor; [|constructor].
    apply scope_of_location. apply in_or_app. right. now left.
Qed.

(** ** The pairwise checks and the length check *)

Lemma setHas_In set g : setHas set g = true <-> In g set.
Proof. unfold setHas. apply existsb_eqb_In. Qed.

Lemma nonEmpty_filter_common (a b : list jsstring) :
  nonEmpty (filter (setHas b) a) = true <-> exists g, In g a /\ In g b.
Proof.
  unfold nonEmpty. split.
  - destruct (filter (setHas b) a) as [|g l] eqn:E; [discriminate|]. intros _.
    assert (H : In g (filter (setHas b) a)) by (rewrite E; now left).
    apply filter_In in H. exists g. split; [apply H | apply setHas_In, H].
  - intros (g & Ha & Hb).
    assert (H : In g (filter (setHas b) a)) by (apply filter_In; split; [|apply setHas_In]; assumption).
    destruct (filter (setHas b) a); [destruct H | reflexivity].
Qed.

(** X15.  The 3-gram check of a pair of fields does not depend on the order of
    the two fields: it reports a duplication for one order exactly when it
    does for the other. *)
Theorem trigramViolation_symmetric (name1 text1 name2 text2 : jsstring) :
  trigramViolation ((name1, text1), (name2, text2)) = []
  <-> trigramViolation ((name2, text2), (name1, text1)) = [].
Proof.
  assert (S : nonEmpty (filter (setHas (extract3Grams text2)) (extract3Grams text1))
              = nonEmpty (filter (setHas (extract3Grams text1)) (extract3Grams text2))).
  { apply eq_true_iff_eq. rewrite !nonEmpty_filter_common.
    split; intros (g & H1 & H2); exists g; split; assumption. }
  unfold trigramViolation. cbv beta iota zeta. rewrite S. clear S.
  destruct (nonEmpty _); split; intros H; (reflexivity || discriminate H).
Qed.

Lemma codePointLength_cons2 (c d : N) (s : jsstring) :
  codePointLength (c :: d :: s)
  = if isHighSurrogate c && isLowSurrogate d
    then S (codePointLength s) else S (codePointLength (d :: s)).
Proof. reflexivity. Qed.

Lemma codePointLength_bounds_aux (n : nat) :
  forall s, List.length s <= n ->
            codePointLength s <= List.length s /\ List.length s <= 2 * codePointLength s.
Proof.
  induction n as [|n IH]; intros s Hn.
  - destruct s; [cbn; lia | cbn in Hn; lia].
  - destruct s as [|c [|d s'']]; [cbn; lia | cbn; lia |].
    rewrite codePointLength_cons2. cbn [List.length] in Hn.
    destruct (isHighSurrogate c && isLowSurrogate d).
    + destruct (IH s'') as [H1 H2]; [lia|]. cbn [List.length]. lia.
    + destruct (IH (d :: s'')) as [H1 H2]; [cbn [List.length]; lia|].
      cbn [List.length] in *. lia.
Qed.

Lemma codePointLength_bounds s :
  codePointLength s <= List.length s /\ List.length s <= 2 * codePointLength s.
Proof. now apply (@codePointLength_bounds_aux (List.length s) s). Qed.

(** X16.  [checkCharLimit] counts code points, which lie between half the
    number of UTF-16 code units and that number.  So a text of at most [limit]
    code units passes, a text of more than twice [limit] code units is
    reported, and a text that the length rule of the multiformat validator
    accepts under the same limit is accepted here as well. *)
Theorem checkCharLimit_between_unit_counts (text : jsstring) (limit : nat) (loc : jsstring) :
  (List.length text <= limit -> checkCharLimit text limit loc = [])
  /\ (2 * limit < List.length text -> checkCharLimit text limit loc <> [])
  /\ (ValidatorMultiformat.overLimit (Some text) limit = None ->
      checkCharLimit text limit loc = []).
Proof.
  destruct (codePointLength_bounds text) as [H1 H2].
  assert (A : List.length text <= limit -> checkCharLimit text limit loc = [])
    by (intros H; apply checkCharLimit_within; lia).
  split; [exact A|]. split.
  - intros H. rewrite checkCharLimit_over; [discriminate | | lia].
    destruct text; [cbn in H; lia | discriminate].
  - unfold ValidatorMultiformat.overLimit. destruct text as [|c t]; [reflexivity|].
    cbn [truthy andb]. destruct (Nat.ltb_spec limit (List.length (c :: t))); [discriminate|].
    intros _. now apply A.
Qed.

Lemma checkCharLimit_between_unit_counts_witness :
  checkCharLimit (js "вино") 10 (js "subject") = []
  /\ checkCharLimit ninety 40 (js "subject") <> [].
Proof.
  split.
  - apply (proj1 (checkCharLimit_between_unit_counts (js "вино") 10 (js "subject"))).
    vm_compute. lia.
  - apply (proj1 (proj2 (checkCharLimit_between_unit_counts ninety 40 (js "subject")))).
    vm_compute. lia.
Defined.

(** ** What the orchestrators return *)

Section EmailContract.

Variable Brief : Type.
Variable Prompt : Type.
Variable briefMissing : Brief -> bool.
Variable callLLM : nat -> Prompt -> LLMResult.
Variable composeGenerationPrompt : Brief -> Prompt.
Variable composeRepairPrompt : Brief -> jsstring -> list Violation -> Prompt.
Variable validate : Brief -> jsstring -> ValidationResult.

Local Abbreviation emailLoop := (emailRepairLoop callLLM composeRepairPrompt validate).
Local Abbreviation emailSession :=
  (generateEmail briefMissing callLLM composeGenerationPrompt composeRepairPrompt validate).
Local Abbreviation emailRest := (emailAfterFirstDraft callLLM composeRepairPrompt validate).

Lemma emailLoop_finished brief remaining :
  forall attempt st st',
    emailLoop brief remaining attempt st = Finished st' ->
    Forall (recordsInvalid validate brief) (attemptHistory st) ->
    Forall (recordsInvalid validate brief) (attemptHistory st')
    /\ List.length (attemptHistory st') <= List.length (attemptHistory st) + remaining.
Proof.
  induction remaining as [|remaining IH]; intros attempt st st' H Hs; cbn [emailRepairLoop] in H.
  - injection H as <-. split; [exact Hs | lia].
  - destruct (callLLM attempt _) as [d|m].
    + cbv zeta in H. destruct (valid (validate brief d)) eqn:V; [discriminate|].
      assert (Hs' : Forall (recordsInvalid validate brief)
                      (attemptHistory st
                       ++ [ {| attempt := attempt; draft := d; validation := validate brief d |} ])).
      { apply Forall_app. split; [exact Hs|]. constructor; [|constructor].
        split; [reflexivity | exact V]. }
      destruct (_ && _).
      * injection H as <-. cbn [attemptHistory]. split; [exact Hs'|].
        rewrite length_app. cbn. lia.
      * apply IH in H; [|exact Hs']. cbn [attemptHistory] in H.
        rewrite length_app in H. cbn [List.length] in H. split; [apply H | lia].
    + apply IH in H; [|exact Hs]. split; [apply H | lia].
Qed.

Lemma emailLoop_returned brief remaining :
  forall attempt st r,
    emailLoop brief remaining attempt st = Returned r ->
    success r = true
    /\ valid (validate brief (content r)) = true
    /\ Orchestrator.resultViolations r = []
    /\ resultStructure r = structure (validate brief (content r))
    /\ warning r = None
    /\ attempt <= attempts r < attempt + remaining.
Proof.
  induction remaining as [|remaining IH]; intros attempt st r H; cbn [emailRepairLoop] in H;
    [discriminate|].
  destruct (callLLM attempt _) as [d|m].
  - cbv zeta in H. destruct (valid (validate brief d)) eqn:V.
    + injection H as <-. cbn. repeat split; try assumption; lia.
    + destruct (_ && _); [discriminate|]. apply IH in H.
      repeat split; try apply H; lia.
  - apply IH in H. repeat split; try apply H; lia.
Qed.

(** X17.  Whenever [generateEmail] returns, [success] is the verdict of the
    validator on the returned content and [structure] is the structure parsed
    from it; a successful result carries no violations and no warning, a failed
    one carries the violations of the returned content and a warning; and
    [attempts] lies between 1 and the attempt budget (3 with the repair loop,
    1 without). *)
Theorem generateEmail_result_contract brief settings r :
  emailSession brief settings = Return r ->
  success r = valid (validate brief (content r))
  /\ (success r = true ->
      Orchestrator.resultViolations r = [] /\ warning r = None)
  /\ (success r = false ->
      Orchestrator.resultViolations r = violations (validate brief (content r))
      /\ warning r <> None)
  /\ resultStructure r = structure (validate brief (content r))
  /\ 1 <= attempts r
  /\ attempts r <= (if enableRepairLoop settings then DEFAULT_MAX_REPAIR_ATTEMPTS else 1).
Proof.
  unfold generateEmail. destruct (briefMissing brief); [discriminate|].
  destruct (negb (truthy (apiKey settings))); [discriminate|]. cbv zeta.
  destruct (callLLM 1 (composeGenerationPrompt brief)) as [d|m]; [|discriminate].
  intros H. injection H as <-.
  set (MAX := if enableRepairLoop settings then DEFAULT_MAX_REPAIR_ATTEMPTS else 1).
  assert (HM : 1 <= MAX) by (unfold MAX, DEFAULT_MAX_REPAIR_ATTEMPTS; destruct (enableRepairLoop settings); lia).
  unfold emailAfterFirstDraft. cbv zeta.
  destruct (valid (validate brief d)) eqn:V.
  - cbn [success content Orchestrator.resultViolations warning resultStructure attempts].
    rewrite V. repeat split; try discriminate; try reflexivity; lia.
  - set (first := {| attempt := 1; draft := d; validation := validate brief d |}).
    destruct (emailRepairLoop callLLM composeRepairPrompt validate brief (MAX - 1) 2 _)
      as [r|st] eqn:E.
    + apply emailLoop_returned in E.
      destruct E as (Hs & Hv & Hn & Hst & Hw & Ha).
      rewrite Hs, Hv. repeat split; try assumption; try discriminate; try lia.
    + pose proof E as Hh. apply emailLoop_history in Hh. destruct Hh as (more & Hh).
      cbn [attemptHistory] in Hh.
      apply emailLoop_finished in E;
        [|cbn [attemptHistory]; constructor; [split; [reflexivity | exact V] | constructor]].
      destruct E as [Hall Hlen]. cbn [attemptHistory List.length] in Hlen.
      unfold emailBestEffort. cbv zeta.
      cbn [success content Orchestrator.resultViolations warning resultStructure attempts].
      rewrite Hh in *. change ([first] ++ more) with (first :: more) in *.
      destruct (bestAttempt_earliest_minimum first more) as (l1 & l2 & Hsplit & _ & _).
      assert (Hin : In (bestAttempt first (first :: more)) (first :: more)).
      { rewrite Hsplit at 2. apply in_or_app. right. now left. }
      rewrite Forall_forall in Hall. destruct (Hall _ Hin) as [Hval Hinv].
      rewrite <- Hval, Hinv.
      repeat split; try discriminate; try reflexivity; cbn [List.length] in *; lia.
Qed.


End EmailContract.

Lemma generateEmail_result_contract_witness :
  runEmail [email3; email1; email2] = Return (emailOutcome [email3; email1; email2])
  /\ success (emailOutcome [email3; email1; email2])
     = valid (validateEmail (content (emailOutcome [email3; email1; email2])) [] defaultSpec)
  /\ 1 <= attempts (emailOutcome [email3; email1; email2])
  /\ attempts (emailOutcome [email3; email1; email2]) <= 3.
Proof.
  assert (E : runEmail [email3; email1; email2]
              = Return (emailOutcome [email3; email1; email2]))
    by (vm_compute; reflexivity).
  split; [exact E|].
  pose proof (@generateEmail_result_contract unit unit (fun _ => false)
                (scripted [email3; email1; email2]) (fun _ => tt) (fun _ _ _ => tt)
                (fun _ d => validateEmail d [] defaultSpec) tt settingsOn
                (emailOutcome [email3; email1; email2]) E)
    as (H1 & _ & _ & _ & H5 & H6).
  split; [exact H1|]. split; [exact H5 | exact H6].
Defined.


Lemma ascendingFrom_weaken k k' l : k' <= k -> ascendingFrom k l = true -> ascendingFrom k' l = true.
Proof.
  destruct l as [|x l]; [reflexivity|]. cbn [ascendingFrom]. intros Hk H.
  apply andb_prop in H. destruct H as [H1 H2]. apply Nat.leb_le in H1.
  rewrite H2, andb_true_r. apply Nat.leb_le. lia.
Qed.

Lemma ascendingFrom_snoc k l x :
  ascendingFrom k l = true -> (forall y, In y l -> y < x) -> k <= x ->
  ascendingFrom k (l ++ [x]) = true.
Proof.
  revert k. induction l as [|y l IH]; intros k H Hlt Hk; cbn [app ascendingFrom].
  - rewrite andb_true_r. now apply Nat.leb_le.
  - cbn [ascendingFrom] in H. apply andb_prop in H. destruct H as [H1 H2].
    rewrite H1. cbn [andb]. apply IH; [exact H2 | | ].
    + intros z Hz. apply Hlt. now right.
    + specialize (Hlt y (or_introl eq_refl)). lia.
Qed.

Lemma ascendingFrom_snoc_length k l x :
  ascendingFrom k (l ++ [x]) = true -> k + List.length l <= x.
Proof.
  revert k. induction l as [|y l IH]; intros k; cbn [app ascendingFrom List.length].
  - rewrite andb_true_r. intros H. apply Nat.leb_le in H. lia.
  - intros H. apply andb_prop in H. destruct H as [Hy H]. apply Nat.leb_le in Hy.
    apply IH in H. lia.
Qed.

Section MultiformatContract.

Variable Brief : Type.
Variable Prompt : Type.
Variable briefMissing : Brief -> bool.
Variable callLLM : nat -> Prompt -> LLMResult.
Variable composeMultiformatGenerationPrompt : Brief -> Prompt.
Variable composeMultiformatRepairPrompt : jsstring -> list Violation -> Brief -> Prompt.
Variable validateMultiformat : jsstring -> Brief -> ValidatorMultiformat.Result.

Local Abbreviation multiformatLoop :=
  (multiformatRepairLoop callLLM composeMultiformatRepairPrompt validateMultiformat).
Local Abbreviation multiformatSession :=
  (generateMultiformat briefMissing callLLM composeMultiformatGenerationPrompt
     composeMultiformatRepairPrompt validateMultiformat).
Local Abbreviation loopInv := (loopInvariant validateMultiformat).

Lemma loopInvariant_record brief k next st d :
  loopInv brief k st -> k < next ->
  ValidatorMultiformat.isValid (validateMultiformat d brief) = false ->
  loopInv brief next
    {| lastDraft := d; lastValidation := validateMultiformat d brief;
       attemptHistory :=
         attemptHistory st
         ++ [ {| attempt := k; draft := d; validation := validateMultiformat d brief |} ] |}.
Proof.
  intros (H1 & H2 & H3 & H4) Hk V. unfold loopInvariant.
  cbn [attemptHistory lastDraft lastValidation].
  split; [|split; [|split]].
  - apply Forall_app. split; [exact H1|]. constructor; [|constructor]. split; [reflexivity|exact V].
  - rewrite map_app. cbn [map attempt]. apply ascendingFrom_snoc; [exact H2 | |].
    + intros y Hy. apply in_map_iff in Hy. destruct Hy as (a & <- & Ha). now apply H3.
    + destruct H4 as (hs & a & Hh & _).
      assert (Ha : In a (attemptHistory st)) by (rewrite Hh; apply in_or_app; right; now left).
      specialize (H3 a Ha).
      rewrite Hh, map_app in H2. apply ascendingFrom_snoc_length in H2.
      cbn [attempt] in H2. lia.
  - intros a Ha. apply in_app_or in Ha. destruct Ha as [Ha|[<-|[]]].
    + specialize (H3 a Ha). lia.
    + cbn [attempt]. exact Hk.
  - eexists _, _. repeat split.
Qed.

Lemma loopInvariant_next brief k next st :
  loopInv brief k st -> k <= next -> loopInv brief next st.
Proof.
  intros (H1 & H2 & H3 & H4) Hk. repeat split; try assumption.
  intros a Ha. specialize (H3 a Ha). lia.
Qed.

Lemma multiformatLoop_finished brief remaining :
  forall attempt st st',
    multiformatLoop brief remaining attempt st = Finished st' ->
    loopInv brief attempt st ->
    loopInv brief (attempt + remaining) st'
    /\ List.length (attemptHistory st') <= List.length (attemptHistory st) + remaining.
Proof.
  induction remaining as [|remaining IH]; intros attempt st st' H Hs;
    cbn [multiformatRepairLoop] in H.
  - injection H as <-. split; [|lia]. apply (loopInvariant_next Hs). lia.
  - destruct (callLLM attempt _) as [d|m].
    + cbv zeta in H.
      destruct (ValidatorMultiformat.isValid (validateMultiformat d brief)) eqn:V;
        [discriminate|].
      apply IH in H.
      * cbn [attemptHistory] in H. rewrite length_app in H. cbn [List.length] in H.
        replace (attempt + S remaining) with (S attempt + remaining) by lia.
        split; [apply H | lia].
      * apply (@loopInvariant_record brief attempt (S attempt) st d Hs); [lia | exact V].
    + apply IH in H.
      * replace (attempt + S remaining) with (S attempt + remaining) by lia.
        split; [apply H | lia].
      * apply (loopInvariant_next Hs). lia.
Qed.

Lemma multiformatLoop_returned brief remaining :
  forall attempt st r,
    multiformatLoop brief remaining attempt st = Returned r ->
    loopInv brief attempt st ->
    mfSuccess r = true
    /\ ValidatorMultiformat.isValid (validateMultiformat (mfContent r) brief) = true
    /\ mfViolations r = []
    /\ attempt <= mfAttempts r < attempt + remaining
    /\ List.length (mfAttemptHistory r) <= List.length (attemptHistory st) + remaining
    /\ ascendingFrom 1 (map Orchestrator.attempt (mfAttemptHistory r)) = true
    /\ exists hs,
         mfAttemptHistory r
         = hs ++ [ {| attempt := mfAttempts r; draft := mfContent r;
                      validation := validateMultiformat (mfContent r) brief |} ]
         /\ Forall (recordsInvalidMultiformat validateMultiformat brief) hs.
Proof.
  induction remaining as [|remaining IH]; intros attempt st r H Hs;
    cbn [multiformatRepairLoop] in H; [discriminate|].
  destruct (callLLM attempt _) as [d|m].
  - cbv zeta in H.
    destruct (ValidatorMultiformat.isValid (validateMultiformat d brief)) eqn:V.
    + injection H as <-. cbn [mfSuccess mfContent mfViolations mfAttempts mfAttemptHistory
                                attemptHistory].
      destruct Hs as (H1 & H2 & H3 & H4).
      split; [reflexivity|]. split; [exact V|]. split; [reflexivity|]. split; [lia|].
      split; [rewrite length_app; cbn; lia|]. split.
      * rewrite map_app. cbn [map Orchestrator.attempt].
        apply ascendingFrom_snoc; [exact H2 | |].
        -- intros y Hy. apply in_map_iff in Hy. destruct Hy as (a & <- & Ha). now apply H3.
        -- destruct H4 as (hs & a & Hh & _).
           assert (Ha : In a (attemptHistory st))
             by (rewrite Hh; apply in_or_app; right; now left).
           specialize (H3 a Ha).
           rewrite Hh, map_app in H2. apply ascendingFrom_snoc_length in H2.
           cbn [Orchestrator.attempt] in H2. lia.
      * exists (attemptHistory st). split; [reflexivity | exact H1].
    + apply IH in H.
      * cbn [attemptHistory] in H. rewrite length_app in H. cbn [List.length] in H.
        destruct H as (A & B & C & D & E & F & G).
        repeat split; try assumption; lia.
      * apply (@loopInvariant_record brief attempt (S attempt) st d Hs); [lia | exact V].
  - apply IH in H.
    + destruct H as (A & B & C & D & E & F & G). repeat split; try assumption; lia.
    + apply (loopInvariant_next Hs). lia.
Qed.

(** X19.  Whenever [generateMultiformat] returns, [success] is the verdict of
    the validator on the returned content; the last entry of [attemptHistory]
    is the returned content with its validation and every earlier entry is an
    invalid draft; the attempt numbers of the history ascend from 1; a failed
    result, and a result of the first attempt, carry the violations of the
    returned content, a success of a repair carries none; and [attempts] is at
    least the length of the history and lies between 1 and the budget. *)
Theorem generateMultiformat_result_contract brief settings r :
  multiformatSession brief settings = Return r ->
  mfSuccess r = ValidatorMultiformat.isValid (validateMultiformat (mfContent r) brief)
  /\ (exists hs a,
         mfAttemptHistory r = hs ++ [a]
         /\ draft a = mfContent r
         /\ validation a = validateMultiformat (mfContent r) brief
         /\ Forall (recordsInvalidMultiformat validateMultiformat brief) hs)
  /\ ascendingFrom 1 (map attempt (mfAttemptHistory r)) = true
  /\ (mfSuccess r = false \/ mfAttempts r = 1 ->
      mfViolations r
      = ValidatorMultiformat.resultViolations (validateMultiformat (mfContent r) brief))
  /\ (mfSuccess r = true -> 1 < mfAttempts r -> mfViolations r = [])
  /\ List.length (mfAttemptHistory r) <= mfAttempts r
  /\ 1 <= mfAttempts r
  /\ mfAttempts r <= (if enableRepairLoop settings then DEFAULT_MAX_REPAIR_ATTEMPTS else 1).
Proof.
  unfold generateMultiformat. destruct (briefMissing brief); [discriminate|].
  destruct (negb (truthy (apiKey settings))); [discriminate|]. cbv zeta.
  destruct (callLLM 1 (composeMultiformatGenerationPrompt brief)) as [d|m]; [|discriminate].
  intros H. injection H as <-.
  unfold multiformatAfterFirstDraft. cbv zeta.
  set (first := {| attempt := 1; draft := d; validation := validateMultiformat d brief |}).
  destruct (ValidatorMultiformat.isValid (validateMultiformat d brief)
            || negb (enableRepairLoop settings)) eqn:C.
  - cbn [mfSuccess mfContent mfViolations mfAttempts mfAttemptHistory].
    split; [reflexivity|]. split.
    { exists [], first. repeat split. constructor. }
    split; [reflexivity|]. split; [reflexivity|]. split; [lia|]. split; [cbn; lia|].
    split; [lia|]. unfold DEFAULT_MAX_REPAIR_ATTEMPTS. destruct (enableRepairLoop settings); lia.
  - apply orb_false_elim in C. destruct C as [V En]. apply negb_false_iff in En. rewrite En.
    unfold DEFAULT_MAX_REPAIR_ATTEMPTS.
    assert (I : loopInv brief 2
                  {| lastDraft := d; lastValidation := validateMultiformat d brief;
                     attemptHistory := [first] |}).
    { unfold loopInvariant. cbn [attemptHistory lastDraft lastValidation]. repeat split.
      - constructor; [split; [reflexivity | exact V] | constructor].
      - intros a [<-|[]]. cbn. lia.
      - exists [], first. repeat split. }
    destruct (multiformatRepairLoop callLLM composeMultiformatRepairPrompt validateMultiformat
                brief (3 - 1) 2 _) as [r|st] eqn:E.
    + apply multiformatLoop_returned in E; [|exact I].
      destruct E as (Hs & Hv & Hn & Ha & Hl & Hasc & (hs & Hh & Hall)).
      rewrite Hs, Hv. split; [reflexivity|]. split.
      { exists hs, {| attempt := mfAttempts r; draft := mfContent r;
                      validation := validateMultiformat (mfContent r) brief |}.
        repeat split; assumption. }
      split; [exact Hasc|]. split; [intros [F|F]; [discriminate | lia]|].
      split; [intros _ _; exact Hn|].
      split; [|lia].
      rewrite Hh in Hasc |- *. rewrite map_app in Hasc. cbn [map attempt] in Hasc.
      apply ascendingFrom_snoc_length in Hasc. rewrite length_map in Hasc.
      rewrite length_app. cbn [List.length]. lia.
    + apply multiformatLoop_finished in E; [|exact I].
      destruct E as ((H1 & H2 & H3 & (hs & a & Hh & Hd & Hv)) & Hlen).
      cbn [attemptHistory List.length] in Hlen.
      cbn [mfSuccess mfContent mfViolations mfAttempts mfAttemptHistory].
      assert (Ra : recordsInvalidMultiformat validateMultiformat brief a).
      { rewrite Forall_forall in H1. apply H1. rewrite Hh. apply in_or_app. right. now left. }
      destruct Ra as [Ra1 Ra2]. rewrite Hd in Ra1. rewrite <- Ra1, Ra2.
      split; [reflexivity|]. split.
      { exists hs, a. repeat split; try assumption.
        rewrite Hh in H1. apply Forall_app in H1. apply H1. }
      split; [exact H2|]. split; [intros _; now rewrite Hv|].
      split; [discriminate|]. split; lia.
Qed.

(** X20.  [generateMultiformat] has no early stop: with the repair loop on and a
    generator whose every draft is invalid, it makes all three attempts,
    records each of them and returns without success, also when the drafts and
    their violations never change. *)
Theorem generateMultiformat_spends_all_attempts brief settings :
  briefMissing brief = false ->
  truthy (apiKey settings) = true ->
  enableRepairLoop settings = true ->
  (forall k p, exists d,
      callLLM k p = Content d
      /\ ValidatorMultiformat.isValid (validateMultiformat d brief) = false) ->
  exists r,
    multiformatSession brief settings = Return r
    /\ mfSuccess r = false
    /\ mfAttempts r = DEFAULT_MAX_REPAIR_ATTEMPTS
    /\ List.length (mfAttemptHistory r) = DEFAULT_MAX_REPAIR_ATTEMPTS.
Proof.
  intros Hb Hk He Hgen. unfold generateMultiformat. rewrite Hb, Hk, He. cbn [negb]. cbv zeta.
  destruct (Hgen 1 (composeMultiformatGenerationPrompt brief)) as (d & Hc & Hv).
  rewrite Hc. eexists. split; [reflexivity|].
  unfold multiformatAfterFirstDraft. cbv zeta. rewrite Hv, He. cbn [negb orb].
  destruct (@multiformatLoop_spends_budget Brief Prompt callLLM composeMultiformatRepairPrompt
              validateMultiformat brief (DEFAULT_MAX_REPAIR_ATTEMPTS - 1) Hgen 2
              {| lastDraft := d; lastValidation := validateMultiformat d brief;
                 attemptHistory := [ {| attempt := 1; draft := d;
                                        validation := validateMultiformat d brief |} ] |})
    as (st' & Hl & Hn).
  rewrite Hl. cbn [mfSuccess mfAttempts mfAttemptHistory].
  split; [reflexivity|]. split; [reflexivity|]. rewrite Hn. reflexivity.
Qed.

End MultiformatContract.

Lemma generateMultiformat_result_contract_witness :
  runMultiformat [multiformat3; multiformat1; multiformat2]
  = Return (multiformatOutcome [multiformat3; multiformat1; multiformat2])
  /\ mfSuccess (multiformatOutcome [multiformat3; multiformat1; multiformat2])
     = ValidatorMultiformat.isValid
         (ValidatorMultiformat.validateMultiformat
            (mfContent (multiformatOutcome [multiformat3; multiformat1; multiformat2])) tt)
  /\ ascendingFrom 1
       (map attempt (mfAttemptHistory
                       (multiformatOutcome [multiformat3; multiformat1; multiformat2])))
     = true.
Proof.
  assert (E : runMultiformat [multiformat3; multiformat1; multiformat2]
              = Return (multiformatOutcome [multiformat3; multiformat1; multiformat2]))
    by (vm_compute; reflexivity).
  split; [exact E|].
  pose proof (@generateMultiformat_result_contract unit unit (fun _ => false)
                (scripted [multiformat3; multiformat1; multiformat2]) (fun _ => tt)
                (fun _ _ _ => tt)
                (fun d b => ValidatorMultiformat.validateMultiformat d b) tt settingsOn
                (multiformatOutcome [multiformat3; multiformat1; multiformat2]) E)
    as (H1 & _ & H3 & _).
  split; [exact H1 | exact H3].
Defined.

Lemma generateMultiformat_spends_all_attempts_witness :
  exists r,
    generateMultiformat (fun _ : unit => false) (always (Prompt := unit) multiformat1)
      (fun _ => tt) (fun _ _ _ => tt)
      (fun d b => ValidatorMultiformat.validateMultiformat d b) tt settingsOn
    = Return r
    /\ mfSuccess r = false
    /\ mfAttempts r = DEFAULT_MAX_REPAIR_ATTEMPTS
    /\ List.length (mfAttemptHistory r) = DEFAULT_MAX_REPAIR_ATTEMPTS.
Proof.
  refine (@generateMultiformat_spends_all_attempts unit unit (fun _ => false)
            (always multiformat1) (fun _ => tt) (fun _ _ _ => tt)
            (fun d b => ValidatorMultiformat.validateMultiformat d b) tt settingsOn
            _ _ _ _).
  - reflexivity.
  - vm_compute. reflexivity.
  - reflexivity.
  - intros k p. exists multiformat1. split; [reflexivity|]. vm_compute. reflexivity.
Defined.

(** ** The violation signature *)

Lemma strLeb_cons x a y b :
  strLeb (x :: a) (y :: b)
  = if (x <? y)%N then true else if (y <? x)%N then false else strLeb a b.
Proof. reflexivity. Qed.

Lemma strLeb_total a : forall b, strLeb a b = true \/ strLeb b a = true.
Proof.
  induction a as [|x a IH]; intros [|y b]; cbn [strLeb]; auto.
  destruct (N.ltb_spec x y), (N.ltb_spec y x); auto; lia.
Qed.

Lemma strLeb_antisym a : forall b, strLeb a b = true -> strLeb b a = true -> a = b.
Proof.
  induction a as [|x a IH]; intros [|y b]; cbn [strLeb]; try discriminate; auto.
  destruct (N.ltb_spec x y), (N.ltb_spec y x); try discriminate; try lia.
  intros H1 H2. f_equal; [lia | now apply IH].
Qed.

Lemma strLeb_trans a : forall b c, strLeb a b = true -> strLeb b c = true -> strLeb a c = true.
Proof.
  induction a as [|x a IH]; intros [|y b] [|z c]; cbn [strLeb]; try discriminate; auto.
  destruct (N.ltb_spec x y), (N.ltb_spec y x), (N.ltb_spec y z), (N.ltb_spec z y),
    (N.ltb_spec x z), (N.ltb_spec z x); try discriminate; try lia; auto.
  apply IH.
Qed.

Lemma insertSorted_comm x y l :
  insertSorted x (insertSorted y l) = insertSorted y (insertSorted x l).
Proof.
  induction l as [|z l IH]; cbn [insertSorted].
  - destruct (strLeb x y) eqn:Exy, (strLeb y x) eqn:Eyx; try reflexivity.
    + now rewrite (strLeb_antisym _ _ Exy Eyx).
    + destruct (strLeb_total x y); congruence.
  - destruct (strLeb y z) eqn:Eyz, (strLeb x z) eqn:Exz; cbn [insertSorted].
    + destruct (strLeb x y) eqn:Exy, (strLeb y x) eqn:Eyx; rewrite ?Exz, ?Eyz; try reflexivity.
      * now rewrite (strLeb_antisym _ _ Exy Eyx).
      * destruct (strLeb_total x y); congruence.
    + destruct (strLeb x y) eqn:Exy.
      * rewrite (strLeb_trans _ _ _ Exy Eyz) in Exz. discriminate.
      * now rewrite Exz, Eyz.
    + destruct (strLeb y x) eqn:Eyx.
      * rewrite (strLeb_trans _ _ _ Eyx Exz) in Eyz. discriminate.
      * now rewrite Exz, Eyz.
    + now rewrite Exz, Eyz, IH.
Qed.

Lemma sortStrings_Permutation l l' : Permutation l l' -> sortStrings l = sortStrings l'.
Proof.
  unfold sortStrings. induction 1 as [| x l l' _ IH | x y l | l l' l'' _ IH1 _ IH2];
    cbn [fold_right].
  - reflexivity.
  - now rewrite IH.
  - apply insertSorted_comm.
  - congruence.
Qed.

(** X21.  The signature of a list of violations depends only on which
    [code:location] keys occur in it and how often: two lists whose keys are a
    rearrangement of one another, whatever their order, messages, severities
    and evidence, have the same signature. *)
Theorem generateViolationSignature_order_independent (violations violations' : list Violation) :
  Permutation (map signatureKey violations) (map signatureKey violations') ->
  generateViolationSignature violations = generateViolationSignature violations'.
Proof.
  intros H. unfold generateViolationSignature. f_equal.
  apply sortStrings_Permutation. exact H.
Qed.

Lemma generateViolationSignature_order_independent_witness :
  generateViolationSignature
    [ sampleViolation "CHAR_LIMIT_EXCEEDED" "subject";
      sampleViolation "EMOJI_FORBIDDEN" "preheader" ]
  = generateViolationSignature
      [ sampleViolation "EMOJI_FORBIDDEN" "preheader";
        sampleViolation "CHAR_LIMIT_EXCEEDED" "subject" ].
Proof.
  apply generateViolationSignature_order_independent. cbn [map]. apply perm_swap.
Defined.

(** ** Knowledge selection ([tieredKnowledge.js]) *)




Lemma setAdd_NoDup g set : NoDup set -> NoDup (setAdd g set).
Proof.
  intros H. unfold setAdd. destruct (existsb (jsstring_eqb g) set) eqn:E; [exact H|].
  apply NoDup_app; [exact H | constructor; [intros [] | constructor] |].
  intros a Ha [<-|[]]. apply existsb_eqb_In in Ha. congruence.
Qed.

Lemma setAdd_incl g set U : In g U -> incl set U -> incl (setAdd g set) U.
Proof.
  intros Hg H. unfold setAdd. destruct (existsb (jsstring_eqb g) set); [exact H|].
  intros x Hx. apply in_app_or in Hx. destruct Hx as [Hx|[<-|[]]]; auto.
Qed.

Lemma lookup_sections c ss :
  TieredKnowledge.lookup TieredKnowledge.VIOLATION_TO_KNOWLEDGE_MAP c = Some ss ->
  incl ss knowledgeSections.
Proof.
  unfold TieredKnowledge.lookup.
  destruct (find _ TieredKnowledge.VIOLATION_TO_KNOWLEDGE_MAP) as [kv|] eqn:E; [|discriminate].
  intros H. inversion H; subst ss; clear H. apply find_some in E. destruct E as [E _].
  unfold TieredKnowledge.VIOLATION_TO_KNOWLEDGE_MAP in E. cbn [In] in E.
  repeat (destruct E as [<-|E]; [cbn [snd]; intros x [<-|[]]; vm_compute; tauto|]).
  destruct E.
Qed.

Lemma addAll_ok ss : forall set,
  setOk set -> incl ss knowledgeSections ->
  setOk (fold_left (fun set section => setAdd section set) ss set).
Proof.
  induction ss as [|s ss IH]; intros set Hset Hss; [exact Hset|]. cbn [fold_left].
  apply IH.
  - destruct Hset as [H1 H2]. split; [now apply setAdd_NoDup|].
    apply setAdd_incl; [apply Hss; now left | exact H2].
  - intros x Hx. apply Hss. now right.
Qed.

Lemma noteViolation_ok acc (v : Violation) :
  setOk (fst acc) -> setOk (fst (TieredKnowledge.noteViolation acc v)).
Proof.
  intros Hacc. unfold TieredKnowledge.noteViolation.
  destruct (TieredKnowledge.lookup TieredKnowledge.VIOLATION_TO_KNOWLEDGE_MAP (code v))
    as [ss|] eqn:E; [|exact Hacc].
  cbn [fst]. apply addAll_ok; [exact Hacc|]. exact (lookup_sections _ E).
Qed.

Lemma fold_left_invariant {A B} (f : A -> B -> A) (P : A -> Prop) :
  (forall a b, P a -> P (f a b)) -> forall l a, P a -> P (fold_left f l a).
Proof.
  intros Hf. induction l as [|b l IH]; intros a Ha; [exact Ha|].
  cbn [fold_left]. apply IH. now apply Hf.
Qed.

Lemma collectSections_ok vs :
  setOk (fst (TieredKnowledge.collectSections vs)).
Proof.
  unfold TieredKnowledge.collectSections.
  apply (@fold_left_invariant _ _ TieredKnowledge.noteViolation (fun acc => setOk (fst acc))).
  - intros acc v. apply noteViolation_ok.
  - split; [constructor | intros x []].
Qed.

Lemma tokens_full : TieredKnowledge.tokensOf (js "FULL_KNOWLEDGE") = 6300%N.
Proof. vm_compute. reflexivity. Qed.



(** ** The codes of the email validator *)

Lemma emits_coded (c : string) codes (l : list Violation) :
  In (js c) codes -> emits c l -> coded codes l.
Proof.
  intros Hc H. unfold emits in H. eapply Forall_impl; [|exact H]. intros v Hv. now rewrite Hv.
Qed.

Lemma In_emailCodes (c : string) :
  existsb (jsstring_eqb (js c)) emailCodes = true -> In (js c) emailCodes.
Proof. apply existsb_eqb_In. Qed.

Ltac email_code := apply In_emailCodes; vm_compute; reflexivity.

Lemma checkForbiddenWords_coded text loc : coded emailCodes (checkForbiddenWords text loc).
Proof.
  unfold coded, checkForbiddenWords. destruct (negb (truthy text)); [constructor|].
  repeat match goal with
         | |- Forall _ (_ ++ _) => apply Forall_app; split
         end.
  - eapply emits_coded; [|apply degustatsiya_emits]. email_code.
  - eapply emits_coded; [|apply kupit_emits]. email_code.
  - eapply emits_coded; [|apply pokupka_emits]. email_code.
  - eapply emits_coded; [|apply buket_emits]. email_code.
  - eapply emits_coded; [|apply poslevkusie_emits]. email_code.
Qed.

Lemma collectViolations_coded output s spec :
  coded emailCodes (collectViolations output s spec).
Proof.
  unfold coded, collectViolations. cbv zeta. unfold fieldViolations.
  repeat match goal with
         | |- Forall _ (_ ++ _) => apply Forall_app; split
         | |- Forall _ (flat_map _ _) => apply Forall_flat_map_all; intros
         | |- Forall _ (checkForbiddenWords _ _) => apply checkForbiddenWords_coded
         | |- Forall _ _ => eapply emits_coded; [ | emitted ]; email_code
         end.
Qed.

Lemma validateEmail_coded output parsedBrief spec :
  coded emailCodes (violations (validateEmail output parsedBrief spec)).
Proof.
  unfold validateEmail. destruct (parseEmailOutput output) as [s|].
  - cbv zeta. cbn [violations]. apply collectViolations_coded.
  - cbn [violations]. constructor; [|constructor]. cbn [parseFailed code].
    apply (In_emailCodes "PARSE_FAILED"). vm_compute. reflexivity.
Qed.

Lemma lookup_emailCode c :
  In c emailCodes ->
  match TieredKnowledge.lookup TieredKnowledge.VIOLATION_TO_KNOWLEDGE_MAP c with
  | Some ss => incl ss emailSections /\ In c coveredCodes
  | None => ~ In c coveredCodes
  end.
Proof.
  unfold emailCodes. cbn [map In].
  intros H.
  repeat (destruct H as [<-|H];
          [vm_compute;
           first [ split; [intros x [<-|[]]; tauto | tauto]
                 | intros K;
                   repeat (destruct K as [K|K]; [discriminate K|]); exact K ]|]).
  destruct H.
Qed.

Lemma noteViolation_email acc (v : Violation) :
  In (code v) emailCodes -> incl (fst acc) emailSections ->
  incl (fst (TieredKnowledge.noteViolation acc v)) emailSections.
Proof.
  intros Hc Hacc. apply lookup_emailCode in Hc. unfold TieredKnowledge.noteViolation.
  destruct (TieredKnowledge.lookup TieredKnowledge.VIOLATION_TO_KNOWLEDGE_MAP (code v))
    as [ss|]; [|exact Hacc].
  cbn [fst]. destruct Hc as [Hss _]. revert Hss. generalize (fst acc) Hacc.
  induction ss as [|s ss IH]; intros set Hset Hss; [exact Hset|]. cbn [fold_left].
  apply IH; [|intros x Hx; apply Hss; now right].
  apply setAdd_incl; [apply Hss; now left | exact Hset].
Qed.

Lemma fold_left_invariant_In {A B} (f : A -> B -> A) (P : A -> Prop) (Q : B -> Prop) :
  (forall a b, Q b -> P a -> P (f a b)) ->
  forall l a, Forall Q l -> P a -> P (fold_left f l a).
Proof.
  intros Hf. induction l as [|b l IH]; intros a Hl Ha; [exact Ha|].
  cbn [fold_left]. inversion Hl; subst. apply IH; [assumption|]. now apply Hf.
Qed.

Lemma collectSections_email vs :
  coded emailCodes vs -> incl (fst (TieredKnowledge.collectSections vs)) emailSections.
Proof.
  intros H. unfold TieredKnowledge.collectSections.
  apply (@fold_left_invariant_In _ _ TieredKnowledge.noteViolation
           (fun acc => incl (fst acc) emailSections) (fun v => In (code v) emailCodes)).
  - intros acc v Hv Hacc. now apply noteViolation_email.
  - exact H.
  - intros x [].
Qed.

Lemma noteViolation_sticky acc (v : Violation) :
  snd acc = true -> snd (TieredKnowledge.noteViolation acc v) = true.
Proof.
  intros H. unfold TieredKnowledge.noteViolation.
  destruct (TieredKnowledge.lookup _ (code v)); [exact H | reflexivity].
Qed.

Lemma fold_left_cons {A B} (f : A -> B -> A) (b : B) (l : list B) (a : A) :
  fold_left f (b :: l) a = fold_left f l (f a b).
Proof. reflexivity. Qed.

Lemma collectSections_unknown vs v :
  In v vs ->
  TieredKnowledge.lookup TieredKnowledge.VIOLATION_TO_KNOWLEDGE_MAP (code v) = None ->
  snd (TieredKnowledge.collectSections vs) = true.
Proof.
  intros Hin Hv. apply in_split in Hin. destruct Hin as (l1 & l2 & ->).
  unfold TieredKnowledge.collectSections. rewrite fold_left_app.
  rewrite fold_left_cons.
  apply (@fold_left_invariant _ _ TieredKnowledge.noteViolation (fun acc => snd acc = true)).
  - intros acc b. apply noteViolation_sticky.
  - unfold TieredKnowledge.noteViolation. now rewrite Hv.
Qed.

Lemma subsets_of_two {A} (a b : A) (set : list A) :
  NoDup set -> incl set [a; b] -> In set [ []; [a]; [b]; [a; b]; [b; a] ].
Proof.
  intros Hnd Hincl.
  assert (H2 : forall x, In x set -> x = a \/ x = b).
  { intros x Hx. apply Hincl in Hx. destruct Hx as [<-|[<-|[]]]; auto. }
  destruct set as [|x [|y [|z r]]].
  - now left.
  - destruct (H2 x (or_introl eq_refl)) as [->| ->]; cbn [In]; auto.
  - inversion Hnd as [|? ? Hx _]; subst.
    destruct (H2 x (or_introl eq_refl)) as [->| ->],
             (H2 y (or_intror (or_introl eq_refl))) as [->| ->]; cbn [In] in *;
      try (exfalso; apply Hx; now left); auto 6.
  - exfalso. pose proof (NoDup_incl_length Hnd Hincl) as L. cbn in L. lia.
Qed.

Lemma select_full_when_unknown vs kb :
  snd (TieredKnowledge.collectSections vs) = true ->
  TieredKnowledge.selectRelevantKnowledge vs kb = TieredKnowledge.fullKnowledge kb
  /\ TieredKnowledge.estimateTokenCount vs = 6300%N.
Proof.
  intros H. unfold TieredKnowledge.selectRelevantKnowledge, TieredKnowledge.estimateTokenCount.
  destruct (Nat.eqb (List.length vs) 0); [split; [reflexivity | exact tokens_full]|].
  destruct (TieredKnowledge.collectSections vs) as [set unknown]. cbn [snd] in H. subst unknown.
  cbn [orb]. split; [reflexivity | exact tokens_full].
Qed.

(** X23.  How the table of [tieredKnowledge.js] meets the codes of
    [validateEmail].  For the violations of an email the estimate is 150, 400,
    550 or 6300 tokens: only the sections on character limits and on geography
    can be selected.  As soon as one violation has a code outside the five
    that the table knows (so for every forbidden word, cliche, emoji, service
    phrase and parse failure) the full knowledge base is estimated and
    selected. *)
Theorem email_violations_knowledge (output parsedBrief : jsstring) (spec : Spec) :
  In (TieredKnowledge.estimateTokenCount (violations (validateEmail output parsedBrief spec)))
     [150; 400; 550; 6300]%N
  /\ ((exists v, In v (violations (validateEmail output parsedBrief spec))
                 /\ ~ In (code v) coveredCodes) ->
      TieredKnowledge.estimateTokenCount (violations (validateEmail output parsedBrief spec))
      = 6300%N
      /\ forall kb,
           TieredKnowledge.selectRelevantKnowledge
             (violations (validateEmail output parsedBrief spec)) kb
           = TieredKnowledge.fullKnowledge kb).
Proof.
  pose proof (validateEmail_coded output parsedBrief spec) as C.
  generalize dependent (violations (validateEmail output parsedBrief spec)). intros vs C.
  split.
  - pose proof (collectSections_ok vs) as [Hnd _].
    pose proof (collectSections_email C) as Hincl.
    pose proof (subsets_of_two Hnd Hincl) as Hset.
    unfold TieredKnowledge.estimateTokenCount.
    destruct (Nat.eqb (List.length vs) 0); [rewrite tokens_full; cbn [In]; auto|].
    destruct (TieredKnowledge.collectSections vs) as [set unknown]. cbn [fst] in Hset.
    destruct unknown; [cbn [orb]; rewrite tokens_full; cbn [In]; auto|]. cbn [orb].
    cbn [In] in Hset.
    destruct Hset as [<-|[<-|[<-|[<-|[<-|[]]]]]]; vm_compute; auto.
  - intros (v & Hin & Hv).
    assert (U : snd (TieredKnowledge.collectSections vs) = true).
    { apply (@collectSections_unknown vs v Hin).
      unfold coded in C. rewrite Forall_forall in C. specialize (C v Hin).
      apply lookup_emailCode in C.
      destruct (TieredKnowledge.lookup _ (code v)); [destruct C; contradiction | reflexivity]. }
    split; [apply (select_full_when_unknown vs (fun _ => None) U) | intros kb].
    apply (select_full_when_unknown vs kb U).
Qed.

Lemma email_violations_knowledge_witness :
  TieredKnowledge.estimateTokenCount (violations (validateEmail email1 [] defaultSpec))
  = 6300%N
  /\ forall kb,
       TieredKnowledge.selectRelevantKnowledge
         (violations (validateEmail email1 [] defaultSpec)) kb
       = TieredKnowledge.fullKnowledge kb.
Proof.
  apply (proj2 (email_violations_knowledge email1 [] defaultSpec)).
  exists (hd (sampleViolation "" "") (violations (validateEmail email1 [] defaultSpec))).
  split; [vm_compute; left; reflexivity|].
  vm_compute. intros [H|[H|[H|[H|[H|[]]]]]]; discriminate H.
Defined.



(** ** The format lines of the multiformat prompt *)

Lemma pushIf_incl c line :
  incl (PromptComposerMultiformat.pushIf c line) (PromptComposerMultiformat.pushIf true line).
Proof. destruct c; [apply incl_refl | apply incl_nil_l]. Qed.

Lemma instructions_incl r :
  incl (PromptComposerMultiformat.instructions r)
       (PromptComposerMultiformat.instructions allFormats).
Proof.
  unfold PromptComposerMultiformat.instructions.
  cbn [allFormats PromptComposerMultiformat.rPush PromptComposerMultiformat.rSms
       PromptComposerMultiformat.announce PromptComposerMultiformat.reminder
       PromptComposerMultiformat.lastCall PromptComposerMultiformat.yandexMaps
       PromptComposerMultiformat.rOnboarding PromptComposerMultiformat.landingPage
       PromptComposerMultiformat.rTabs PromptComposerMultiformat.stickyBanner
       PromptComposerMultiformat.stickyBannerTimer PromptComposerMultiformat.rTicker orb].
  repeat match goal with
         | |- incl (_ ++ _) (_ ++ _) => apply incl_app_app
         | |- incl (if ?c then _ else []) _ => destruct c; [ | apply incl_nil_l ]
         | |- incl (PromptComposerMultiformat.pushIf _ _) _ => apply pushIf_incl
         | |- incl [ _ ] [ _ ] => apply incl_refl
         end.
Qed.

Lemma all_lines_recognised :
  forallb (fun l => implb (formatLine l) (recognised l))
          (flat_map (splitOn 10) (PromptComposerMultiformat.instructions allFormats)) = true.
Proof. vm_compute. reflexivity. Qed.

Lemma recognised_sound (l : jsstring) :
  recognised l = true ->
  exists k, In (l, k) promptedSections
            /\ ValidatorMultiformat.detectSection (trim l) = Some k.
Proof.
  unfold recognised. generalize promptedSections as table. intros table.
  destruct (find (fun p => jsstring_eqb (fst p) l) table) as [[l' k]|] eqn:F;
    [|intros H; discriminate H].
  apply find_some in F. destruct F as [Fin Feq]. cbn [fst] in Feq.
  apply jsstring_eqb_eq in Feq. subst l'.
  destruct (ValidatorMultiformat.detectSection (trim l)) as [k'|];
    [|intros H; discriminate H].
  intros H. apply SectionName_eqb_true in H. subst k'. exists k. split; [exact Fin|reflexivity].
Qed.

Lemma lines_of_instructions (r : PromptComposerMultiformat.RequiredFormats) (l : jsstring) :
  In l (splitOn 10 (PromptComposerMultiformat.buildFormatInstructions r)) ->
  In l (flat_map (splitOn 10) (PromptComposerMultiformat.instructions allFormats)).
Proof.
  intros Hin. unfold PromptComposerMultiformat.buildFormatInstructions in Hin.
  rewrite splitOn_join in Hin by (unfold PromptComposerMultiformat.instructions; discriminate).
  apply in_flat_map in Hin. destruct Hin as (c & Hc & Hl).
  apply in_flat_map. exists c. split; [|exact Hl].
  exact (@instructions_incl r c Hc).
Qed.

Lemma forallb_implb (A : Type) (f g : A -> bool) (l : list A) (x : A) :
  forallb (fun y => implb (f y) (g y)) l = true -> In x l -> f x = true -> g x = true.
Proof.
  intros H Hin Hf. rewrite forallb_forall in H. specialize (H x Hin).
  rewrite Hf in H. exact H.
Qed.

(** X24.  Prompt and parser agree on the section headers.  Every line of the
    text built by [buildFormatInstructions] that starts with a hyphen is one of
    the thirteen format lines, and [detectSection] of the multiformat validator
    reads it as the header of the section that the line asks for. *)
Theorem prompted_sections_are_parsed (r : PromptComposerMultiformat.RequiredFormats)
        (l : jsstring) :
  In l (splitOn 10 (PromptComposerMultiformat.buildFormatInstructions r)) ->
  formatLine l = true ->
  exists k, In (l, k) promptedSections
            /\ ValidatorMultiformat.detectSection (trim l) = Some k.
Proof.
  intros Hin Hf. apply lines_of_instructions in Hin.
  apply recognised_sound.
  exact (@forallb_implb jsstring formatLine recognised _ l all_lines_recognised Hin Hf).
Qed.

Lemma prompted_sections_are_parsed_witness :
  exists k,
    In (js "- 3.3. ТЕКСТ НА LP (2 варианта)", k) promptedSections
    /\ ValidatorMultiformat.detectSection (trim (js "- 3.3. ТЕКСТ НА LP (2 варианта)"))
       = Some k.
Proof.
  refine (@prompted_sections_are_parsed
            (PromptComposerMultiformat.determineRequiredFormats None)
            (js "- 3.3. ТЕКСТ НА LP (2 варианта)") _ _).
  - vm_compute. repeat (first [left; reflexivity | right]).
  - vm_compute. reflexivity.
Defined.

(** X25.  Whatever the brief asks for, also when it switches the landing page
    off or names no formats at all, [determineRequiredFormats] requires the
    landing page and the instructions hold its format line; and the SMS
    reminder and last call are required exactly when the SMS announce is. *)
Theorem landing_page_is_always_requested
        (formats_required : option PromptComposerMultiformat.FormatsRequired) :
  let r := PromptComposerMultiformat.determineRequiredFormats formats_required in
  PromptComposerMultiformat.landingPage r = true
  /\ In (js "- 3.3. ТЕКСТ НА LP (2 варианта)")
        (splitOn 10 (PromptComposerMultiformat.buildFormatInstructions r))
  /\ PromptComposerMultiformat.reminder (PromptComposerMultiformat.rSms r)
     = PromptComposerMultiformat.announce (PromptComposerMultiformat.rSms r)
  /\ PromptComposerMultiformat.lastCall (PromptComposerMultiformat.rSms r)
     = PromptComposerMultiformat.announce (PromptComposerMultiformat.rSms r).
Proof.
  cbv zeta.
  assert (L : PromptComposerMultiformat.landingPage
                (PromptComposerMultiformat.determineRequiredFormats formats_required) = true).
  { unfold PromptComposerMultiformat.determineRequiredFormats. cbv zeta.
    cbn [PromptComposerMultiformat.landingPage].
    destruct (PromptComposerMultiformat.landing_page _) as [b|]; [apply orb_true_r | reflexivity]. }
  split; [exact L|]. split; [|split; reflexivity].
  unfold PromptComposerMultiformat.buildFormatInstructions.
  rewrite splitOn_join by (unfold PromptComposerMultiformat.instructions; discriminate).
  apply in_flat_map. exists (js "- 3.3. ТЕКСТ НА LP (2 варианта)"). split.
  - unfold PromptComposerMultiformat.instructions. rewrite L.
    do 6 (apply in_or_app; right). apply in_or_app. left.
    cbn [PromptComposerMultiformat.pushIf]. left. reflexivity.
  - vm_compute. left. reflexivity.
Qed.

